(** * Beijing Mahjong Monte-Carlo simulator: round and table outcome engine

    A shallow embedding of the Python package [mahjong_sim]
    (scoring.py, strategies.py, players.py, variables.py, simulation.py,
    table.py, utils.py) and of the round and trial functions of
    experiments 2 and 3, with the properties of the round resolvers, the
    session reducers, the dealer rotation, the samplers and the summaries.

    Conventions of the embedding.
    - Python [float] values (profit, utility, risk, hand quality) are
      idealised as real numbers: every arithmetic operation is the exact
      one, binary64 rounding is not modelled.  Python [int] values (fan,
      kong count, base points) are integers [Z]; seat indices are [nat].
    - The global numpy generator is made explicit: every value a round
      draws from it is an input of the round (records [RoundDraws] and
      [TableDraws]).  A property proved for all draws holds for every
      run of the sampler.
    - Each [NeutralPolicy] object lives in a heap of objects; a seat that
      plays it holds a reference, and [should_hu] updates the generator
      of that object only.
    - Python exceptions are results: a function that can raise returns
      [Raise e] instead of [Ok v]. *)

From Stdlib Require Import Reals Lra Lia ZArith List Bool String Sorted.
From Stdlib Require Floats Uint63.
From stdpp Require Import base option list gmap.

Set Warnings "-inexact-float".

(** ** Comparisons of real numbers as booleans *)

Definition Rltb (x y : R) : bool := if Rlt_dec x y then true else false.
Definition Rleb (x y : R) : bool := if Rle_dec x y then true else false.
Definition Reqb (x y : R) : bool := if Req_dec_T x y then true else false.
Definition Rgtb (x y : R) : bool := Rltb y x.
Definition Rgeb (x y : R) : bool := Rleb y x.

(** Python's [int(x)] on a float: truncation toward zero. *)
Definition py_int (x : R) : Z :=
  if Rle_dec 0 x then Int_part x else (- Int_part (- x))%Z.

(** [np.sum] of a list of floats, and [np.cumsum]. *)
Definition np_sum (l : list R) : R := fold_right Rplus 0%R l.

Fixpoint cumsum_from (acc : R) (l : list R) : list R :=
  match l with
  | [] => []
  | x :: l' => (acc + x)%R :: cumsum_from (acc + x)%R l'
  end.

Definition np_cumsum (l : list R) : list R := cumsum_from 0%R l.

(** ** Exceptions *)

Inductive exn : Type :=
| ValueError
| IndexError
| ZeroDivisionError
| AttributeError.

Inductive result (A : Type) : Type :=
| Ok (a : A)
| Raise (e : exn).

Arguments Ok {A} a.
Arguments Raise {A} e.

Definition bind {A B : Type} (m : result A) (k : A -> result B) : result B :=
  match m with
  | Ok a => k a
  | Raise e => Raise e
  end.

Notation "'try' x <- m 'in' k" := (bind m (fun x => k))
  (at level 10, x pattern, m at level 100, k at level 200).

(** [l[i]] for an index [i >= 0]: raises [IndexError] out of range. *)
Definition lookup_or_raise {A : Type} (l : list A) (i : nat) : result A :=
  match l !! i with
  | Some a => Ok a
  | None => Raise IndexError
  end.

(** [l[i] = f(l[i])], in place: raises [IndexError] out of range. *)
Definition update_or_raise {A : Type} (l : list A) (i : nat) (f : A -> A)
    : result (list A) :=
  match l !! i with
  | Some a => Ok (<[i := f a]> l)
  | None => Raise IndexError
  end.

Fixpoint mapM {A B : Type} (f : A -> result B) (l : list A) : result (list B) :=
  match l with
  | [] => Ok []
  | a :: l' =>
      try b <- f a in
      try bs <- mapM f l' in
      Ok (b :: bs)
  end.

(** [np.mean]: the mean of an empty array is [nan], here [None]. *)
Definition np_mean (l : list R) : option R :=
  match l with
  | [] => None
  | _ => Some (np_sum l / INR (length l))%R
  end.

(** A Python [bool] used as a number. *)
Definition bool_to_R (b : bool) : R := if b then 1%R else 0%R.

(** ** numpy's weighted choice

    [np.random.choice(n, p=p)] checks that [p] holds [n] probabilities:
    no [nan], none negative, summing to one; otherwise it raises
    [ValueError].  It then draws one uniform number [u] in [0,1) and
    returns the position of [u] in the cumulative sums of [p]
    ([searchsorted] with [side='right']).

    An array divided by a zero scalar is an array of [nan] and [inf]
    (numpy warns, it does not raise): [np_divide] returns [None] for it. *)

Definition np_divide (a : list R) (d : R) : option (list R) :=
  if Reqb d 0 then None else Some (map (fun x => (x / d)%R) a).

Fixpoint searchsorted_right (a : list R) (v : R) : nat :=
  match a with
  | [] => 0
  | x :: a' => if Rltb v x then 0 else S (searchsorted_right a' v)
  end.

Definition valid_probabilities (n : nat) (p : list R) : bool :=
  Nat.ltb 0 n && Nat.eqb (length p) n
  && forallb (fun x => Rleb 0 x) p && Reqb (np_sum p) 1.

Definition np_random_choice (n : nat) (p : option (list R)) (u : R) : result nat :=
  match p with
  | None => Raise ValueError
  | Some ps =>
      if valid_probabilities n ps
      then Ok (searchsorted_right (np_cumsum ps) u)
      else Raise ValueError
  end.


(** ** scoring.py *)

Module Scoring.
Local Open Scope R_scope.

(** [base_points * (2 ** fan)].  For a Python [int] exponent the power is
    the integer power when [fan >= 0] and the float [2.0 ** fan]
    otherwise; [powerRZ] is both. *)
Definition compute_score (fan : Z) (base_points : Z) : R :=
  IZR base_points * powerRZ 2 fan.

Definition compute_winner_profit
    (score : R) (is_self_draw deal_in_occurred : bool) : R :=
  if is_self_draw then score * 3
  else if deal_in_occurred then score
  else score * 3.

Definition compute_loser_cost
    (score penalty_multiplier : R) (is_deal_in_loser : bool) : R :=
  if is_deal_in_loser then - score * penalty_multiplier
  else - score.

Definition compute_total_fan (base_fan kong_count max_total_fan : Z) : Z :=
  Z.min (base_fan + kong_count) max_total_fan.

End Scoring.

(** ** strategies.py *)

Module Strategies.

Definition defensive_strategy (fan fan_min : Z) : bool := (fan >=? fan_min)%Z.

Definition aggressive_strategy (fan threshold : Z) : bool := (fan >=? threshold)%Z.

End Strategies.

(** ** variables.py

    Each sampler is the deterministic part of the source function applied
    to the raw value the numpy generator returned. *)

Module Variables.
Local Open Scope R_scope.

Definition fan_values : list Z := [0; 1; 2; 4; 8; 13]%Z.

(** [min(np.random.poisson(lam), max_kongs)], [poisson] the Poisson draw. *)
Definition sample_kong_events (poisson max_kongs : Z) : Z :=
  Z.min poisson max_kongs.

(** [np.random.rand() < hand_quality], [rand] the uniform draw. *)
Definition can_complete_hand (rand hand_quality : R) : bool :=
  Rltb rand hand_quality.

End Variables.

(** ** players.py *)

(** Python's [random.Random]: a generator state, seeding, and [random()],
    which returns a float and the next state. *)
Class PRNG : Type := {
  rng_state : Type;
  rng_seed : Z -> rng_state;
  rng_random : rng_state -> R * rng_state
}.

Module Players.
Local Open Scope R_scope.

Section Policy.
Context {G : PRNG}.

Record NeutralPolicy : Type := { _rng : rng_state }.

(** [NeutralPolicy(seed)].  With [seed=None] Python seeds the generator
    from operating-system entropy, here the input [os_entropy]. *)
Definition NeutralPolicy_init (seed : option Z) (os_entropy : Z) : NeutralPolicy :=
  match seed with
  | Some s => {| _rng := rng_seed s |}
  | None => {| _rng := rng_seed os_entropy |}
  end.

Definition should_hu (self : NeutralPolicy) (fan : Z) (risk : R)
    : bool * NeutralPolicy :=
  if Rgtb risk 0.4 then (true, self)
  else if (fan >=? 1)%Z then (true, self)
  else
    let '(u, g) := rng_random (_rng self) in
    (Rgeb u 0.2, {| _rng := g |}).

(** The decisions of one object along a sequence of calls
    [should_hu(fan, risk)]. *)
Fixpoint decisions (self : NeutralPolicy) (calls : list (Z * R)) : list bool :=
  match calls with
  | [] => []
  | (fan, risk) :: rest =>
      let '(b, self') := should_hu self fan risk in
      b :: decisions self' rest
  end.

End Policy.

End Players.

(** ** simulation.py *)

Module Simulation.
Import Scoring Variables.
Local Open Scope R_scope.

Definition compute_utility
    (profit : R) (missed_hu deal_in_as_loser : bool)
    (missed_penalty deal_in_penalty : R) : R :=
  let utility :=
    if Rgtb profit 0 then sqrt profit
    else if Rltb profit 0 then - sqrt (Rabs profit)
    else 0 in
  let utility := if missed_hu then utility - missed_penalty else utility in
  let utility := if deal_in_as_loser then utility - deal_in_penalty else utility in
  utility.

(** The default penalties of the signature. *)
Definition missed_penalty_default : R := 0.2.
Definition deal_in_penalty_default : R := 0.5.

Definition DEALER_READY_THRESHOLD : R := 0.6.

(** The configuration dictionary, with the keys the engine reads. *)
Record Config : Type := {
  base_points : Z;
  fan_min : Z;
  t_fan_threshold : Z;
  penalty_deal_in : R;
  rounds_per_trial : Z
}.

Record RoundOutcome : Type := {
  profit : R;
  utility : R;
  fan : Z;
  won : bool;
  deal_in_as_winner : bool;
  deal_in_as_loser : bool;
  missed_hu : bool
}.

(** What one call of [simulate_round] draws from the numpy generator.  The
    two branches that call [np.random.rand()] after the strategy decision
    read the same position of the stream, [rand_deal_in]. *)
Record RoundDraws : Type := {
  hand_quality : R;
  deal_in_risk : R;
  rand_complete : R;
  base_fan : Z;
  kong_poisson : Z;
  rand_deal_in : R;
  opponent_base_fan : Z;
  opponent_kong_poisson : Z
}.

(** [simulate_round]; its parameter [is_dealer] is never read. *)
Definition simulate_round
    (player_strategy : Z -> bool) (cfg : Config) (d : RoundDraws) : RoundOutcome :=
  let Q := hand_quality d in
  let R_ := deal_in_risk d in
  let can_win := can_complete_hand (rand_complete d) Q in
  if negb can_win then
    {| profit := 0; utility := 0; fan := 0; won := false;
       deal_in_as_winner := false; deal_in_as_loser := false;
       missed_hu := false |}
  else
    let kong_count := sample_kong_events (kong_poisson d) 2 in
    let total_fan := compute_total_fan (base_fan d) kong_count 16 in
    let strategy_accepts := player_strategy total_fan in
    if negb strategy_accepts then
      let dealt_in := Rltb (rand_deal_in d) R_ in
      let profit_ :=
        if dealt_in then
          let opponent_kong := sample_kong_events (opponent_kong_poisson d) 2 in
          let opponent_fan := compute_total_fan (opponent_base_fan d) opponent_kong 16 in
          let opponent_score := compute_score opponent_fan (base_points cfg) in
          compute_loser_cost opponent_score (penalty_deal_in cfg) true
        else 0 in
      {| profit := profit_;
         utility := compute_utility profit_ true dealt_in
                      missed_penalty_default deal_in_penalty_default;
         fan := 0; won := false;
         deal_in_as_winner := false; deal_in_as_loser := dealt_in;
         missed_hu := true |}
    else
      let score := compute_score total_fan (base_points cfg) in
      let deal_in_occurred := Rltb (rand_deal_in d) R_ in
      if deal_in_occurred then
        let profit_ := compute_winner_profit score false true in
        {| profit := profit_;
           utility := compute_utility profit_ false false
                        missed_penalty_default deal_in_penalty_default;
           fan := total_fan; won := true;
           deal_in_as_winner := true; deal_in_as_loser := false;
           missed_hu := false |}
      else
        let profit_ := compute_winner_profit score true false in
        {| profit := profit_;
           utility := compute_utility profit_ false false
                        missed_penalty_default deal_in_penalty_default;
           fan := total_fan; won := true;
           deal_in_as_winner := false; deal_in_as_loser := false;
           missed_hu := false |}.

(** The summary of one trial ([run_simulation]) or of one seat of a table
    session ([_run_table]). *)
Record Stats : Type := {
  st_profit : R;
  st_utility : R;
  st_mean_fan : option R;
  st_win_rate : option R;
  st_deal_in_rate : option R;
  st_deal_in_loss_rate : option R;
  st_missed_win_rate : option R;
  st_fan_distribution : list Z
}.

Definition positive_fans (fans : list Z) : list Z :=
  List.filter (fun f => (0 <? f)%Z) fans.

Definition rate (flags : list bool) : option R := np_mean (map bool_to_R flags).

Definition baseline_utility_default : R := 200.

(** [run_simulation]: [draws k] is what round [k] of the trial draws. *)
Definition run_simulation
    (strategy_fn : Z -> bool) (cfg : Config) (baseline_utility : R)
    (draws : nat -> RoundDraws) : Stats :=
  let results :=
    map (fun k => simulate_round strategy_fn cfg (draws k))
        (seq 0 (Z.to_nat (rounds_per_trial cfg))) in
  let utilities := map utility results in
  let fans := map fan results in
  let incremental_utility := np_sum utilities in
  let incremental_utility := Rmax 0 incremental_utility in
  let total_utility := baseline_utility + incremental_utility in
  {| st_profit := np_sum (map profit results);
     st_utility := total_utility;
     st_mean_fan :=
       match positive_fans fans with
       | [] => Some 0
       | pf => np_mean (map IZR pf)
       end;
     st_win_rate := rate (map won results);
     st_deal_in_rate := rate (map deal_in_as_winner results);
     st_deal_in_loss_rate := rate (map deal_in_as_loser results);
     st_missed_win_rate := rate (map missed_hu results);
     st_fan_distribution := fans |}.

End Simulation.

(** ** table.py *)

Module Table.
Import Scoring Variables Players Simulation.
Local Open Scope R_scope.

Definition adjust_risk_for_composition (base_risk : R) (num_def_players : Z) : R :=
  let reduction_factor := 1 - (IZR num_def_players / 4) * 0.3 in
  base_risk * reduction_factor.

Definition adjust_fan_growth_for_composition (base_fan : Z) (num_def_players : Z) : Z :=
  let growth_factor := 1 + (IZR (4 - num_def_players) / 4) * 0.2 in
  let adjusted := py_int (IZR base_fan * growth_factor) in
  Z.min adjusted 16.

(** The objects of class [NeutralPolicy], by address. *)
Abbreviation Heap := (gmap nat NeutralPolicy).

Section Table.
Context {G : PRNG}.

(** A seat's strategy: a plain callable on the fan, or an object with a
    [should_hu] method, held by reference. *)
Inductive Strategy : Type :=
| Callable (f : Z -> bool)
| PolicyRef (l : nat).

Record Player : Type := {
  strategy : Strategy;
  strategy_type : string
}.


(** The dispatch on [hasattr(strategy_callable, "should_hu")].  A reference
    always points to a live object in Python; the lookup failure is there
    for totality only. *)
Definition call_strategy (s : Strategy) (total_fan : Z) (R_adjusted : R) (h : Heap)
    : result (bool * Heap) :=
  match s with
  | Callable f => Ok (f total_fan, h)
  | PolicyRef l =>
      match h !! l with
      | Some self =>
          let '(b, self') := should_hu self total_fan R_adjusted in
          Ok (b, <[l := self']> h)
      | None => Raise AttributeError
      end
  end.

(** A schedule of calls on the objects of a heap: the event [(l, fan, risk)]
    calls [should_hu(fan, risk)] on the object at address [l].  The log
    pairs each address with the decision it returned. *)
Fixpoint run_schedule (h : Heap) (events : list (nat * Z * R))
    : result (list (nat * bool) * Heap) :=
  match events with
  | [] => Ok ([], h)
  | (l, fan, risk) :: rest =>
      try (b, h1) <- call_strategy (PolicyRef l) fan risk h in
      try (log, h2) <- run_schedule h1 rest in
      Ok ((l, b) :: log, h2)
  end.

Definition calls_on (l : nat) (events : list (nat * Z * R)) : list (Z * R) :=
  map (fun e => (snd (fst e), snd e))
      (List.filter (fun e => Nat.eqb (fst (fst e)) l) events).

Definition decisions_on (l : nat) (log : list (nat * bool)) : list bool :=
  map snd (List.filter (fun e => Nat.eqb (fst e) l) log).

(** What a table round draws for one seat, and for the round. *)
Record SeatDraws : Type := {
  sd_hand_quality : R;
  sd_deal_in_risk : R;
  sd_rand_complete : R;
  sd_base_fan : Z;
  sd_kong_poisson : Z
}.

Record TableDraws : Type := {
  seat_draws : nat -> SeatDraws;
  rand_winner : R;
  rand_deal : R;
  rand_loser : R
}.

(** The entries of [player_data] and of [eligible_winners]. *)
Record PlayerData : Type := {
  pd_player_idx : nat;
  pd_can_win : bool;
  pd_strategy_accepts : bool;
  pd_fan : Z;
  pd_R : R;
  pd_Q : R;
  pd_player : Player;
  pd_is_dealer : bool
}.

Record Eligible : Type := {
  ew_player_idx : nat;
  ew_fan : Z;
  ew_player : Player;
  ew_is_dealer : bool
}.

Record RoundMeta : Type := {
  winner_index : option nat;
  winner_is_dealer : bool;
  dealer_ready : bool;
  dealer_continues : bool;
  is_draw : bool
}.

Definition count_def (players : list Player) : nat :=
  length (List.filter (fun p => String.eqb (strategy_type p) "DEF") players).

(** The first loop of [simulate_table_round], from seat [i] on. *)
Fixpoint collect_seats
    (players : list Player) (i : nat) (num_def : nat) (dealer_index : nat)
    (d : nat -> SeatDraws) (h : Heap)
    : result (list PlayerData * list Eligible * Heap) :=
  match players with
  | [] => Ok ([], [], h)
  | player :: rest =>
      let theta := INR num_def / 4 in
      let is_dealer := Nat.eqb i dealer_index in
      let Q := sd_hand_quality (d i) in
      let base_R := sd_deal_in_risk (d i) in
      let R_adjusted := base_R * (1 - theta * 0.3) in
      let can_win := can_complete_hand (sd_rand_complete (d i)) Q in
      if negb can_win then
        let data :=
          {| pd_player_idx := i; pd_can_win := false;
             pd_strategy_accepts := false; pd_fan := 0;
             pd_R := R_adjusted; pd_Q := Q; pd_player := player;
             pd_is_dealer := is_dealer |} in
        try (pds, ews, h') <- collect_seats rest (S i) num_def dealer_index d h in
        Ok (data :: pds, ews, h')
      else
        let base_fan := sd_base_fan (d i) in
        let kong_count := sample_kong_events (sd_kong_poisson (d i)) 2 in
        let adjusted_base_fan :=
          adjust_fan_growth_for_composition base_fan (Z.of_nat num_def) in
        let total_fan := compute_total_fan adjusted_base_fan kong_count 16 in
        try (strategy_accepts, h1) <-
          call_strategy (strategy player) total_fan R_adjusted h in
        let data :=
          {| pd_player_idx := i; pd_can_win := true;
             pd_strategy_accepts := strategy_accepts; pd_fan := total_fan;
             pd_R := R_adjusted; pd_Q := Q; pd_player := player;
             pd_is_dealer := is_dealer |} in
        let winner :=
          {| ew_player_idx := i; ew_fan := total_fan; ew_player := player;
             ew_is_dealer := is_dealer |} in
        try (pds, ews, h') <- collect_seats rest (S i) num_def dealer_index d h1 in
        Ok (data :: pds, if strategy_accepts then winner :: ews else ews, h')
  end.

Definition missed_of (data : PlayerData) : bool :=
  pd_can_win data && negb (pd_strategy_accepts data).

(** The outcome of a seat in a round without a winner. *)
Definition draw_outcome (data : PlayerData) : RoundOutcome :=
  let missed := missed_of data in
  {| profit := 0;
     utility := compute_utility 0 missed false
                  missed_penalty_default deal_in_penalty_default;
     fan := 0; won := false; deal_in_as_winner := false;
     deal_in_as_loser := false; missed_hu := missed |}.

(** The winner among the eligible seats (there is at least one). *)
Definition select_winner (eligible_winners : list Eligible) (u : R) : result Eligible :=
  match eligible_winners with
  | [winner] => Ok winner
  | _ =>
      let fan_values := map ew_fan eligible_winners in
      let weights := map IZR fan_values in
      let total_weight := np_sum weights in
      let n := length eligible_winners in
      let weights :=
        if Rleb total_weight 0
        then np_divide (replicate n 1) (INR n)
        else np_divide weights total_weight in
      try winner_idx <- np_random_choice n weights u in
      lookup_or_raise eligible_winners winner_idx
  end.

(** The seats other than the winner, [[i for i in range(n) if i != w]]. *)
Definition other_seats (n w : nat) : list nat :=
  List.filter (fun i => negb (Nat.eqb i w)) (seq 0 n).

(** The six per-seat lists a round with a winner fills in. *)
Record RoundLists : Type := {
  round_profits : list R;
  round_win_flags : list bool;
  round_deal_in_win : list bool;
  round_deal_in_loss : list bool;
  round_fans : list Z;
  round_missed : list bool
}.

Definition set_flag (b : bool) : bool := true.

(** The branch [if deal_in_occurred: ... else: ...]. *)
Definition settle
    (n : nat) (player_data : list PlayerData) (cfg : Config)
    (w : nat) (winner_fan : Z) (score : R) (deal_in_occurred : bool) (u_loser : R)
    : result RoundLists :=
  let missed := map missed_of player_data in
  if deal_in_occurred then
    let losers := other_seats n w in
    try loser_Rs <-
      mapM (fun i => try data <- lookup_or_raise player_data i in Ok (pd_R data))
           losers in
    let loser_weights := np_divide loser_Rs (np_sum loser_Rs) in
    try loser_idx <- np_random_choice (length losers) loser_weights u_loser in
    try loser_player_idx <- lookup_or_raise losers loser_idx in
    let loser_profit := compute_loser_cost score (penalty_deal_in cfg) true in
    try profits <-
      update_or_raise (replicate n 0) loser_player_idx (fun x => x + loser_profit) in
    try profits <- update_or_raise profits w (fun x => x - loser_profit) in
    try wins <- update_or_raise (replicate n false) w set_flag in
    try deal_in_win <- update_or_raise (replicate n false) w set_flag in
    try deal_in_loss <-
      update_or_raise (replicate n false) loser_player_idx set_flag in
    try fans <- update_or_raise (replicate n 0%Z) w (fun _ => winner_fan) in
    Ok {| round_profits := profits; round_win_flags := wins;
          round_deal_in_win := deal_in_win; round_deal_in_loss := deal_in_loss;
          round_fans := fans; round_missed := missed |}
  else
    let opponent_cost := compute_loser_cost score (penalty_deal_in cfg) false in
    Ok {| round_profits :=
            imap (fun i x =>
                    if Nat.eqb i w
                    then x - opponent_cost * (INR n - 1)
                    else x + opponent_cost)
                 (replicate n 0);
          round_win_flags :=
            imap (fun i b => if Nat.eqb i w then true else b) (replicate n false);
          round_deal_in_win := replicate n false;
          round_deal_in_loss := replicate n false;
          round_fans :=
            imap (fun i f => if Nat.eqb i w then winner_fan else f)
                 (replicate n 0%Z);
          round_missed := missed |}.

(** The last loop: one outcome per seat, read off the six lists (all of
    length [n]). *)
Definition outcome_at (ls : RoundLists) (i : nat) : RoundOutcome :=
  let p := nth i (round_profits ls) 0 in
  let m := nth i (round_missed ls) false in
  let l := nth i (round_deal_in_loss ls) false in
  {| profit := p;
     utility := compute_utility p m l
                  missed_penalty_default deal_in_penalty_default;
     fan := nth i (round_fans ls) 0%Z;
     won := nth i (round_win_flags ls) false;
     deal_in_as_winner := nth i (round_deal_in_win ls) false;
     deal_in_as_loser := l;
     missed_hu := m |}.

Definition simulate_table_round
    (players : list Player) (cfg : Config) (dealer_index : nat)
    (d : TableDraws) (h : Heap)
    : result (list RoundOutcome * RoundMeta * Heap) :=
  let num_def := count_def players in
  try (player_data, eligible_winners, h') <-
    collect_seats players 0 num_def dealer_index (seat_draws d) h in
  let ready :=
    match player_data !! dealer_index with
    | Some data => Rgeb (pd_Q data) DEALER_READY_THRESHOLD
    | None => false
    end in
  match eligible_winners with
  | [] =>
      Ok (map draw_outcome player_data,
          {| winner_index := None; winner_is_dealer := false;
             dealer_ready := ready; dealer_continues := ready;
             is_draw := true |},
          h')
  | _ =>
      try winner <- select_winner eligible_winners (rand_winner d) in
      let w := ew_player_idx winner in
      try winner_data <- lookup_or_raise player_data w in
      let winner_fan := ew_fan winner in
      let score := compute_score winner_fan (base_points cfg) in
      let deal_in_occurred := Rltb (rand_deal d) (pd_R winner_data) in
      let n := length players in
      try ls <-
        settle n player_data cfg w winner_fan score deal_in_occurred (rand_loser d) in
      let results := map (outcome_at ls) (seq 0 n) in
      try dealer_data <- lookup_or_raise player_data dealer_index in
      Ok (results,
          {| winner_index := Some w;
             winner_is_dealer := Nat.eqb w dealer_index;
             dealer_ready := Rgeb (pd_Q dealer_data) DEALER_READY_THRESHOLD;
             dealer_continues := Nat.eqb w dealer_index;
             is_draw := false |},
          h')
  end.

(** The inputs of a round in normal operation: every reference of a seat
    points to a live policy object, and the draws are in the ranges of their
    samplers, with every seat's deal-in risk positive. *)
Definition live_strategies (h : Heap) (players : list Player) : Prop :=
  forall p l, In p players -> strategy p = PolicyRef l -> is_Some (h !! l).

Definition draws_in_range (n : nat) (d : TableDraws) : Prop :=
  (forall i, (i < n)%nat ->
     0 < sd_deal_in_risk (seat_draws d i)
     /\ In (sd_base_fan (seat_draws d i)) fan_values
     /\ (0 <= sd_kong_poisson (seat_draws d i))%Z)
  /\ rand_winner d < 1
  /\ rand_loser d < 1.

(** The state the loop of [_run_table] carries from round to round: the
    dealer seat, the heap, and per seat the outcomes so far (the seven
    parallel lists [all_profits], [all_utilities], ... of the source are
    the fields of these records); the dealer and non-dealer buckets. *)
Record TableState : Type := {
  ts_dealer_index : nat;
  ts_heap : Heap;
  ts_all : list (list RoundOutcome);
  ts_dealer_rounds : list RoundOutcome;
  ts_non_dealer_rounds : list RoundOutcome
}.

Definition initial_state (player_count : nat) (h : Heap) : TableState :=
  {| ts_dealer_index := 0; ts_heap := h;
     ts_all := replicate player_count [];
     ts_dealer_rounds := []; ts_non_dealer_rounds := [] |}.

(** [dealer_index = (dealer_index + 1) % player_count] unless the dealer
    continues. *)
Definition next_dealer (dealer_index player_count : nat) (round_meta : RoundMeta)
    : result nat :=
  if negb (dealer_continues round_meta) then
    if Nat.eqb player_count 0 then Raise ZeroDivisionError
    else Ok ((dealer_index + 1) mod player_count)%nat
  else Ok dealer_index.

(** One iteration of the loop over the rounds. *)
Definition table_step
    (players : list Player) (cfg : Config) (st : TableState) (d : TableDraws)
    : result TableState :=
  let dealer_index := ts_dealer_index st in
  try (round_results, round_meta, h') <-
    simulate_table_round players cfg dealer_index d (ts_heap st) in
  let all := zip_with (fun l r => l ++ [r]) (ts_all st) round_results in
  let dealer_part :=
    omap (fun '(i, r) => if Nat.eqb i dealer_index then Some r else None)
         (imap pair round_results) in
  let non_dealer_part :=
    omap (fun '(i, r) => if Nat.eqb i dealer_index then None else Some r)
         (imap pair round_results) in
  try dealer' <- next_dealer dealer_index (length players) round_meta in
  Ok {| ts_dealer_index := dealer'; ts_heap := h'; ts_all := all;
        ts_dealer_rounds := ts_dealer_rounds st ++ dealer_part;
        ts_non_dealer_rounds := ts_non_dealer_rounds st ++ non_dealer_part |}.

(** [rounds] iterations from round [k] on; [draws k] is what round [k] draws. *)
Fixpoint table_rounds
    (players : list Player) (cfg : Config) (draws : nat -> TableDraws)
    (rounds k : nat) (st : TableState) : result TableState :=
  match rounds with
  | O => Ok st
  | S rounds' =>
      try st' <- table_step players cfg st (draws k) in
      table_rounds players cfg draws rounds' (S k) st'
  end.

(** The reduction of one seat's outcomes. *)
Definition seat_stats (baseline_utility : R) (outcomes : list RoundOutcome) : Stats :=
  let profit_sum := np_sum (map profit outcomes) in
  let utility_sum := baseline_utility + np_sum (map utility outcomes) in
  let fans := positive_fans (map fan outcomes) in
  {| st_profit := profit_sum;
     st_utility := utility_sum;
     st_mean_fan :=
       match fans with
       | [] => Some 0
       | _ => np_mean (map IZR fans)
       end;
     st_win_rate := rate (map won outcomes);
     st_deal_in_rate := rate (map deal_in_as_winner outcomes);
     st_deal_in_loss_rate := rate (map deal_in_as_loser outcomes);
     st_missed_win_rate := rate (map missed_hu outcomes);
     st_fan_distribution := map fan outcomes |}.

Record TableResult : Type := {
  per_player : list (string * Stats);
  defensive : list Stats;
  aggressive : list Stats;
  dealer : list RoundOutcome;
  non_dealer : list RoundOutcome;
  final_dealer_index : nat;
  final_heap : Heap
}.

Definition label_stats (label : string) (per : list (string * Stats)) : list Stats :=
  map snd (List.filter (fun ps => String.eqb (fst ps) label) per).

Definition _run_table
    (players : list Player) (cfg : Config) (rounds_per_trial : Z)
    (baseline_utility : R) (draws : nat -> TableDraws) (h : Heap)
    : result TableResult :=
  let player_count := length players in
  try st <-
    table_rounds players cfg draws (Z.to_nat rounds_per_trial) 0
                 (initial_state player_count h) in
  let per :=
    zip_with (fun player outcomes =>
                (strategy_type player, seat_stats baseline_utility outcomes))
             players (ts_all st) in
  Ok {| per_player := per;
        defensive := label_stats "DEF" per;
        aggressive := label_stats "AGG" per;
        dealer := ts_dealer_rounds st;
        non_dealer := ts_non_dealer_rounds st;
        final_dealer_index := ts_dealer_index st;
        final_heap := ts_heap st |}.

End Table.

End Table.

(** ** The closed-form transforms on binary64

    [compute_utility] and [adjust_risk_for_composition] once more, on IEEE
    754 double precision numbers, the arithmetic Python and numpy run them
    on.  They evaluate by computation; the properties quantified over all
    profits and risks are stated on the real-number versions above. *)

Module Binary64.
Import PrimFloat.
Local Open Scope float_scope.

(** A Python [int] as a [float] (exact below 2^53). *)
Definition float_of_Z (z : Z) : float :=
  match z with
  | Z0 => 0
  | Zpos _ => PrimFloat.of_uint63 (Uint63.of_Z z)
  | Zneg q => - PrimFloat.of_uint63 (Uint63.of_Z (Zpos q))
  end.

Definition compute_utility
    (profit : float) (missed_hu deal_in_as_loser : bool)
    (missed_penalty deal_in_penalty : float) : float :=
  let utility :=
    if 0 <? profit then PrimFloat.sqrt profit
    else if profit <? 0 then - PrimFloat.sqrt (abs profit)
    else 0 in
  let utility := if missed_hu then utility - missed_penalty else utility in
  let utility := if deal_in_as_loser then utility - deal_in_penalty else utility in
  utility.

Definition adjust_risk_for_composition (base_risk : float) (num_def_players : Z)
    : float :=
  let reduction_factor := 1 - (float_of_Z num_def_players / 4) * 0.3 in
  base_risk * reduction_factor.

End Binary64.

(** ** variables.py: the base-fan sampler

    [sample_base_fan] is [np.random.choice(fan_values, p=probabilities)]:
    the weighted choice above on the six fan values, [u] its uniform draw. *)

Module Sampling.
Import Variables.
Local Open Scope R_scope.

Definition probabilities : list R := [0.40; 0.30; 0.20; 0.07; 0.02; 0.01].

Definition sample_base_fan (u : R) : result Z :=
  try k <- np_random_choice (length fan_values) (Some probabilities) u in
  lookup_or_raise fan_values k.

End Sampling.

(** ** simulation.py: many trials *)

Module Trials.
Import Scoring Variables Simulation.
Local Open Scope R_scope.

Record TrialArrays : Type := {
  mt_profits : list R;
  mt_utilities : list R;
  mt_mean_fans : list (option R);
  mt_win_rates : list (option R);
  mt_deal_in_rates : list (option R);
  mt_deal_in_loss_rates : list (option R);
  mt_missed_win_rates : list (option R);
  mt_fan_distribution : list Z;
  mt_num_trials : Z
}.

(** [num_trials if num_trials is not None else cfg.get("trials", 2000)];
    [cfg_trials] is the optional key [trials] of the configuration. *)
Definition resolve_num_trials (cfg_trials num_trials : option Z) : Z :=
  match num_trials with
  | Some n => n
  | None => match cfg_trials with Some t => t | None => 2000%Z end
  end.

(** [run_multiple_trials]: [draws t k] is what round [k] of trial [t] draws. *)
Definition run_multiple_trials
    (strategy_fn : Z -> bool) (cfg : Config) (cfg_trials num_trials : option Z)
    (draws : nat -> nat -> RoundDraws) : TrialArrays :=
  let num_trials := resolve_num_trials cfg_trials num_trials in
  let results :=
    map (fun t => run_simulation strategy_fn cfg baseline_utility_default (draws t))
        (seq 0 (Z.to_nat num_trials)) in
  {| mt_profits := map st_profit results;
     mt_utilities := map st_utility results;
     mt_mean_fans := map st_mean_fan results;
     mt_win_rates := map st_win_rate results;
     mt_deal_in_rates := map st_deal_in_rate results;
     mt_deal_in_loss_rates := map st_deal_in_loss_rate results;
     mt_missed_win_rates := map st_missed_win_rate results;
     mt_fan_distribution := concat (map st_fan_distribution results);
     mt_num_trials := num_trials |}.

End Trials.

(** ** experiments/run_experiment_2.py *)

Module Experiment2.
Import Scoring Variables Simulation.
Local Open Scope R_scope.

(** [(1 + profit) ** (1 - crra_gamma)] is a float power of a positive
    base, [Rpower]. *)
Definition compute_nonlinear_utility
    (profit : R) (missed_hu deal_in_as_loser : bool) (crra_gamma : R) : R :=
  let utility :=
    if Rgtb profit 0 then
      let utility :=
        if Reqb crra_gamma 1 then ln (1 + profit)
        else Rpower (1 + profit) (1 - crra_gamma) / (1 - crra_gamma) in
      let emotional_reward := 0.1 * sqrt profit in
      utility + emotional_reward
    else - sqrt (Rabs profit) in
  let utility := if missed_hu then utility - 0.2 else utility in
  let utility := if deal_in_as_loser then utility - 0.5 else utility in
  utility.

Definition crra_gamma_default : R := 2.

Definition simulate_round_with_custom_utility
    (player_strategy : Z -> bool) (cfg : Config)
    (utility_fn : R -> bool -> bool -> R) (d : RoundDraws) : RoundOutcome :=
  let result := simulate_round player_strategy cfg d in
  {| profit := profit result;
     utility := utility_fn (profit result) (missed_hu result)
                  (deal_in_as_loser result);
     fan := fan result;
     won := won result;
     deal_in_as_winner := deal_in_as_winner result;
     deal_in_as_loser := deal_in_as_loser result;
     missed_hu := missed_hu result |}.

Definition run_simulation_with_utility
    (strategy_fn : Z -> bool) (cfg : Config)
    (utility_fn : R -> bool -> bool -> R) (baseline_utility : R)
    (draws : nat -> RoundDraws) : Stats :=
  let results :=
    map (fun k => simulate_round_with_custom_utility strategy_fn cfg utility_fn (draws k))
        (seq 0 (Z.to_nat (rounds_per_trial cfg))) in
  let utilities := map utility results in
  let fans := map fan results in
  let total_utility := baseline_utility + np_sum utilities in
  {| st_profit := np_sum (map profit results);
     st_utility := total_utility;
     st_mean_fan :=
       match positive_fans fans with
       | [] => Some 0
       | pf => np_mean (map IZR pf)
       end;
     st_win_rate := rate (map won results);
     st_deal_in_rate := rate (map deal_in_as_winner results);
     st_deal_in_loss_rate := rate (map deal_in_as_loser results);
     st_missed_win_rate := rate (map missed_hu results);
     st_fan_distribution := fans |}.

End Experiment2.

(** ** experiments/run_experiment_3.py *)

Module Experiment3.
Import Scoring Variables Simulation.
Local Open Scope R_scope.

Definition simulate_round_with_composition
    (theta : R) (player_strategy : Z -> bool) (cfg : Config) (d : RoundDraws)
    : RoundOutcome :=
  let Q := hand_quality d in
  let base_R := deal_in_risk d in
  let R_adjusted := base_R * (1 - theta * 0.3) in
  let can_win := can_complete_hand (rand_complete d) Q in
  if negb can_win then
    {| profit := 0; utility := 0; fan := 0; won := false;
       deal_in_as_winner := false; deal_in_as_loser := false;
       missed_hu := false |}
  else
    let kong_count := sample_kong_events (kong_poisson d) 2 in
    let total_fan := compute_total_fan (base_fan d) kong_count 16 in
    let strategy_accepts := player_strategy total_fan in
    if negb strategy_accepts then
      let dealt_in := Rltb (rand_deal_in d) R_adjusted in
      let profit_ :=
        if dealt_in then
          let opponent_kong := sample_kong_events (opponent_kong_poisson d) 2 in
          let opponent_fan := compute_total_fan (opponent_base_fan d) opponent_kong 16 in
          let opponent_score := compute_score opponent_fan (base_points cfg) in
          compute_loser_cost opponent_score (penalty_deal_in cfg) true
        else 0 in
      {| profit := profit_;
         utility := compute_utility profit_ true dealt_in
                      missed_penalty_default deal_in_penalty_default;
         fan := 0; won := false;
         deal_in_as_winner := false; deal_in_as_loser := dealt_in;
         missed_hu := true |}
    else
      let score := compute_score total_fan (base_points cfg) in
      let deal_in_occurred := Rltb (rand_deal_in d) R_adjusted in
      if deal_in_occurred then
        let profit_ := compute_winner_profit score false true in
        {| profit := profit_;
           utility := compute_utility profit_ false false
                        missed_penalty_default deal_in_penalty_default;
           fan := total_fan; won := true;
           deal_in_as_winner := true; deal_in_as_loser := false;
           missed_hu := false |}
      else
        let profit_ := compute_winner_profit score true false in
        {| profit := profit_;
           utility := compute_utility profit_ false false
                        missed_penalty_default deal_in_penalty_default;
           fan := total_fan; won := true;
           deal_in_as_winner := false; deal_in_as_loser := false;
           missed_hu := false |}.

(** [run_simulation_with_composition] reports the plain sum of the round
    utilities: it takes no baseline. *)
Definition run_simulation_with_composition
    (theta : R) (strategy_fn : Z -> bool) (cfg : Config)
    (draws : nat -> RoundDraws) : Stats :=
  let results :=
    map (fun k => simulate_round_with_composition theta strategy_fn cfg (draws k))
        (seq 0 (Z.to_nat (rounds_per_trial cfg))) in
  let fans := map fan results in
  {| st_profit := np_sum (map profit results);
     st_utility := np_sum (map utility results);
     st_mean_fan :=
       match positive_fans fans with
       | [] => Some 0
       | pf => np_mean (map IZR pf)
       end;
     st_win_rate := rate (map won results);
     st_deal_in_rate := rate (map deal_in_as_winner results);
     st_deal_in_loss_rate := rate (map deal_in_as_loser results);
     st_missed_win_rate := rate (map missed_hu results);
     st_fan_distribution := fans |}.

End Experiment3.

(** ** table.py: the two entry points of a table session *)

Module TableSessions.
Import Scoring Variables Players Simulation Table.
Local Open Scope R_scope.

Section Sessions.
Context {G : PRNG}.

Definition defensive_seat (cfg : Config) : Player :=
  {| strategy := Callable (fun f => Strategies.defensive_strategy f (fan_min cfg));
     strategy_type := "DEF" |}.

Definition aggressive_seat (cfg : Config) : Player :=
  {| strategy :=
       Callable (fun f => Strategies.aggressive_strategy f (t_fan_threshold cfg));
     strategy_type := "AGG" |}.

(** The roster [simulate_table] builds: [composition] defensive seats, then
    [4 - composition] aggressive ones ([range] of a negative number is
    empty). *)
Definition table_roster (composition : Z) (cfg : Config) : list Player :=
  replicate (Z.to_nat composition) (defensive_seat cfg)
  ++ replicate (Z.to_nat (4 - composition)) (aggressive_seat cfg).

(** The result dictionary with its added key [composition]. *)
Definition simulate_table
    (composition : Z) (cfg : Config) (baseline_utility : R)
    (draws : nat -> TableDraws) (h : Heap) : result (TableResult * option Z) :=
  let players := table_roster composition cfg in
  try result <- _run_table players cfg (rounds_per_trial cfg) baseline_utility draws h in
  Ok (result, Some composition).

(** [rounds = rounds_per_trial or cfg["rounds_per_trial"]]: [None] and [0]
    both give way to the configured number. *)
Definition custom_rounds (rounds_per_trial : option Z) (cfg : Config) : Z :=
  match rounds_per_trial with
  | Some r => if (r =? 0)%Z then Simulation.rounds_per_trial cfg else r
  | None => Simulation.rounds_per_trial cfg
  end.

Definition simulate_custom_table
    (players : list Player) (cfg : Config) (rounds_per_trial : option Z)
    (baseline_utility : R) (draws : nat -> TableDraws) (h : Heap)
    : result (TableResult * option Z) :=
  let rounds := custom_rounds rounds_per_trial cfg in
  try result <- _run_table players cfg rounds baseline_utility draws h in
  Ok (result, None).

End Sessions.

End TableSessions.

(** ** utils.py *)

Module Utils.
Local Open Scope R_scope.

(** [np.unique(fan_array, return_counts=True)]: the distinct values in
    increasing order, each with the number of times it occurs. *)
Fixpoint insert_count (x : Z) (acc : list (Z * nat)) : list (Z * nat) :=
  match acc with
  | [] => [(x, 1%nat)]
  | (y, c) :: rest =>
      if (x <? y)%Z then (x, 1%nat) :: acc
      else if (x =? y)%Z then (y, S c) :: rest
      else (y, c) :: insert_count x rest
  end.

Definition np_unique_counts (a : list Z) : list (Z * nat) :=
  fold_right insert_count [] a.

Record FanDistribution : Type := {
  fd_fan_values : list Z;
  fd_counts : list nat;
  fd_frequencies : list R
}.

Definition compute_fan_distribution (fan_array : list Z) : FanDistribution :=
  let uc := np_unique_counts fan_array in
  let unique := map fst uc in
  let counts := map snd uc in
  let frequencies := map (fun c => INR c / INR (length fan_array)) counts in
  {| fd_fan_values := unique; fd_counts := counts; fd_frequencies := frequencies |}.

(** [np.maximum.accumulate]: the running maximum. *)
Fixpoint accumulate_max_from (m : R) (l : list R) : list R :=
  match l with
  | [] => []
  | x :: l' => Rmax m x :: accumulate_max_from (Rmax m x) l'
  end.

Definition np_maximum_accumulate (l : list R) : list R :=
  match l with
  | [] => []
  | x :: l' => x :: accumulate_max_from x l'
  end.

(** [np.max] of a non-empty array. *)
Definition np_max (x : R) (l : list R) : R := fold_left Rmax l x.

(** [np.std]: the population standard deviation, [nan] on an empty array. *)
Definition np_std (l : list R) : option R :=
  match np_mean l with
  | None => None
  | Some m =>
      match np_mean (map (fun x => Rabs (x - m) * Rabs (x - m)) l) with
      | None => None
      | Some v => Some (sqrt v)
      end
  end.

Record RiskMetrics : Type := {
  max_drawdown : R;
  ruin_probability : option R;
  final_bankroll_mean : option R;
  final_bankroll_std : option R
}.

Definition compute_risk_metrics (profits : list R) (initial_bankroll : R) : RiskMetrics :=
  let cumulative := np_cumsum profits in
  let running_max := np_maximum_accumulate cumulative in
  let drawdown := zip_with Rminus running_max cumulative in
  let max_drawdown_ :=
    match drawdown with
    | [] => 0
    | x :: rest => np_max x rest
    end in
  let final_bankrolls := map (fun c => initial_bankroll + c) cumulative in
  let ruin_probability_ :=
    np_mean (map (fun b => bool_to_R (Rleb b 0)) final_bankrolls) in
  {| max_drawdown := max_drawdown_;
     ruin_probability := ruin_probability_;
     final_bankroll_mean := np_mean final_bankrolls;
     final_bankroll_std := np_std final_bankrolls |}.

End Utils.

(** * Concrete inputs

    A small generator, a configuration and the draws of a few rounds, used
    to run the definitions above. *)

Module Examples.
Import Scoring Variables Players Simulation Table.
Local Open Scope R_scope.

(** A generator over the residues modulo ten. *)
Definition toy_rng : PRNG :=
  {| rng_state := Z;
     rng_seed := fun s => s;
     rng_random := fun g => (IZR (g mod 10) / 10, ((7 * g + 3) mod 10)%Z) |}.

#[local] Existing Instance toy_rng.

(** The configuration the test-suite uses. *)
Definition cfg3 : Config :=
  {| base_points := 1; fan_min := 1; t_fan_threshold := 3;
     penalty_deal_in := 3; rounds_per_trial := 1 |}.

Definition def_player : Player :=
  {| strategy := Callable (fun f => Strategies.defensive_strategy f 1);
     strategy_type := "DEF" |}.

Definition neutral_player (l : nat) : Player :=
  {| strategy := PolicyRef l; strategy_type := "NEU" |}.

Definition four_def : list Player := [def_player; def_player; def_player; def_player].

Definition seat (q r u : R) (bf k : Z) : SeatDraws :=
  {| sd_hand_quality := q; sd_deal_in_risk := r; sd_rand_complete := u;
     sd_base_fan := bf; sd_kong_poisson := k |}.

(** Seat 0 completes a one-fan hand, the other seats complete nothing. *)
Definition seat0_wins (r0 r : R) (i : nat) : SeatDraws :=
  match i with
  | O => seat 0.9 r0 0.5 1 0
  | _ => seat 0.5 r 0.95 1 0
  end.

(** What the first loop records for these draws at a table of four
    defensive players. *)
Definition seat0_data (r0 : R) : PlayerData :=
  {| pd_player_idx := 0; pd_can_win := true; pd_strategy_accepts := true;
     pd_fan := 1; pd_R := r0 * (1 - INR 4 / 4 * 0.3); pd_Q := 0.9;
     pd_player := def_player; pd_is_dealer := true |}.

Definition idle_data (nd i : nat) (q r : R) (is_dealer : bool) : PlayerData :=
  {| pd_player_idx := i; pd_can_win := false; pd_strategy_accepts := false;
     pd_fan := 0; pd_R := r * (1 - INR nd / 4 * 0.3); pd_Q := q;
     pd_player := def_player; pd_is_dealer := is_dealer |}.

Definition seat0_table (r0 r : R) : list PlayerData :=
  [seat0_data r0; idle_data 4 1 0.5 r false; idle_data 4 2 0.5 r false;
   idle_data 4 3 0.5 r false].

Definition seat0_eligible : Eligible :=
  {| ew_player_idx := 0; ew_fan := 1; ew_player := def_player;
     ew_is_dealer := true |}.

Definition seat0_meta : RoundMeta :=
  {| winner_index := Some 0%nat; winner_is_dealer := true;
     dealer_ready := true; dealer_continues := true; is_draw := false |}.

(** Seat 0 wins on a discard ([rand_deal] below its risk 0.5 * 0.7). *)
Definition deal_in_round : TableDraws :=
  {| seat_draws := seat0_wins 0.5 0.2; rand_winner := 0.5;
     rand_deal := 0.1; rand_loser := 0.5 |}.

(** Seat 0 wins by self-draw. *)
Definition self_draw_round : TableDraws :=
  {| seat_draws := seat0_wins 0.5 0.2; rand_winner := 0.5;
     rand_deal := 0.9; rand_loser := 0.5 |}.

(** Seat 0 wins on a discard while the other three seats drew risk 0. *)
Definition zero_risk_round : TableDraws :=
  {| seat_draws := seat0_wins 0.5 0; rand_winner := 0.5;
     rand_deal := 0.1; rand_loser := 0.5 |}.

(** No seat completes a hand; the dealer (seat 0) drew quality 0.7. *)
Definition no_winner_round : TableDraws :=
  {| seat_draws := fun _ => seat 0.7 0.2 0.95 1 0; rand_winner := 0.5;
     rand_deal := 0.1; rand_loser := 0.5 |}.

(** A table with a [NeutralPolicy] in seat 0, which completes a zero-fan
    hand under risk 0.9. *)
Definition neutral_table : list Player :=
  [neutral_player 0; def_player; def_player; def_player].

Definition neutral_heap : Heap := {[ 0%nat := NeutralPolicy_init (Some 42%Z) 0 ]}.

Definition zero_fan_round : TableDraws :=
  {| seat_draws := fun i =>
       match i with
       | O => seat 0.9 0.9 0.5 0 0
       | _ => seat 0.5 0.2 0.95 1 0
       end;
     rand_winner := 0.5; rand_deal := 0.9; rand_loser := 0.5 |}.

(** The lists the rounds above fill in: seat 0 collects 2 * 3 from seat 2
    on the discard, 2 from each seat on the self-draw. *)
Definition deal_in_lists : RoundLists :=
  {| round_profits := [6; 0; -6; 0];
     round_win_flags := [true; false; false; false];
     round_deal_in_win := [true; false; false; false];
     round_deal_in_loss := [false; false; true; false];
     round_fans := [1; 0; 0; 0]%Z;
     round_missed := [false; false; false; false] |}.

Definition self_draw_lists : RoundLists :=
  {| round_profits := [6; -2; -2; -2];
     round_win_flags := [true; false; false; false];
     round_deal_in_win := [false; false; false; false];
     round_deal_in_loss := [false; false; false; false];
     round_fans := [1; 0; 0; 0]%Z;
     round_missed := [false; false; false; false] |}.

Definition zero_fan_lists : RoundLists :=
  {| round_profits := [3; -1; -1; -1];
     round_win_flags := [true; false; false; false];
     round_deal_in_win := [false; false; false; false];
     round_deal_in_loss := [false; false; false; false];
     round_fans := [0; 0; 0; 0]%Z;
     round_missed := [false; false; false; false] |}.

Definition no_winner_table : list PlayerData :=
  [idle_data 4 0 0.7 0.2 true; idle_data 4 1 0.7 0.2 false;
   idle_data 4 2 0.7 0.2 false; idle_data 4 3 0.7 0.2 false].

Definition no_winner_meta : RoundMeta :=
  {| winner_index := None; winner_is_dealer := false;
     dealer_ready := true; dealer_continues := true; is_draw := true |}.

Definition zero_fan_table : list PlayerData :=
  [{| pd_player_idx := 0; pd_can_win := true; pd_strategy_accepts := true;
      pd_fan := 0; pd_R := 0.9 * (1 - INR 3 / 4 * 0.3); pd_Q := 0.9;
      pd_player := neutral_player 0; pd_is_dealer := true |};
   idle_data 3 1 0.5 0.2 false; idle_data 3 2 0.5 0.2 false;
   idle_data 3 3 0.5 0.2 false].

Definition zero_fan_eligible : Eligible :=
  {| ew_player_idx := 0; ew_fan := 0; ew_player := neutral_player 0;
     ew_is_dealer := true |}.

(** Two policies built with the same seed, and calls that alternate
    between them. *)
Definition twin_heap : Heap :=
  <[1%nat := NeutralPolicy_init (Some 7%Z) 5]>
    (<[0%nat := NeutralPolicy_init (Some 7%Z) 0]> ∅).

Definition twin_events : list (nat * Z * R) :=
  [(0%nat, 0%Z, 0.1); (1%nat, 0%Z, 0.1); (0%nat, 0%Z, 0.3); (1%nat, 0%Z, 0.3)].

(** Draws of a single-player round won on a discard, with fan 1. *)
Definition single_deal_in : RoundDraws :=
  {| hand_quality := 0.9; deal_in_risk := 0.5; rand_complete := 0.5;
     base_fan := 1; kong_poisson := 0; rand_deal_in := 0.1;
     opponent_base_fan := 0; opponent_kong_poisson := 0 |}.

End Examples.

(** * Invariants *)

Module Invariants.
Import Simulation Table.
Local Open Scope R_scope.

(** What the loop of [_run_table] keeps from round to round.  After [c]
    rounds every seat has [c] outcomes, the dealer bucket [c] and the
    non-dealer bucket [c] for each other seat, the dealer index is a seat,
    and the profits recorded so far add up to zero. *)
Definition session_invariant {G : PRNG}
    (players : list Player) (c : nat) (st : TableState) : Prop :=
  length (ts_all st) = length players
  /\ Forall (fun l => length l = c) (ts_all st)
  /\ length (ts_dealer_rounds st) = c
  /\ length (ts_non_dealer_rounds st) = ((length players - 1) * c)%nat
  /\ (ts_dealer_index st < length players \/ (length players = 0 /\ c = 0))%nat
  /\ np_sum (map (fun l => np_sum (map profit l)) (ts_all st)) = 0.

End Invariants.

(** * Further inputs *)

Module Inputs.
Import Scoring Variables Players Simulation Table.
Local Open Scope R_scope.

(** The draws [d] with another deal-in risk. *)
Definition with_risk (d : RoundDraws) (risk : R) : RoundDraws :=
  {| hand_quality := hand_quality d; deal_in_risk := risk;
     rand_complete := rand_complete d; base_fan := base_fan d;
     kong_poisson := kong_poisson d; rand_deal_in := rand_deal_in d;
     opponent_base_fan := opponent_base_fan d;
     opponent_kong_poisson := opponent_kong_poisson d |}.

(** A four-fan hand, won by self-draw. *)
Definition single_four_fan : RoundDraws :=
  {| hand_quality := 0.9; deal_in_risk := 0.5; rand_complete := 0.5;
     base_fan := 4; kong_poisson := 0; rand_deal_in := 0.8;
     opponent_base_fan := 0; opponent_kong_poisson := 0 |}.

(** A hand that is not completed. *)
Definition single_no_hand : RoundDraws :=
  {| hand_quality := 0.2; deal_in_risk := 0.5; rand_complete := 0.5;
     base_fan := 4; kong_poisson := 0; rand_deal_in := 0.8;
     opponent_base_fan := 0; opponent_kong_poisson := 0 |}.

(** Two eligible seats: seat 0 with a zero-fan hand, seat 2 with four fan. *)
Definition two_eligible : list Eligible :=
  [ {| ew_player_idx := 0; ew_fan := 0; ew_player := Examples.def_player;
       ew_is_dealer := true |};
    {| ew_player_idx := 2; ew_fan := 4; ew_player := Examples.def_player;
       ew_is_dealer := false |} ].


(** A configuration with three rounds to a trial. *)
Definition cfg_three_rounds : Config :=
  {| base_points := 1; fan_min := 1; t_fan_threshold := 3;
     penalty_deal_in := 3; rounds_per_trial := 3 |}.

End Inputs.

(** * Properties *)

(** ** Real-number tests *)

Section RealTests.
Local Open Scope R_scope.

Lemma Rltb_true x y : x < y -> Rltb x y = true.
Proof. unfold Rltb. destruct (Rlt_dec x y); [reflexivity | contradiction]. Qed.

Lemma Rltb_false x y : y <= x -> Rltb x y = false.
Proof. unfold Rltb. destruct (Rlt_dec x y); [lra | reflexivity]. Qed.

Lemma Rleb_true x y : x <= y -> Rleb x y = true.
Proof. unfold Rleb. destruct (Rle_dec x y); [reflexivity | contradiction]. Qed.

Lemma Rleb_false x y : y < x -> Rleb x y = false.
Proof. unfold Rleb. destruct (Rle_dec x y); [lra | reflexivity]. Qed.

Lemma Reqb_true x y : x = y -> Reqb x y = true.
Proof. unfold Reqb. destruct (Req_dec_T x y); [reflexivity | contradiction]. Qed.

Lemma Reqb_false x y : x <> y -> Reqb x y = false.
Proof. unfold Reqb. destruct (Req_dec_T x y); [contradiction | reflexivity]. Qed.

Lemma Rltb_spec x y : Rltb x y = true <-> x < y.
Proof. unfold Rltb. destruct (Rlt_dec x y); split; (discriminate || tauto). Qed.

Lemma Rleb_spec x y : Rleb x y = true <-> x <= y.
Proof. unfold Rleb. destruct (Rle_dec x y); split; (discriminate || tauto). Qed.

Lemma Reqb_spec x y : Reqb x y = true <-> x = y.
Proof. unfold Reqb. destruct (Req_dec_T x y); split; (discriminate || tauto). Qed.

Lemma py_int_eval (x : R) (z : Z) :
  (0 <= z)%Z -> IZR z <= x < IZR z + 1 -> py_int x = z.
Proof.
  intros Hz [H1 H2]. unfold py_int.
  assert (0 <= IZR z) by (apply IZR_le; lia).
  destruct (Rle_dec 0 x); [| lra].
  symmetry. apply Int_part_spec. lra.
Qed.

Lemma py_int_nonneg (x : R) : 0 <= x -> (0 <= py_int x)%Z.
Proof.
  intros Hx. unfold py_int. destruct (Rle_dec 0 x); [| lra].
  destruct (base_Int_part x) as [H1 H2].
  apply le_IZR. 
  assert (-1 < IZR (Int_part x)) by lra.
  apply lt_IZR in H. apply IZR_le. lia.
Qed.

End RealTests.

Arguments Rltb : simpl never.
Arguments Rleb : simpl never.
Arguments Reqb : simpl never.
Arguments py_int : simpl never.
Arguments INR : simpl never.
Arguments IZR : simpl never.
Arguments powerRZ : simpl never.
Arguments sqrt : simpl never.

(** Decides the tests on concrete real numbers left in the goal. *)
Ltac rtests :=
  unfold Rgeb, Rgtb;
  repeat first
    [ rewrite Rltb_true by lra | rewrite Rltb_false by lra
    | rewrite Rleb_true by lra | rewrite Rleb_false by lra
    | rewrite Reqb_true by lra | rewrite Reqb_false by lra ].

(** ** Scoring *)

Section ScoringFacts.
Import Scoring.
Local Open Scope R_scope.

Lemma powerRZ_2_pos (fan : Z) : 0 < powerRZ 2 fan.
Proof. apply powerRZ_lt. lra. Qed.

Lemma compute_score_pos (fan base_points : Z) :
  (1 <= base_points)%Z -> 0 < compute_score fan base_points.
Proof.
  intros Hb. unfold compute_score.
  apply Rmult_lt_0_compat; [| apply powerRZ_2_pos].
  apply IZR_lt. lia.
Qed.

(** On a non-negative fan the score is the integer [base_points * 2 ^ fan]. *)
Lemma compute_score_int (fan base_points : Z) :
  (0 <= fan)%Z -> compute_score fan base_points = IZR (base_points * 2 ^ fan).
Proof.
  intros Hf. unfold compute_score.
  rewrite mult_IZR. f_equal.
  rewrite <- (Z2Nat.id fan Hf).
  rewrite <- pow_powerRZ, <- pow_IZR. reflexivity.
Qed.

Example compute_score_1_1 : compute_score 1 1 = 2.
Proof. rewrite compute_score_int by lia. reflexivity. Qed.

(** C10.  For [score >= 0] and [penalty_multiplier >= 0] the winner's
    profit is never negative, and not zero when the score is positive (as
    it is for every fan once [base_points >= 1]); it is [score * 3] on a
    self-draw, [score] on a deal-in, [score * 3] again when both flags are
    false; the loser's cost is never positive. *)
Theorem winner_profit_nonneg_loser_cost_nonpos :
  forall (score penalty_multiplier : R) (s d l : bool),
    0 <= score -> 0 <= penalty_multiplier ->
    0 <= compute_winner_profit score s d
    /\ (0 < score -> compute_winner_profit score s d <> 0)
    /\ compute_winner_profit score true d = score * 3
    /\ compute_winner_profit score false true = score
    /\ compute_winner_profit score false false = score * 3
    /\ compute_loser_cost score penalty_multiplier l <= 0
    /\ (forall fan base_points : Z,
          (1 <= base_points)%Z -> 0 < compute_score fan base_points).
Proof.
  intros score pm s d l Hs Hp.
  unfold compute_winner_profit, compute_loser_cost.
  repeat split.
  - destruct s, d; lra.
  - intros Hpos. destruct s, d; lra.
  - destruct l; [| lra].
    assert (0 <= score * pm) by (apply Rmult_le_pos; assumption). lra.
  - intros fan b Hb. apply compute_score_pos. exact Hb.
Qed.

Lemma winner_profit_nonneg_loser_cost_nonpos_witness :
  0 <= Scoring.compute_winner_profit 2 false true
  /\ Scoring.compute_loser_cost 2 3 true <= 0.
Proof.
  assert (H2 : 0 <= 2) by lra.
  assert (H3 : 0 <= 3) by lra.
  pose proof (winner_profit_nonneg_loser_cost_nonpos 2 3 false true true H2 H3)
    as (Hw & _ & _ & _ & _ & Hl & _).
  split; [exact Hw | exact Hl].
Defined.

End ScoringFacts.

(** ** Utility *)

Section UtilityFacts.
Import Simulation.
Local Open Scope R_scope.

(** [compute_utility] with the default penalties 0.2 and 0.5. *)
Abbreviation utility_of p m d :=
  (compute_utility p m d missed_penalty_default deal_in_penalty_default).

Lemma compute_utility_pos (p : R) (m d : bool) :
  0 < p -> utility_of p m d = sqrt p - 0.2 * bool_to_R m - 0.5 * bool_to_R d.
Proof.
  intros Hp. unfold compute_utility, missed_penalty_default, deal_in_penalty_default.
  rtests. destruct m, d; cbn; lra.
Qed.

Lemma compute_utility_neg (p : R) (m d : bool) :
  p < 0 -> utility_of p m d = - sqrt (- p) - 0.2 * bool_to_R m - 0.5 * bool_to_R d.
Proof.
  intros Hp. unfold compute_utility, missed_penalty_default, deal_in_penalty_default.
  rtests. rewrite (Rabs_left p Hp). destruct m, d; cbn; lra.
Qed.

Lemma compute_utility_zero (m d : bool) :
  utility_of 0 m d = 0 - 0.2 * bool_to_R m - 0.5 * bool_to_R d.
Proof.
  unfold compute_utility, missed_penalty_default, deal_in_penalty_default.
  rtests. destruct m, d; cbn; lra.
Qed.

Lemma sqrt_100 : sqrt 100 = 10.
Proof. replace 100 with (10 * 10) by lra. apply sqrt_square. lra. Qed.

(** C7.  [compute_utility(p, m, d)] is [u(p) - 0.2*[m] - 0.5*[d]] with
    [u(p) = sqrt(p)] for [p > 0], [-sqrt(-p)] for [p < 0] and [0] for
    [p = 0]; at profit 100 it is 10, 9.8 with a missed hand and 9.5 with a
    deal-in loss; for fixed flags it is strictly increasing in the profit
    on [p > 0] and on [p < 0]. *)
Theorem compute_utility_formula :
  (forall p m d, 0 < p ->
     utility_of p m d = sqrt p - 0.2 * bool_to_R m - 0.5 * bool_to_R d)
  /\ (forall p m d, p < 0 ->
     utility_of p m d = - sqrt (- p) - 0.2 * bool_to_R m - 0.5 * bool_to_R d)
  /\ (forall m d,
     utility_of 0 m d = 0 - 0.2 * bool_to_R m - 0.5 * bool_to_R d)
  /\ utility_of 100 false false = 10
  /\ utility_of 100 true false = 9.8
  /\ utility_of 100 false true = 9.5
  /\ (forall p q m d, 0 < p -> p < q -> utility_of p m d < utility_of q m d)
  /\ (forall p q m d, p < q -> q < 0 -> utility_of p m d < utility_of q m d).
Proof.
  split; [exact compute_utility_pos |].
  split; [exact compute_utility_neg |].
  split; [exact compute_utility_zero |].
  split; [rewrite compute_utility_pos by lra; rewrite sqrt_100; cbn; lra |].
  split; [rewrite compute_utility_pos by lra; rewrite sqrt_100; cbn; lra |].
  split; [rewrite compute_utility_pos by lra; rewrite sqrt_100; cbn; lra |].
  split.
  - intros p q m d Hp Hpq.
    rewrite !compute_utility_pos by lra.
    assert (sqrt p < sqrt q) by (apply sqrt_lt_1_alt; lra).
    lra.
  - intros p q m d Hpq Hq.
    rewrite !compute_utility_neg by lra.
    assert (sqrt (- q) < sqrt (- p)) by (apply sqrt_lt_1_alt; lra).
    lra.
Qed.

Lemma compute_utility_formula_witness :
  utility_of 4 true false = sqrt 4 - 0.2 * 1 - 0.5 * 0
  /\ utility_of 1 false false < utility_of 4 false false
  /\ utility_of (-4) false true < utility_of (-1) false true.
Proof.
  destruct compute_utility_formula as (Hpos & _ & _ & _ & _ & _ & Hinc & Hdec).
  split; [| split].
  - apply (Hpos 4 true false). lra.
  - apply (Hinc 1 4 false false); lra.
  - apply (Hdec (-4) (-1) false true); lra.
Defined.

End UtilityFacts.

(** On binary64 the values the tests quote come out exactly. *)

Section Binary64Values.
Import PrimFloat.
Local Open Scope float_scope.

Example binary64_utility_values :
  Binary64.compute_utility 100 false false 0.2 0.5 = 10
  /\ Binary64.compute_utility 100 true false 0.2 0.5 = 9.8
  /\ Binary64.compute_utility 100 false true 0.2 0.5 = 9.5
  /\ Binary64.compute_utility 0 false false 0.2 0.5 = 0.
Proof. repeat split; vm_compute; reflexivity. Qed.

Example binary64_risk_values :
  Binary64.adjust_risk_for_composition 0.5 0 = 0.5
  /\ Binary64.adjust_risk_for_composition 0.5 4 = 0.35.
Proof. repeat split; vm_compute; reflexivity. Qed.

End Binary64Values.

(** ** Lists of numbers *)

Section ListFacts.
Local Open Scope R_scope.

Lemma lookup_map {A B : Type} (f : A -> B) (l : list A) (i : nat) :
  map f l !! i = f <$> (l !! i).
Proof. revert i. induction l as [| a l IH]; intros [| i]; cbn; auto. Qed.

Lemma map_nth_seq {A : Type} (l : list A) (d : A) :
  map (fun i => nth i l d) (seq 0 (length l)) = l.
Proof.
  induction l as [| a l IH]; [reflexivity |].
  cbn [length seq map nth]. f_equal.
  rewrite <- seq_shift, map_map. exact IH.
Qed.

Lemma np_sum_cons (a : R) (l : list R) : np_sum (a :: l) = a + np_sum l.
Proof. reflexivity. Qed.

Lemma np_sum_replicate_0 (n : nat) : np_sum (replicate n 0) = 0.
Proof.
  induction n as [| n IH]; [reflexivity |].
  change (replicate (S n) 0) with (0 :: replicate n 0).
  rewrite np_sum_cons, IH. lra.
Qed.

Lemma np_sum_insert (l : list R) (i : nat) (x v : R) :
  l !! i = Some x -> np_sum (<[i := v]> l) = np_sum l - x + v.
Proof.
  revert i. induction l as [| a l IH]; intros [| i] H; cbn in H; try discriminate.
  - injection H as ->.
    change (<[0%nat := v]> (x :: l)) with (v :: l).
    rewrite !np_sum_cons. lra.
  - change (<[S i := v]> (a :: l)) with (a :: <[i := v]> l).
    rewrite !np_sum_cons, (IH i H). lra.
Qed.

Lemma np_sum_map_scale (l : list R) (c : R) :
  np_sum (map (fun x => x / c) l) = np_sum l / c.
Proof.
  induction l as [| a l IH]; [cbn; lra |].
  cbn [map]. rewrite !np_sum_cons, IH. lra.
Qed.

Lemma np_sum_nonneg (l : list R) : Forall (fun x => 0 <= x) l -> 0 <= np_sum l.
Proof.
  induction 1 as [| a l Ha _ IH]; [cbn; lra |]. rewrite np_sum_cons. lra.
Qed.

(** The sum of the profits of a self-drawn win: seat [w] receives [k], every
    other seat among [s, s + n) pays [c]. *)
Lemma np_sum_imap_winner (n s w : nat) (k c : R) :
  np_sum (imap (fun i x => if Nat.eqb (s + i) w then x - k else x + c)
               (replicate n 0))
  = if Nat.leb s w && Nat.ltb w (s + n)
    then INR (n - 1) * c - k
    else INR n * c.
Proof.
  revert s. induction n as [| n IH]; intros s.
  - cbn [replicate imap]. rewrite Nat.add_0_r.
    change (np_sum []) with 0. change (INR 0) with 0.
    destruct (Nat.leb_spec s w), (Nat.ltb_spec w s); cbn [andb]; try lra; lia.
  - change (replicate (S n) 0) with (0 :: replicate n 0).
    rewrite imap_cons, np_sum_cons.
    rewrite (imap_ext _ (fun i x => if Nat.eqb (S s + i) w then x - k else x + c)).
    2:{ intros i x _. cbn. replace (s + S i)%nat with (S (s + i)) by lia. reflexivity. }
    rewrite (IH (S s)). rewrite Nat.add_0_r.
    replace (S n - 1)%nat with n by lia.
    destruct (Nat.eqb_spec s w) as [-> | Hne].
    + destruct (Nat.leb_spec (S w) w); [lia |].
      destruct (Nat.leb_spec w w); [| lia].
      destruct (Nat.ltb_spec w (w + S n)); [| lia]. cbn [andb]. lra.
    + destruct (Nat.leb_spec (S s) w), (Nat.leb_spec s w); try lia;
      destruct (Nat.ltb_spec w (S s + n)), (Nat.ltb_spec w (s + S n)); try lia;
      cbn [andb]; try (rewrite S_INR; lra).
      destruct n as [| n]; [lia |].
      replace (S n - 1)%nat with n by lia. rewrite S_INR. lra.
Qed.

End ListFacts.

(** ** Results and exceptions *)

Section ResultFacts.

Lemma bind_Ok {A B : Type} (m : result A) (k : A -> result B) (b : B) :
  bind m k = Ok b -> exists a, m = Ok a /\ k a = Ok b.
Proof. destruct m as [a | e]; cbn; [eauto | discriminate]. Qed.

Lemma lookup_or_raise_Ok {A : Type} (l : list A) (i : nat) (a : A) :
  lookup_or_raise l i = Ok a <-> l !! i = Some a.
Proof.
  unfold lookup_or_raise. destruct (l !! i); split; intros H;
    try discriminate; injection H as ->; reflexivity.
Qed.

Lemma update_or_raise_Ok {A : Type} (l : list A) (i : nat) (f : A -> A) (l' : list A) :
  update_or_raise l i f = Ok l' -> exists a, l !! i = Some a /\ l' = <[i := f a]> l.
Proof.
  unfold update_or_raise. destruct (l !! i) as [a |]; [| discriminate].
  intros H. injection H as <-. eauto.
Qed.

Lemma update_replicate {A : Type} (n i : nat) (x : A) (f : A -> A) (l' : list A) :
  update_or_raise (replicate n x) i f = Ok l' ->
  (i < n)%nat /\ l' = <[i := f x]> (replicate n x).
Proof.
  intros H. apply update_or_raise_Ok in H as (a & Ha & ->).
  apply lookup_replicate in Ha as [-> Hi]. auto.
Qed.

Lemma nth_insert_replicate {A : Type} (n i j : nat) (x v d : A) :
  (i < n)%nat -> (j < n)%nat ->
  nth i (<[j := v]> (replicate n x)) d = if Nat.eqb i j then v else x.
Proof.
  intros Hi Hj. rewrite nth_lookup.
  destruct (Nat.eqb_spec i j) as [-> | Hne].
  - rewrite list_lookup_insert_eq by (rewrite length_replicate; exact Hj). reflexivity.
  - rewrite list_lookup_insert_ne by auto.
    rewrite lookup_replicate_2 by exact Hi. reflexivity.
Qed.

Lemma nth_imap_replicate {A B : Type} (f : nat -> A -> B) (n i : nat) (x : A) (d : B) :
  (i < n)%nat -> nth i (imap f (replicate n x)) d = f i x.
Proof.
  intros Hi. rewrite nth_lookup, list_lookup_imap.
  rewrite lookup_replicate_2 by exact Hi. reflexivity.
Qed.

Lemma nth_replicate_lt {A : Type} (n i : nat) (x d : A) :
  (i < n)%nat -> nth i (replicate n x) d = x.
Proof.
  intros Hi. rewrite nth_lookup, lookup_replicate_2 by exact Hi. reflexivity.
Qed.

Lemma In_other_seats (n w i : nat) :
  In i (Table.other_seats n w) <-> (i < n)%nat /\ i <> w.
Proof.
  unfold Table.other_seats. rewrite filter_In, in_seq.
  destruct (Nat.eqb_spec i w); cbn; split; intros H; try lia.
  all: try (destruct H as [_ H]; discriminate).
  all: try (split; [lia | reflexivity]).
Qed.

End ResultFacts.

(** ** The table round *)

Section TableFacts.
Context {G : PRNG}.
Import Scoring Variables Players Simulation Table.
Local Open Scope R_scope.

(** What the first loop records for each seat, and where each eligible
    winner comes from. *)
Lemma collect_seats_spec (players : list Player) :
  forall i nd dealer d h pds ews h',
    collect_seats players i nd dealer d h = Ok (pds, ews, h') ->
    length pds = length players
    /\ (forall k pd, pds !! k = Some pd ->
          pd_player_idx pd = (i + k)%nat
          /\ pd_Q pd = sd_hand_quality (d (i + k)%nat)
          /\ pd_R pd = sd_deal_in_risk (d (i + k)%nat) * (1 - INR nd / 4 * 0.3)
          /\ (pd_strategy_accepts pd = true -> pd_can_win pd = true))
    /\ (forall ew, In ew ews ->
          exists k pd p h1 h2,
            pds !! k = Some pd /\ players !! k = Some p
            /\ ew_player_idx ew = (i + k)%nat
            /\ ew_fan ew = pd_fan pd
            /\ call_strategy (strategy p) (ew_fan ew) (pd_R pd) h1 = Ok (true, h2)).
Proof.
  induction players as [| player rest IH]; intros i nd dealer d h pds ews h' H.
  - cbn in H. injection H as <- <- <-.
    split; [reflexivity |]. split; [intros k pd Hk; discriminate | intros ew []].
  - cbn [collect_seats] in H.
    destruct (negb (can_complete_hand (sd_rand_complete (d i)) (sd_hand_quality (d i)))).
    + apply bind_Ok in H as ([[pds0 ews0] h0] & Hrec & Hret).
      injection Hret as <- <- <-.
      destruct (IH _ _ _ _ _ _ _ _ Hrec) as (Hlen & Hpd & Hew).
      split; [cbn; rewrite Hlen; reflexivity |]. split.
      * intros [| k] pd Hk.
        -- injection Hk as <-. cbn. rewrite Nat.add_0_r.
           repeat split; auto; discriminate.
        -- replace (i + S k)%nat with (S i + k)%nat by lia. apply Hpd. exact Hk.
      * intros ew Hin. destruct (Hew ew Hin) as (k & pd & p & h1 & h2 & H1 & H2 & H3 & H4).
        exists (S k), pd, p, h1, h2.
        replace (i + S k)%nat with (S i + k)%nat by lia. auto.
    + apply bind_Ok in H as ([acc h1] & Hcall & H).
      apply bind_Ok in H as ([[pds0 ews0] h0] & Hrec & Hret).
      injection Hret as <- <- <-.
      destruct (IH _ _ _ _ _ _ _ _ Hrec) as (Hlen & Hpd & Hew).
      split; [cbn; rewrite Hlen; reflexivity |]. split.
      * intros [| k] pd Hk.
        -- injection Hk as <-. cbn. rewrite Nat.add_0_r. repeat split; auto.
        -- replace (i + S k)%nat with (S i + k)%nat by lia. apply Hpd. exact Hk.
      * intros ew Hin.
        assert (Hold : forall pd0, In ew ews0 ->
                  exists k pd p h1 h2,
                    (pd0 :: pds0) !! k = Some pd /\ (player :: rest) !! k = Some p
                    /\ ew_player_idx ew = (i + k)%nat
                    /\ ew_fan ew = pd_fan pd
                    /\ call_strategy (strategy p) (ew_fan ew) (pd_R pd) h1 = Ok (true, h2)).
        { intros pd0 Hin0.
          destruct (Hew ew Hin0) as (k & pd & p & g1 & g2 & H1 & H2 & H3 & H4).
          exists (S k), pd, p, g1, g2.
          replace (i + S k)%nat with (S i + k)%nat by lia. auto. }
        destruct acc; [| exact (Hold _ Hin)].
        destruct Hin as [<- | Hin0]; [| exact (Hold _ Hin0)].
        eexists 0%nat, _, player, h, h1. cbn. rewrite Nat.add_0_r.
        repeat split; try reflexivity. exact Hcall.
Qed.

(** [select_winner] returns one of the eligible seats. *)
Lemma select_winner_In (ews : list Eligible) (u : R) (winner : Eligible) :
  select_winner ews u = Ok winner -> In winner ews.
Proof.
  unfold select_winner. intros H.
  assert (Hgen :
    (try winner_idx <-
       np_random_choice (length ews)
         (if Rleb (np_sum (map IZR (map ew_fan ews))) 0
          then np_divide (replicate (length ews) 1) (INR (length ews))
          else np_divide (map IZR (map ew_fan ews))
                 (np_sum (map IZR (map ew_fan ews)))) u
     in lookup_or_raise ews winner_idx) = Ok winner -> In winner ews).
  { intros H'. apply bind_Ok in H' as (k & _ & Hk).
    apply lookup_or_raise_Ok in Hk.
    apply list_elem_of_In. eapply list_elem_of_lookup_2. exact Hk. }
  destruct ews as [| e [| e' rest]]; [exact (Hgen H) | | exact (Hgen H)].
  injection H as <-. left. reflexivity.
Qed.

(** The lists a won round fills in. *)
Lemma settle_spec (n : nat) (pds : list PlayerData) (cfg : Config)
    (w : nat) (winner_fan : Z) (score : R) (deal : bool) (u : R) (ls : RoundLists) :
  (w < n)%nat ->
  settle n pds cfg w winner_fan score deal u = Ok ls ->
  round_win_flags ls = <[w := true]> (replicate n false)
  /\ round_fans ls = <[w := winner_fan]> (replicate n 0%Z)
  /\ round_missed ls = map missed_of pds
  /\ (if deal then
        exists l, (l < n)%nat /\ l <> w
          /\ round_profits ls =
               <[w := 0 - compute_loser_cost score (penalty_deal_in cfg) true]>
                 (<[l := 0 + compute_loser_cost score (penalty_deal_in cfg) true]>
                    (replicate n 0))
          /\ round_deal_in_win ls = <[w := true]> (replicate n false)
          /\ round_deal_in_loss ls = <[l := true]> (replicate n false)
      else
        round_profits ls =
          imap (fun i x =>
                  if Nat.eqb i w
                  then x - compute_loser_cost score (penalty_deal_in cfg) false
                           * (INR n - 1)
                  else x + compute_loser_cost score (penalty_deal_in cfg) false)
               (replicate n 0)
        /\ round_deal_in_win ls = replicate n false
        /\ round_deal_in_loss ls = replicate n false).
Proof.
  intros Hw H. unfold settle in H. destruct deal.
  - apply bind_Ok in H as (Rs & _ & H).
    apply bind_Ok in H as (k & _ & H).
    apply bind_Ok in H as (l & Hl & H).
    apply lookup_or_raise_Ok in Hl.
    assert (Hin : In l (other_seats n w)).
    { apply list_elem_of_In. eapply list_elem_of_lookup_2. exact Hl. }
    apply In_other_seats in Hin as [Hln Hlw].
    apply bind_Ok in H as (p1 & Hp1 & H).
    apply update_replicate in Hp1 as [_ ->].
    apply bind_Ok in H as (p2 & Hp2 & H).
    apply update_or_raise_Ok in Hp2 as (a & Ha & ->).
    rewrite list_lookup_insert_ne in Ha by exact Hlw.
    apply lookup_replicate in Ha as [-> _].
    apply bind_Ok in H as (ws & Hws & H). apply update_replicate in Hws as [_ ->].
    apply bind_Ok in H as (dw & Hdw & H). apply update_replicate in Hdw as [_ ->].
    apply bind_Ok in H as (dl & Hdl & H). apply update_replicate in Hdl as [_ ->].
    apply bind_Ok in H as (fs & Hfs & H). apply update_replicate in Hfs as [_ ->].
    injection H as <-. cbn.
    repeat split; try reflexivity.
    exists l. repeat split; auto.
  - injection H as <-. cbn.
    repeat split; try reflexivity.
    + apply list_eq. intros i. rewrite list_lookup_imap.
      destruct (Nat.eq_dec i w) as [-> | Hne].
      * rewrite list_lookup_insert_eq by (rewrite length_replicate; exact Hw).
        rewrite lookup_replicate_2 by exact Hw. cbn. rewrite Nat.eqb_refl. reflexivity.
      * rewrite list_lookup_insert_ne by auto.
        destruct (replicate n false !! i) as [b |] eqn:Hb; [| reflexivity].
        cbn. apply lookup_replicate in Hb as [-> _].
        destruct (Nat.eqb_spec i w); [contradiction | reflexivity].
    + apply list_eq. intros i. rewrite list_lookup_imap.
      destruct (Nat.eq_dec i w) as [-> | Hne].
      * rewrite list_lookup_insert_eq by (rewrite length_replicate; exact Hw).
        rewrite lookup_replicate_2 by exact Hw. cbn. rewrite Nat.eqb_refl. reflexivity.
      * rewrite list_lookup_insert_ne by auto.
        destruct (replicate n 0%Z !! i) as [b |] eqn:Hb; [| reflexivity].
        cbn. apply lookup_replicate in Hb as [-> _].
        destruct (Nat.eqb_spec i w); [contradiction | reflexivity].
Qed.

(** The two ways a table round returns. *)
Lemma simulate_table_round_cases
    (players : list Player) (cfg : Config) (dealer_index : nat)
    (d : TableDraws) (h : Heap)
    (results : list RoundOutcome) (meta : RoundMeta) (h' : Heap) :
  simulate_table_round players cfg dealer_index d h = Ok (results, meta, h') ->
  exists pds ews,
    collect_seats players 0 (count_def players) dealer_index (seat_draws d) h
      = Ok (pds, ews, h')
    /\ ((ews = []
         /\ results = map draw_outcome pds
         /\ winner_index meta = None
         /\ dealer_continues meta =
              match pds !! dealer_index with
              | Some data => Rgeb (pd_Q data) DEALER_READY_THRESHOLD
              | None => false
              end
         /\ dealer_ready meta = dealer_continues meta)
        \/ (exists winner winner_data ls,
              In winner ews
              /\ pds !! ew_player_idx winner = Some winner_data
              /\ settle (length players) pds cfg (ew_player_idx winner)
                   (ew_fan winner)
                   (compute_score (ew_fan winner) (base_points cfg))
                   (Rltb (rand_deal d) (pd_R winner_data)) (rand_loser d) = Ok ls
              /\ results = map (outcome_at ls) (seq 0 (length players))
              /\ winner_index meta = Some (ew_player_idx winner)
              /\ dealer_continues meta = Nat.eqb (ew_player_idx winner) dealer_index)).
Proof.
  unfold simulate_table_round. intros H.
  apply bind_Ok in H as ([[pds ews] h0] & Hcollect & H).
  exists pds, ews.
  destruct ews as [| e ews'].
  - injection H as <- <- <-. split; [exact Hcollect |]. left.
    repeat split; reflexivity.
  - apply bind_Ok in H as (winner & Hsel & H).
    apply bind_Ok in H as (wd & Hwd & H).
    apply bind_Ok in H as (ls & Hls & H).
    apply bind_Ok in H as (dd & Hdd & H).
    injection H as <- <- <-. split; [exact Hcollect |]. right.
    exists winner, wd, ls.
    apply select_winner_In in Hsel. apply lookup_or_raise_Ok in Hwd.
    repeat split; auto.
Qed.

(** *** Running a round forward *)

Lemma collect_seats_no_hand (player : Player) (rest : list Player)
    (i nd dealer : nat) (d : nat -> SeatDraws) (h : Heap)
    (pds : list PlayerData) (ews : list Eligible) (h' : Heap) :
  can_complete_hand (sd_rand_complete (d i)) (sd_hand_quality (d i)) = false ->
  collect_seats rest (S i) nd dealer d h = Ok (pds, ews, h') ->
  collect_seats (player :: rest) i nd dealer d h
  = Ok ({| pd_player_idx := i; pd_can_win := false;
           pd_strategy_accepts := false; pd_fan := 0;
           pd_R := sd_deal_in_risk (d i) * (1 - INR nd / 4 * 0.3);
           pd_Q := sd_hand_quality (d i); pd_player := player;
           pd_is_dealer := Nat.eqb i dealer |} :: pds, ews, h').
Proof. intros Hc Hrest. cbn [collect_seats]. rewrite Hc, Hrest. reflexivity. Qed.

Lemma collect_seats_hand (player : Player) (rest : list Player)
    (i nd dealer : nat) (d : nat -> SeatDraws) (h : Heap)
    (total_fan : Z) (accepts : bool) (h1 : Heap)
    (pds : list PlayerData) (ews : list Eligible) (h' : Heap) :
  can_complete_hand (sd_rand_complete (d i)) (sd_hand_quality (d i)) = true ->
  compute_total_fan
    (adjust_fan_growth_for_composition (sd_base_fan (d i)) (Z.of_nat nd))
    (sample_kong_events (sd_kong_poisson (d i)) 2) 16 = total_fan ->
  call_strategy (strategy player) total_fan
    (sd_deal_in_risk (d i) * (1 - INR nd / 4 * 0.3)) h = Ok (accepts, h1) ->
  collect_seats rest (S i) nd dealer d h1 = Ok (pds, ews, h') ->
  collect_seats (player :: rest) i nd dealer d h
  = Ok ({| pd_player_idx := i; pd_can_win := true;
           pd_strategy_accepts := accepts; pd_fan := total_fan;
           pd_R := sd_deal_in_risk (d i) * (1 - INR nd / 4 * 0.3);
           pd_Q := sd_hand_quality (d i); pd_player := player;
           pd_is_dealer := Nat.eqb i dealer |} :: pds,
        if accepts
        then {| ew_player_idx := i; ew_fan := total_fan; ew_player := player;
                ew_is_dealer := Nat.eqb i dealer |} :: ews
        else ews,
        h').
Proof.
  intros Hc Hfan Hcall Hrest. cbn [collect_seats].
  rewrite Hc, Hfan. cbn [negb]. rewrite Hcall. cbn [bind]. rewrite Hrest.
  reflexivity.
Qed.

Lemma round_without_winner (players : list Player) (cfg : Config) (dealer : nat)
    (d : TableDraws) (h : Heap) (pds : list PlayerData) (h' : Heap) :
  collect_seats players 0 (count_def players) dealer (seat_draws d) h
    = Ok (pds, [], h') ->
  simulate_table_round players cfg dealer d h
  = Ok (map draw_outcome pds,
        {| winner_index := None; winner_is_dealer := false;
           dealer_ready :=
             match pds !! dealer with
             | Some data => Rgeb (pd_Q data) DEALER_READY_THRESHOLD
             | None => false
             end;
           dealer_continues :=
             match pds !! dealer with
             | Some data => Rgeb (pd_Q data) DEALER_READY_THRESHOLD
             | None => false
             end;
           is_draw := true |},
        h').
Proof. intros Hc. unfold simulate_table_round. rewrite Hc. reflexivity. Qed.

Lemma round_with_winner (players : list Player) (cfg : Config) (dealer : nat)
    (d : TableDraws) (h : Heap)
    (pds : list PlayerData) (e : Eligible) (ews : list Eligible) (h' : Heap)
    (winner : Eligible) (winner_data dealer_data : PlayerData) (ls : RoundLists) :
  collect_seats players 0 (count_def players) dealer (seat_draws d) h
    = Ok (pds, e :: ews, h') ->
  select_winner (e :: ews) (rand_winner d) = Ok winner ->
  pds !! ew_player_idx winner = Some winner_data ->
  settle (length players) pds cfg (ew_player_idx winner) (ew_fan winner)
    (compute_score (ew_fan winner) (base_points cfg))
    (Rltb (rand_deal d) (pd_R winner_data)) (rand_loser d) = Ok ls ->
  pds !! dealer = Some dealer_data ->
  simulate_table_round players cfg dealer d h
  = Ok (map (outcome_at ls) (seq 0 (length players)),
        {| winner_index := Some (ew_player_idx winner);
           winner_is_dealer := Nat.eqb (ew_player_idx winner) dealer;
           dealer_ready := Rgeb (pd_Q dealer_data) DEALER_READY_THRESHOLD;
           dealer_continues := Nat.eqb (ew_player_idx winner) dealer;
           is_draw := false |},
        h').
Proof.
  intros Hc Hsel Hwd Hls Hdd. unfold simulate_table_round.
  rewrite Hc. cbn [bind]. rewrite Hsel. cbn [bind].
  unfold lookup_or_raise at 1. rewrite Hwd. cbn [bind].
  rewrite Hls. cbn [bind].
  unfold lookup_or_raise. rewrite Hdd. reflexivity.
Qed.

Lemma round_raises_in_settle (players : list Player) (cfg : Config) (dealer : nat)
    (d : TableDraws) (h : Heap)
    (pds : list PlayerData) (e : Eligible) (ews : list Eligible) (h' : Heap)
    (winner : Eligible) (winner_data : PlayerData) (err : exn) :
  collect_seats players 0 (count_def players) dealer (seat_draws d) h
    = Ok (pds, e :: ews, h') ->
  select_winner (e :: ews) (rand_winner d) = Ok winner ->
  pds !! ew_player_idx winner = Some winner_data ->
  settle (length players) pds cfg (ew_player_idx winner) (ew_fan winner)
    (compute_score (ew_fan winner) (base_points cfg))
    (Rltb (rand_deal d) (pd_R winner_data)) (rand_loser d) = Raise err ->
  simulate_table_round players cfg dealer d h = Raise err.
Proof.
  intros Hc Hsel Hwd Hls. unfold simulate_table_round.
  rewrite Hc. cbn [bind]. rewrite Hsel. cbn [bind].
  unfold lookup_or_raise at 1. rewrite Hwd. cbn [bind].
  rewrite Hls. reflexivity.
Qed.

End TableFacts.

Arguments Scoring.compute_score : simpl never.
Arguments Simulation.compute_utility : simpl never.
Arguments Scoring.compute_loser_cost : simpl never.
Arguments Table.outcome_at : simpl never.

(** ** The example rounds, run *)

Section Runs.
Import Scoring Variables Players Simulation Table Examples.
Local Open Scope R_scope.
#[local] Existing Instance toy_rng.

Lemma adjust_fan_all_def (bf : Z) :
  (0 <= bf)%Z -> adjust_fan_growth_for_composition bf 4 = Z.min bf 16.
Proof.
  intros Hb. unfold adjust_fan_growth_for_composition.
  rewrite (py_int_eval _ bf Hb); [reflexivity |].
  replace (4 - 4)%Z with 0%Z by lia. lra.
Qed.

Lemma adjust_fan_zero (n : Z) : adjust_fan_growth_for_composition 0 n = 0%Z.
Proof.
  unfold adjust_fan_growth_for_composition.
  rewrite (py_int_eval _ 0); [reflexivity | lia | lra].
Qed.

Lemma INR_3 : INR 3 = 3.
Proof. rewrite INR_IZR_INZ. reflexivity. Qed.

Lemma INR_4 : INR 4 = 4.
Proof. rewrite INR_IZR_INZ. reflexivity. Qed.

Lemma compute_score_0_1 : compute_score 0 1 = 1.
Proof. rewrite compute_score_int by lia. reflexivity. Qed.

Ltac no_hand := cbn; unfold can_complete_hand; rtests; reflexivity.

Lemma collect_seat0_wins (r0 r : R) :
  collect_seats four_def 0 4 0 (seat0_wins r0 r) ∅
  = Ok (seat0_table r0 r, [seat0_eligible], ∅).
Proof.
  unfold four_def.
  apply (collect_seats_hand def_player _ 0 4 0 (seat0_wins r0 r) ∅ 1 true ∅
           [idle_data 4 1 0.5 r false; idle_data 4 2 0.5 r false;
            idle_data 4 3 0.5 r false] [] ∅).
  - no_hand.
  - cbn [seat0_wins seat sd_base_fan sd_kong_poisson
         Z.of_nat Pos.of_succ_nat Pos.succ].
    rewrite adjust_fan_all_def by lia. reflexivity.
  - reflexivity.
  - apply (collect_seats_no_hand def_player _ 1 4 0 (seat0_wins r0 r) ∅
             [idle_data 4 2 0.5 r false; idle_data 4 3 0.5 r false] [] ∅);
      [no_hand |].
    apply (collect_seats_no_hand def_player _ 2 4 0 (seat0_wins r0 r) ∅
             [idle_data 4 3 0.5 r false] [] ∅); [no_hand |].
    apply (collect_seats_no_hand def_player _ 3 4 0 (seat0_wins r0 r) ∅ [] [] ∅);
      [no_hand | reflexivity].
Qed.

Lemma collect_no_winner :
  collect_seats four_def 0 4 0 (seat_draws no_winner_round) ∅
  = Ok (no_winner_table, [], ∅).
Proof.
  unfold four_def, no_winner_table.
  apply (collect_seats_no_hand def_player _ 0 4 0 (seat_draws no_winner_round) ∅
           [idle_data 4 1 0.7 0.2 false; idle_data 4 2 0.7 0.2 false;
            idle_data 4 3 0.7 0.2 false] [] ∅); [no_hand |].
  apply (collect_seats_no_hand def_player _ 1 4 0 (seat_draws no_winner_round) ∅
           [idle_data 4 2 0.7 0.2 false; idle_data 4 3 0.7 0.2 false] [] ∅);
    [no_hand |].
  apply (collect_seats_no_hand def_player _ 2 4 0 (seat_draws no_winner_round) ∅
           [idle_data 4 3 0.7 0.2 false] [] ∅); [no_hand |].
  apply (collect_seats_no_hand def_player _ 3 4 0 (seat_draws no_winner_round) ∅
           [] [] ∅); [no_hand | reflexivity].
Qed.

Lemma collect_zero_fan :
  collect_seats neutral_table 0 3 0 (seat_draws zero_fan_round) neutral_heap
  = Ok (zero_fan_table, [zero_fan_eligible],
        <[0%nat := NeutralPolicy_init (Some 42%Z) 0]> neutral_heap).
Proof.
  unfold neutral_table, zero_fan_table.
  apply (collect_seats_hand (neutral_player 0) _ 0 3 0 (seat_draws zero_fan_round)
           neutral_heap 0 true
           (<[0%nat := NeutralPolicy_init (Some 42%Z) 0]> neutral_heap)
           [idle_data 3 1 0.5 0.2 false; idle_data 3 2 0.5 0.2 false;
            idle_data 3 3 0.5 0.2 false] []
           (<[0%nat := NeutralPolicy_init (Some 42%Z) 0]> neutral_heap)).
  - no_hand.
  - cbn [zero_fan_round seat_draws seat sd_base_fan sd_kong_poisson].
    rewrite adjust_fan_zero. reflexivity.
  - cbn [neutral_player strategy call_strategy]. unfold neutral_heap.
    rewrite lookup_singleton_eq. unfold should_hu.
    cbn [zero_fan_round seat_draws seat sd_deal_in_risk]. rewrite INR_3.
    rtests. reflexivity.
  - apply (collect_seats_no_hand def_player _ 1 3 0 (seat_draws zero_fan_round) _
             [idle_data 3 2 0.5 0.2 false; idle_data 3 3 0.5 0.2 false] [] _);
      [no_hand |].
    apply (collect_seats_no_hand def_player _ 2 3 0 (seat_draws zero_fan_round) _
             [idle_data 3 3 0.5 0.2 false] [] _); [no_hand |].
    apply (collect_seats_no_hand def_player _ 3 3 0 (seat_draws zero_fan_round) _
             [] [] _); [no_hand | reflexivity].
Qed.

Lemma settle_deal_in :
  settle 4 (seat0_table 0.5 0.2) cfg3 0 1 2 true 0.5 = Ok deal_in_lists.
Proof.
  unfold settle, seat0_table. cbn. rewrite !INR_4.
  unfold np_divide. cbn. rtests.
  unfold np_random_choice, valid_probabilities. cbn. rtests. cbn. rtests. cbn.
  unfold deal_in_lists, compute_loser_cost. cbn.
  repeat f_equal; lra.
Qed.

Lemma settle_self_draw :
  settle 4 (seat0_table 0.5 0.2) cfg3 0 1 2 false 0.5 = Ok self_draw_lists.
Proof.
  unfold settle, seat0_table. cbn. rewrite !INR_4.
  unfold self_draw_lists, compute_loser_cost. cbn.
  repeat f_equal; lra.
Qed.

Lemma settle_zero_risk :
  settle 4 (seat0_table 0.5 0) cfg3 0 1 2 true 0.5 = Raise ValueError.
Proof.
  unfold settle, seat0_table. cbn.
  unfold np_divide. cbn. rtests. reflexivity.
Qed.

Lemma settle_zero_fan :
  settle 4 zero_fan_table cfg3 0 0 1 false 0.5 = Ok zero_fan_lists.
Proof.
  unfold settle, zero_fan_table. cbn. rewrite !INR_4.
  unfold zero_fan_lists, compute_loser_cost. cbn.
  repeat f_equal; lra.
Qed.

(** The round won on a discard: seat 0 wins 6 = 2 * 3 from seat 2. *)
Lemma deal_in_round_runs :
  simulate_table_round four_def cfg3 0 deal_in_round ∅
  = Ok (map (outcome_at deal_in_lists) (seq 0 4), seat0_meta, ∅).
Proof.
  erewrite round_with_winner with (ls := deal_in_lists);
    [ | exact (collect_seat0_wins 0.5 0.2) | reflexivity | reflexivity | | reflexivity ].
  - cbn. unfold DEALER_READY_THRESHOLD. rtests. reflexivity.
  - cbn. rewrite compute_score_1_1, INR_4. rtests. exact settle_deal_in.
Qed.

(** The round won by self-draw: seat 0 wins 2 from each other seat. *)
Lemma self_draw_round_runs :
  simulate_table_round four_def cfg3 0 self_draw_round ∅
  = Ok (map (outcome_at self_draw_lists) (seq 0 4), seat0_meta, ∅).
Proof.
  erewrite round_with_winner with (ls := self_draw_lists);
    [ | exact (collect_seat0_wins 0.5 0.2) | reflexivity | reflexivity | | reflexivity ].
  - cbn. unfold DEALER_READY_THRESHOLD. rtests. reflexivity.
  - cbn. rewrite compute_score_1_1, INR_4. rtests. exact settle_self_draw.
Qed.

(** The round won on a discard when the other seats all drew risk 0. *)
Lemma zero_risk_round_raises :
  simulate_table_round four_def cfg3 0 zero_risk_round ∅ = Raise ValueError.
Proof.
  eapply round_raises_in_settle;
    [ exact (collect_seat0_wins 0.5 0) | reflexivity | reflexivity | ].
  cbn. rewrite compute_score_1_1, INR_4. rtests. exact settle_zero_risk.
Qed.

(** The round nobody wins, with a ready dealer. *)
Lemma no_winner_round_runs :
  simulate_table_round four_def cfg3 0 no_winner_round ∅
  = Ok (map draw_outcome no_winner_table, no_winner_meta, ∅).
Proof.
  rewrite (round_without_winner _ _ _ _ _ _ _ collect_no_winner).
  cbn. unfold DEALER_READY_THRESHOLD. rtests. reflexivity.
Qed.

(** The round a [NeutralPolicy] seat wins with a zero-fan hand. *)
Lemma zero_fan_round_runs :
  simulate_table_round neutral_table cfg3 0 zero_fan_round neutral_heap
  = Ok (map (outcome_at zero_fan_lists) (seq 0 4), seat0_meta,
        <[0%nat := NeutralPolicy_init (Some 42%Z) 0]> neutral_heap).
Proof.
  erewrite round_with_winner with (ls := zero_fan_lists);
    [ | exact collect_zero_fan | reflexivity | reflexivity | | reflexivity ].
  - cbn. unfold DEALER_READY_THRESHOLD. rtests. reflexivity.
  - cbn. rewrite compute_score_0_1, INR_3. rtests. exact settle_zero_fan.
Qed.

End Runs.

(** ** Outcomes of a won table round *)

Section WonRound.
Context {G : PRNG}.
Import Scoring Variables Players Simulation Table.
Local Open Scope R_scope.

Lemma lookup_outcomes (ls : RoundLists) (n i : nat) (o : RoundOutcome) :
  map (outcome_at ls) (seq 0 n) !! i = Some o ->
  (i < n)%nat /\ o = outcome_at ls i.
Proof.
  rewrite lookup_map. intros H.
  destruct (seq 0 n !! i) as [j |] eqn:Hj; [| discriminate].
  injection H as <-.
  assert (Hi : (i < n)%nat).
  { apply lookup_lt_Some in Hj. rewrite length_seq in Hj. exact Hj. }
  rewrite lookup_seq_lt in Hj by exact Hi. injection Hj as <-.
  split; [exact Hi | reflexivity].
Qed.

Lemma nth_insert_insert_zeros (n i w l : nat) (a b : R) :
  (i < n)%nat -> (w < n)%nat -> (l < n)%nat -> l <> w ->
  nth i (<[w := a]> (<[l := b]> (replicate n 0))) 0
  = if Nat.eqb i w then a else if Nat.eqb i l then b else 0.
Proof.
  intros Hi Hw Hl Hlw. rewrite nth_lookup.
  destruct (Nat.eqb_spec i w) as [-> | Hne].
  - rewrite list_lookup_insert_eq
      by (rewrite length_insert, length_replicate; exact Hw).
    reflexivity.
  - rewrite list_lookup_insert_ne by auto.
    rewrite <- nth_lookup. apply nth_insert_replicate; assumption.
Qed.

(** The winner of a round is a seat of the table whose strategy accepted
    the fan the round is scored with. *)
Lemma round_winner_accepted
    (players : list Player) (cfg : Config) (dealer : nat) (d : TableDraws)
    (h : Heap) (results : list RoundOutcome) (meta : RoundMeta) (h' : Heap)
    (w : nat) :
  simulate_table_round players cfg dealer d h = Ok (results, meta, h') ->
  winner_index meta = Some w ->
  exists (winner_fan : Z) (deal : bool) (ls : RoundLists)
         (pds : list PlayerData) (p : Player) (risk : R) (h1 h2 : Heap),
    (w < length players)%nat
    /\ players !! w = Some p
    /\ call_strategy (strategy p) winner_fan risk h1 = Ok (true, h2)
    /\ settle (length players) pds cfg w winner_fan
         (compute_score winner_fan (base_points cfg)) deal (rand_loser d) = Ok ls
    /\ results = map (outcome_at ls) (seq 0 (length players))
    /\ dealer_continues meta = Nat.eqb w dealer.
Proof.
  intros Hrun Hw.
  destruct (simulate_table_round_cases _ _ _ _ _ _ _ _ Hrun)
    as (pds & ews & Hcollect & [Hdraw | Hwon]).
  - destruct Hdraw as (_ & _ & Hnone & _). rewrite Hnone in Hw. discriminate.
  - destruct Hwon as (winner & wd & ls & Hin & Hwd & Hsettle & Hres & Hidx & Hcont).
    rewrite Hidx in Hw. injection Hw as <-.
    destruct (collect_seats_spec _ _ _ _ _ _ _ _ _ Hcollect) as (Hlen & _ & Hew).
    destruct (Hew winner Hin) as (k & pd & p & h1 & h2 & Hk & Hp & Hidk & Hfan & Hcall).
    cbn in Hidk.
    exists (ew_fan winner), (Rltb (rand_deal d) (pd_R wd)), ls, pds, p, (pd_R pd), h1, h2.
    rewrite Hidk in *.
    split; [apply lookup_lt_Some in Hp; exact Hp |].
    repeat split; auto.
Qed.

(** Seat by seat, what a won round reports. *)
Lemma settle_outcomes (n : nat) (pds : list PlayerData) (cfg : Config)
    (w : nat) (winner_fan : Z) (deal : bool) (u : R) (ls : RoundLists) :
  (w < n)%nat ->
  settle n pds cfg w winner_fan (compute_score winner_fan (base_points cfg)) deal u
    = Ok ls ->
  exists l : nat,
    (deal = true -> (l < n)%nat /\ l <> w)
    /\ forall i, (i < n)%nat ->
         won (outcome_at ls i) = Nat.eqb i w
         /\ fan (outcome_at ls i) = (if Nat.eqb i w then winner_fan else 0%Z)
         /\ deal_in_as_winner (outcome_at ls i) = deal && Nat.eqb i w
         /\ deal_in_as_loser (outcome_at ls i) = deal && Nat.eqb i l
         /\ profit (outcome_at ls i) =
              (if deal then
                 if Nat.eqb i w
                 then compute_score winner_fan (base_points cfg) * penalty_deal_in cfg
                 else if Nat.eqb i l
                 then - (compute_score winner_fan (base_points cfg) * penalty_deal_in cfg)
                 else 0
               else
                 if Nat.eqb i w
                 then compute_score winner_fan (base_points cfg) * (INR n - 1)
                 else - compute_score winner_fan (base_points cfg)).
Proof.
  intros Hw Hsettle.
  destruct (settle_spec _ _ _ _ _ _ _ _ _ Hw Hsettle)
    as (Hwins & Hfans & _ & Hrest).
  destruct deal.
  - destruct Hrest as (l & Hl & Hlw & Hprofits & Hdw & Hdl).
    exists l. split; [auto |]. intros i Hi.
    unfold outcome_at. cbn [won fan deal_in_as_winner deal_in_as_loser profit].
    rewrite Hwins, Hfans, Hdw, Hdl, Hprofits.
    rewrite !nth_insert_replicate by assumption.
    rewrite nth_insert_insert_zeros by assumption.
    unfold compute_loser_cost. cbn [andb].
    repeat split; destruct (Nat.eqb i w), (Nat.eqb i l); try reflexivity; lra.
  - destruct Hrest as (Hprofits & Hdw & Hdl).
    exists w. split; [discriminate |]. intros i Hi.
    unfold outcome_at. cbn [won fan deal_in_as_winner deal_in_as_loser profit].
    rewrite Hwins, Hfans, Hdw, Hdl, Hprofits.
    rewrite !nth_insert_replicate by assumption.
    rewrite !nth_replicate_lt by assumption.
    rewrite nth_imap_replicate by assumption.
    unfold compute_loser_cost. cbn [andb].
    repeat split; destruct (Nat.eqb i w); try reflexivity; lra.
Qed.

(** The profits of a won round add up to zero. *)
Lemma settle_zero_sum (n : nat) (pds : list PlayerData) (cfg : Config)
    (w : nat) (winner_fan : Z) (score : R) (deal : bool) (u : R) (ls : RoundLists) :
  (w < n)%nat ->
  settle n pds cfg w winner_fan score deal u = Ok ls ->
  length (round_profits ls) = n /\ np_sum (round_profits ls) = 0.
Proof.
  intros Hw Hsettle.
  destruct (settle_spec _ _ _ _ _ _ _ _ _ Hw Hsettle) as (_ & _ & _ & Hrest).
  destruct deal.
  - destruct Hrest as (l & Hl & Hlw & -> & _).
    split; [rewrite !length_insert, length_replicate; reflexivity |].
    rewrite (np_sum_insert _ w 0).
    2:{ rewrite list_lookup_insert_ne by exact Hlw.
        apply lookup_replicate_2. exact Hw. }
    rewrite (np_sum_insert _ l 0) by (apply lookup_replicate_2; exact Hl).
    rewrite np_sum_replicate_0. lra.
  - destruct Hrest as (-> & _).
    split; [rewrite length_imap, length_replicate; reflexivity |].
    rewrite (np_sum_imap_winner n 0 w).
    cbn [Nat.leb Nat.add andb].
    destruct (Nat.ltb_spec w n) as [_ | Hge]; [| lia].
    destruct n as [| n]; [lia |].
    replace (S n - 1)%nat with n by lia. rewrite S_INR. lra.
Qed.

End WonRound.

(** ** Claims on the round resolvers *)

Section RoundClaims.
Import Scoring Variables Players Simulation Table Examples.
Local Open Scope R_scope.

Lemma np_sum_delete (l : list R) (i : nat) (x : R) :
  l !! i = Some x -> np_sum (delete i l) = np_sum l - x.
Proof.
  revert i. induction l as [| a l IH]; intros [| i] H; cbn in H; try discriminate.
  - injection H as ->. change (delete 0%nat (x :: l)) with l.
    rewrite np_sum_cons. lra.
  - change (delete (S i) (a :: l)) with (a :: delete i l).
    rewrite !np_sum_cons, (IH i H). lra.
Qed.

Lemma map_profit_outcomes (ls : RoundLists) (n : nat) :
  length (round_profits ls) = n ->
  map profit (map (outcome_at ls) (seq 0 n)) = round_profits ls.
Proof.
  intros <-. rewrite map_map.
  change (fun x => profit (outcome_at ls x))
    with (fun i => nth i (round_profits ls) 0).
  apply map_nth_seq.
Qed.

(** C4.  In every table round that has a winner, on a discard or by
    self-draw, the profits of the seats add up to zero: the winner's profit
    is the negated sum of the other seats' profits. *)
Theorem table_round_zero_sum {G : PRNG}
    (players : list Player) (cfg : Config) (dealer : nat) (d : TableDraws)
    (h : Heap) (results : list RoundOutcome) (meta : RoundMeta) (h' : Heap)
    (w : nat) :
  simulate_table_round players cfg dealer d h = Ok (results, meta, h') ->
  winner_index meta = Some w ->
  length results = length players
  /\ np_sum (map profit results) = 0
  /\ exists o, results !! w = Some o
       /\ profit o = - np_sum (map profit (delete w results)).
Proof.
  intros Hrun Hw.
  destruct (round_winner_accepted _ _ _ _ _ _ _ _ _ Hrun Hw)
    as (wf & deal & ls & pds & p & risk & h1 & h2 & Hlt & _ & _ & Hsettle & -> & _).
  destruct (settle_zero_sum _ _ _ _ _ _ _ _ _ Hlt Hsettle) as [Hlen Hsum].
  assert (Hprofits : map profit (map (outcome_at ls) (seq 0 (length players)))
                     = round_profits ls) by (apply map_profit_outcomes; exact Hlen).
  split; [rewrite length_map, length_seq; reflexivity |].
  split; [rewrite Hprofits; exact Hsum |].
  exists (outcome_at ls w). split.
  - rewrite lookup_map, lookup_seq_lt by exact Hlt. reflexivity.
  - assert (Hdel : map profit (delete w (map (outcome_at ls) (seq 0 (length players))))
                   = delete w (round_profits ls)).
    { rewrite <- Hprofits. generalize (map (outcome_at ls) (seq 0 (length players))).
      intros l. revert w Hw Hlt Hsettle. clear.
      intros w _ _ _. revert w.
      induction l as [| a l IH]; intros [| w]; cbn; try reflexivity.
      f_equal. apply IH. }
    rewrite Hdel.
    rewrite (np_sum_delete _ w (profit (outcome_at ls w))).
    + rewrite Hsum. lra.
    + unfold outcome_at. cbn [profit].
      destruct (nth_lookup_or_length (round_profits ls) w 0) as [Hn | Hn];
        [exact Hn | lia].
Qed.

Lemma table_round_zero_sum_witness :
  np_sum (map profit (map (outcome_at deal_in_lists) (seq 0 4))) = 0
  /\ np_sum (map profit (map (outcome_at self_draw_lists) (seq 0 4))) = 0.
Proof.
  split.
  - exact (proj1 (proj2 (table_round_zero_sum (G := toy_rng)
             four_def cfg3 0 deal_in_round ∅ _ _ _ 0%nat
             deal_in_round_runs eq_refl))).
  - exact (proj1 (proj2 (table_round_zero_sum (G := toy_rng)
             four_def cfg3 0 self_draw_round ∅ _ _ _ 0%nat
             self_draw_round_runs eq_refl))).
Defined.

(** C2, as the code has it.  A round won on a discard pays the winner
    [score = base_points * 2^fan] in the single-player resolver, whatever
    [penalty_deal_in] is; in the table resolver it pays the winner what the
    discarder loses, [score * penalty_deal_in]. *)
Theorem deal_in_winner_profit :
  (forall (player_strategy : Z -> bool) (cfg : Config) (d : RoundDraws),
     won (simulate_round player_strategy cfg d) = true ->
     deal_in_as_winner (simulate_round player_strategy cfg d) = true ->
     profit (simulate_round player_strategy cfg d)
     = compute_score (fan (simulate_round player_strategy cfg d)) (base_points cfg))
  /\ (forall (G : PRNG) (players : list Player) (cfg : Config) (dealer : nat)
        (d : TableDraws) (h : Heap) (results : list RoundOutcome)
        (meta : RoundMeta) (h' : Heap) (i : nat) (o : RoundOutcome),
     simulate_table_round players cfg dealer d h = Ok (results, meta, h') ->
     results !! i = Some o ->
     deal_in_as_winner o = true ->
     won o = true
     /\ winner_index meta = Some i
     /\ profit o = compute_score (fan o) (base_points cfg) * penalty_deal_in cfg).
Proof.
  split.
  - intros strat cfg d. unfold simulate_round.
    destruct (negb (can_complete_hand (rand_complete d) (hand_quality d)));
      [cbn; discriminate |].
    destruct (negb (strat _)); [cbn; discriminate |].
    destruct (Rltb (rand_deal_in d) (deal_in_risk d)); cbn; [| discriminate].
    reflexivity.
  - intros G players cfg dealer d h results meta h' i o Hrun Hi Hdw.
    destruct (simulate_table_round_cases _ _ _ _ _ _ _ _ Hrun)
      as (pds & ews & Hcollect & [Hdraw | Hwon]).
    + destruct Hdraw as (_ & -> & _).
      rewrite lookup_map in Hi.
      destruct (pds !! i); [| discriminate]. injection Hi as <-.
      cbn in Hdw. discriminate.
    + destruct Hwon as (winner & wd & ls & _ & _ & _ & _ & Hidx & _).
      destruct (round_winner_accepted _ _ _ _ _ _ _ _ _ Hrun Hidx)
        as (wf & deal & ls' & pds' & p & risk & h1 & h2
            & Hlt & _ & _ & Hsettle & -> & _).
      apply lookup_outcomes in Hi as [Hin ->].
      destruct (settle_outcomes _ _ _ _ _ _ _ _ Hlt Hsettle) as (l & _ & Hall).
      destruct (Hall i Hin) as (Hwon & Hfan & Hdiw & _ & Hprofit).
      rewrite Hdiw in Hdw. apply andb_prop in Hdw as [-> Hiw].
      rewrite Hwon, Hfan, Hprofit, Hiw.
      apply Nat.eqb_eq in Hiw. subst i. rewrite Hidx. auto.
Qed.

Lemma deal_in_winner_profit_witness :
  profit (simulate_round (fun f => Strategies.defensive_strategy f 1) cfg3 single_deal_in)
  = compute_score
      (fan (simulate_round (fun f => Strategies.defensive_strategy f 1) cfg3 single_deal_in))
      (base_points cfg3)
  /\ profit (outcome_at deal_in_lists 0)
     = compute_score (fan (outcome_at deal_in_lists 0)) (base_points cfg3)
       * penalty_deal_in cfg3.
Proof.
  destruct deal_in_winner_profit as [Hsingle Htable].
  split.
  - apply Hsingle.
    + unfold simulate_round, single_deal_in, can_complete_hand. cbn. rtests. reflexivity.
    + unfold simulate_round, single_deal_in, can_complete_hand. cbn. rtests. reflexivity.
  - exact (proj2 (proj2 (Htable toy_rng four_def cfg3 0%nat deal_in_round ∅ _ _ _
                           0%nat (outcome_at deal_in_lists 0)
                           deal_in_round_runs eq_refl eq_refl))).
Defined.

(** C2, as stated, fails on the table resolver: with [penalty_deal_in = 3]
    the seat that wins the round [deal_in_round] on a discard, with fan 1
    and score 2, is paid 6. *)
Lemma deal_in_profit_is_not_score :
  simulate_table_round (G := toy_rng) four_def cfg3 0 deal_in_round ∅
    = Ok (map (outcome_at deal_in_lists) (seq 0 4), seat0_meta, ∅)
  /\ won (outcome_at deal_in_lists 0) = true
  /\ deal_in_as_winner (outcome_at deal_in_lists 0) = true
  /\ profit (outcome_at deal_in_lists 0) = 6
  /\ compute_score (fan (outcome_at deal_in_lists 0)) (base_points cfg3) = 2
  /\ profit (outcome_at deal_in_lists 0)
     <> compute_score (fan (outcome_at deal_in_lists 0)) (base_points cfg3).
Proof.
  split; [exact deal_in_round_runs |].
  split; [reflexivity |]. split; [reflexivity |]. split; [reflexivity |].
  assert (Hs : compute_score (fan (outcome_at deal_in_lists 0)) (base_points cfg3) = 2)
    by exact compute_score_1_1.
  split; [exact Hs |].
  rewrite Hs. unfold outcome_at. cbn. lra.
Qed.

End RoundClaims.

(** ** The invariant of a round outcome *)

Section OutcomeClaims.
Import Scoring Variables Players Simulation Table Examples.
Local Open Scope R_scope.

(** C6, as the code has it.  Every outcome of [simulate_round] and of
    [simulate_table_round] has [fan = 0] when it is not a win, and carries
    [deal_in_as_winner] on wins only, so that it is exactly one of not-won,
    won by self-draw, won on a discard.  A win has [fan > 0] when the
    strategy of the winning seat is a callable that accepts positive fans
    only (as the threshold strategies with a minimum of at least 1 do). *)
Theorem round_outcome_invariant :
  (forall (player_strategy : Z -> bool) (cfg : Config) (d : RoundDraws),
     let o := simulate_round player_strategy cfg d in
     (won o = false -> fan o = 0%Z)
     /\ (deal_in_as_winner o = true -> won o = true)
     /\ ((won o = false /\ deal_in_as_winner o = false)
         \/ (won o = true /\ deal_in_as_winner o = false)
         \/ (won o = true /\ deal_in_as_winner o = true))
     /\ (won o = true ->
         (forall f, player_strategy f = true -> (0 < f)%Z) -> (0 < fan o)%Z))
  /\ (forall (G : PRNG) (players : list Player) (cfg : Config) (dealer : nat)
        (d : TableDraws) (h : Heap) (results : list RoundOutcome)
        (meta : RoundMeta) (h' : Heap) (i : nat) (o : RoundOutcome),
     simulate_table_round players cfg dealer d h = Ok (results, meta, h') ->
     results !! i = Some o ->
     (won o = false -> fan o = 0%Z)
     /\ (deal_in_as_winner o = true -> won o = true)
     /\ ((won o = false /\ deal_in_as_winner o = false)
         \/ (won o = true /\ deal_in_as_winner o = false)
         \/ (won o = true /\ deal_in_as_winner o = true))
     /\ (won o = true ->
         forall p f, players !! i = Some p -> strategy p = Callable f ->
           (forall x, f x = true -> (0 < x)%Z) -> (0 < fan o)%Z)).
Proof.
  split.
  - intros strat cfg d. unfold simulate_round.
    destruct (negb (can_complete_hand (rand_complete d) (hand_quality d)));
      [cbn; intuition discriminate |].
    destruct (negb (strat _)) eqn:Hacc; [cbn; intuition discriminate |].
    apply negb_false_iff in Hacc.
    destruct (Rltb (rand_deal_in d) (deal_in_risk d)); cbn.
    + split; [discriminate |]. split; [auto |].
      split; [right; right; auto |].
      intros _ Hpos. apply Hpos. exact Hacc.
    + split; [discriminate |]. split; [discriminate |].
      split; [right; left; auto |].
      intros _ Hpos. apply Hpos. exact Hacc.
  - intros G players cfg dealer d h results meta h' i o Hrun Hi.
    destruct (simulate_table_round_cases _ _ _ _ _ _ _ _ Hrun)
      as (pds & ews & Hcollect & [Hdraw | Hwon]).
    + destruct Hdraw as (_ & -> & _).
      rewrite lookup_map in Hi.
      destruct (pds !! i); [| discriminate]. injection Hi as <-.
      cbn. intuition discriminate.
    + destruct Hwon as (winner & wd & ls & _ & _ & _ & _ & Hidx & _).
      destruct (round_winner_accepted _ _ _ _ _ _ _ _ _ Hrun Hidx)
        as (wf & deal & ls' & pds' & p & risk & h1 & h2
            & Hlt & Hp & Hcall & Hsettle & -> & _).
      apply lookup_outcomes in Hi as [Hin ->].
      destruct (settle_outcomes _ _ _ _ _ _ _ _ Hlt Hsettle) as (l & _ & Hall).
      destruct (Hall i Hin) as (Hwon & Hfan & Hdiw & _ & _).
      rewrite Hwon, Hfan, Hdiw.
      destruct (Nat.eqb_spec i (ew_player_idx winner)) as [-> | Hne].
      * repeat split; try discriminate; auto.
        -- destruct deal; cbn; auto.
        -- intros _ p0 f Hp0 Hf Hpos.
           rewrite Hp in Hp0. injection Hp0 as <-.
           rewrite Hf in Hcall. cbn in Hcall. injection Hcall as Hacc _.
           apply Hpos. exact Hacc.
      * rewrite andb_false_r. repeat split; auto; discriminate.
Qed.

Lemma round_outcome_invariant_witness :
  (0 < fan (simulate_round (fun f => Strategies.defensive_strategy f 1) cfg3
              single_deal_in))%Z
  /\ (0 < fan (outcome_at deal_in_lists 0))%Z.
Proof.
  destruct round_outcome_invariant as [Hsingle Htable].
  assert (Hpos : forall x, Strategies.defensive_strategy x 1 = true -> (0 < x)%Z).
  { intros x Hx. unfold Strategies.defensive_strategy in Hx.
    apply Z.geb_le in Hx. lia. }
  split.
  - apply (Hsingle (fun f => Strategies.defensive_strategy f 1) cfg3 single_deal_in).
    + unfold simulate_round, single_deal_in, can_complete_hand. cbn. rtests. reflexivity.
    + exact Hpos.
  - exact (proj2 (proj2 (proj2 (Htable toy_rng four_def cfg3 0%nat deal_in_round ∅ _ _ _
                                  0%nat (outcome_at deal_in_lists 0)
                                  deal_in_round_runs eq_refl)))
             eq_refl def_player _ eq_refl eq_refl Hpos).
Defined.

(** C6, as stated, fails: a [NeutralPolicy] seat under risk above 0.4
    accepts a zero-fan hand, and the round [zero_fan_round] reports a win
    with [fan = 0] for it. *)
Lemma neutral_policy_wins_with_zero_fan :
  simulate_table_round (G := toy_rng) neutral_table cfg3 0 zero_fan_round neutral_heap
    = Ok (map (outcome_at zero_fan_lists) (seq 0 4), seat0_meta,
          <[0%nat := NeutralPolicy_init (Some 42%Z) 0]> neutral_heap)
  /\ won (outcome_at zero_fan_lists 0) = true
  /\ fan (outcome_at zero_fan_lists 0) = 0%Z
  /\ ~ (won (outcome_at zero_fan_lists 0) = true
        -> (0 < fan (outcome_at zero_fan_lists 0))%Z).
Proof.
  split; [exact zero_fan_round_runs |].
  split; [reflexivity |]. split; [reflexivity |].
  intros H. specialize (H eq_refl). unfold outcome_at in H. cbn in H. lia.
Qed.

End OutcomeClaims.

(** ** The dealer seat *)

Section DealerClaims.
Import Scoring Variables Players Simulation Table Examples.
Local Open Scope R_scope.

Lemma table_step_inv {G : PRNG}
    (players : list Player) (cfg : Config) (st : TableState) (d : TableDraws)
    (st' : TableState) :
  table_step players cfg st d = Ok st' ->
  exists results meta h',
    simulate_table_round players cfg (ts_dealer_index st) d (ts_heap st)
      = Ok (results, meta, h')
    /\ next_dealer (ts_dealer_index st) (length players) meta
       = Ok (ts_dealer_index st').
Proof.
  unfold table_step. intros H.
  apply bind_Ok in H as ([[results meta] h'] & Hrun & H).
  apply bind_Ok in H as (dealer' & Hnext & H).
  injection H as <-. cbn. eauto.
Qed.

(** When the round returns, the dealer continues exactly if the dealer
    seat won, or nobody won and the dealer's hand quality reached the
    threshold. *)
Lemma dealer_continues_iff {G : PRNG}
    (players : list Player) (cfg : Config) (dealer : nat) (d : TableDraws)
    (h : Heap) (results : list RoundOutcome) (meta : RoundMeta) (h' : Heap) :
  (dealer < length players)%nat ->
  simulate_table_round players cfg dealer d h = Ok (results, meta, h') ->
  dealer_continues meta = true
  <-> (winner_index meta = Some dealer
       \/ (winner_index meta = None
           /\ DEALER_READY_THRESHOLD <= sd_hand_quality (seat_draws d dealer))).
Proof.
  intros Hlt Hrun.
  destruct (simulate_table_round_cases _ _ _ _ _ _ _ _ Hrun)
    as (pds & ews & Hcollect & [Hdraw | Hwon]).
  - destruct Hdraw as (_ & _ & Hnone & Hcont & _).
    destruct (collect_seats_spec _ _ _ _ _ _ _ _ _ Hcollect) as (Hlen & Hpd & _).
    destruct (lookup_lt_is_Some_2 pds dealer) as [data Hdata]; [lia |].
    rewrite Hdata in Hcont.
    destruct (Hpd dealer data Hdata) as (_ & HQ & _). cbn in HQ.
    rewrite Hcont, Hnone, HQ. unfold Rgeb. rewrite Rleb_spec.
    split; [intros Hle; right; auto | intros [Hs | [_ Hle]]; [discriminate | exact Hle]].
  - destruct Hwon as (winner & wd & ls & _ & _ & _ & _ & Hidx & Hcont).
    rewrite Hcont, Hidx. rewrite Nat.eqb_eq.
    split.
    + intros ->. left. reflexivity.
    + intros [Hs | [Hn _]]; [injection Hs as ->; reflexivity | discriminate].
Qed.

(** C3, as the code has it.  With four seats, after each round of a table
    session the dealer seat is unchanged if and only if the dealer seat won
    the round, or the round had no winner and the dealer's hand quality was
    at least 0.6; otherwise it is [(seat + 1) mod 4]; and the dealer index
    stays below 4 throughout the session. *)
Theorem dealer_rotation :
  (forall (G : PRNG) (players : list Player) (cfg : Config) (st : TableState)
          (d : TableDraws) (st' : TableState),
     length players = 4%nat ->
     (ts_dealer_index st < 4)%nat ->
     table_step players cfg st d = Ok st' ->
     exists results meta h',
       simulate_table_round players cfg (ts_dealer_index st) d (ts_heap st)
         = Ok (results, meta, h')
       /\ (ts_dealer_index st' = ts_dealer_index st
           <-> (winner_index meta = Some (ts_dealer_index st)
                \/ (winner_index meta = None
                    /\ 0.6 <= sd_hand_quality (seat_draws d (ts_dealer_index st)))))
       /\ (ts_dealer_index st' <> ts_dealer_index st ->
           ts_dealer_index st' = ((ts_dealer_index st + 1) mod 4)%nat)
       /\ (ts_dealer_index st' < 4)%nat)
  /\ (forall (G : PRNG) (players : list Player) (cfg : Config)
             (draws : nat -> TableDraws) (rounds k : nat) (st st' : TableState),
     length players = 4%nat ->
     (ts_dealer_index st < 4)%nat ->
     table_rounds players cfg draws rounds k st = Ok st' ->
     (ts_dealer_index st' < 4)%nat).
Proof.
  assert (Hstep : forall (G : PRNG) players cfg st d st',
    length players = 4%nat -> (ts_dealer_index st < 4)%nat ->
    table_step players cfg st d = Ok st' ->
    exists results meta h',
       simulate_table_round players cfg (ts_dealer_index st) d (ts_heap st)
         = Ok (results, meta, h')
       /\ (ts_dealer_index st' = ts_dealer_index st
           <-> (winner_index meta = Some (ts_dealer_index st)
                \/ (winner_index meta = None
                    /\ 0.6 <= sd_hand_quality (seat_draws d (ts_dealer_index st)))))
       /\ (ts_dealer_index st' <> ts_dealer_index st ->
           ts_dealer_index st' = ((ts_dealer_index st + 1) mod 4)%nat)
       /\ (ts_dealer_index st' < 4)%nat).
  { intros G players cfg st d st' Hlen Hlt Hstep.
    destruct (table_step_inv _ _ _ _ _ Hstep) as (results & meta & h' & Hrun & Hnext).
    exists results, meta, h'. split; [exact Hrun |].
    assert (Hlt' : (ts_dealer_index st < length players)%nat) by lia.
    pose proof (dealer_continues_iff _ _ _ _ _ _ _ _ Hlt' Hrun) as Hiff.
    unfold DEALER_READY_THRESHOLD in Hiff.
    unfold next_dealer in Hnext. rewrite Hlen in Hnext. cbn [Nat.eqb] in Hnext.
    assert (Hmod : ((ts_dealer_index st + 1) mod 4 <> ts_dealer_index st
                    /\ (ts_dealer_index st + 1) mod 4 < 4)%nat).
    { destruct (ts_dealer_index st) as [| [| [| [| n]]]]; cbn; lia. }
    destruct (dealer_continues meta); cbn [negb] in Hnext; injection Hnext as Hnext.
    - rewrite <- Hnext. split; [| split; [congruence | exact Hlt]].
      split; [intros _; apply Hiff; reflexivity | reflexivity].
    - rewrite <- Hnext. split; [| split; [reflexivity | apply Hmod]].
      split.
      + intros Heq. exfalso. apply (proj1 Hmod). exact Heq.
      + intros Hc. apply Hiff in Hc. discriminate. }
  split; [exact Hstep |].
  intros G players cfg draws rounds.
  induction rounds as [| rounds IH]; intros k st st' Hlen Hlt Hrun.
  - cbn in Hrun. injection Hrun as <-. exact Hlt.
  - cbn [table_rounds] in Hrun.
    apply bind_Ok in Hrun as (st1 & Hstep1 & Hrest).
    destruct (Hstep G _ _ _ _ _ Hlen Hlt Hstep1) as (_ & _ & _ & _ & _ & _ & Hlt1).
    exact (IH _ _ _ Hlen Hlt1 Hrest).
Qed.

Lemma dealer_rotation_witness :
  match table_step (G := toy_rng) four_def cfg3 (initial_state 4 ∅) deal_in_round with
  | Ok st' => (ts_dealer_index st' < 4)%nat
  | Raise _ => False
  end.
Proof.
  destruct (table_step (G := toy_rng) four_def cfg3 (initial_state 4 ∅) deal_in_round)
    as [st' | e] eqn:Hstep.
  - destruct dealer_rotation as [Hone _].
    destruct (Hone toy_rng four_def cfg3 (initial_state 4 ∅) deal_in_round st'
                eq_refl) as (_ & _ & _ & _ & _ & _ & Hlt).
    + cbn. lia.
    + exact Hstep.
    + exact Hlt.
  - unfold table_step in Hstep. cbn [initial_state ts_dealer_index ts_heap] in Hstep.
    rewrite deal_in_round_runs in Hstep. cbn in Hstep. discriminate.
Defined.

(** C3, as stated, fails: in the round [no_winner_round] no seat wins, the
    dealer (seat 0) drew hand quality 0.7, and the dealer seat stays 0. *)
Lemma dealer_stays_without_winning :
  simulate_table_round (G := toy_rng) four_def cfg3 0 no_winner_round ∅
    = Ok (map draw_outcome no_winner_table, no_winner_meta, ∅)
  /\ winner_index no_winner_meta = None
  /\ match table_step (G := toy_rng) four_def cfg3 (initial_state 4 ∅) no_winner_round with
     | Ok st' => ts_dealer_index st' = 0%nat /\ ts_dealer_index st' <> ((0 + 1) mod 4)%nat
     | Raise _ => False
     end.
Proof.
  split; [exact no_winner_round_runs |]. split; [reflexivity |].
  unfold table_step. cbn [initial_state ts_dealer_index ts_heap].
  rewrite no_winner_round_runs. cbn. split; [reflexivity | lia].
Qed.

End DealerClaims.

(** ** Composition adjustment *)

Section CompositionClaims.
Import Scoring Variables Players Simulation Table Examples.
Local Open Scope R_scope.

(** C8.  [adjust_risk_for_composition(R, n) = R * (1 - 0.3 * n / 4)]; it is
    0.5 at (0.5, 0) and 0.35 at (0.5, 4); for [R > 0] it is strictly
    decreasing in [n]; and the first loop of the table round records for
    every seat its sampled risk scaled by exactly this function of the
    number of defensive players. *)
Theorem adjust_risk_formula :
  (forall (base_risk : R) (n : Z),
     adjust_risk_for_composition base_risk n = base_risk * (1 - 0.3 * IZR n / 4))
  /\ adjust_risk_for_composition 0.5 0 = 0.5
  /\ adjust_risk_for_composition 0.5 4 = 0.35
  /\ (forall (base_risk : R) (n m : Z),
        0 < base_risk -> (n < m)%Z ->
        adjust_risk_for_composition base_risk m
        < adjust_risk_for_composition base_risk n)
  /\ (forall (G : PRNG) (players : list Player) (cfg : Config) (dealer : nat)
        (d : TableDraws) (h : Heap) (results : list RoundOutcome)
        (meta : RoundMeta) (h' : Heap),
        simulate_table_round players cfg dealer d h = Ok (results, meta, h') ->
        exists player_data eligible_winners,
          collect_seats players 0 (count_def players) dealer (seat_draws d) h
            = Ok (player_data, eligible_winners, h')
          /\ length player_data = length players
          /\ forall i data, player_data !! i = Some data ->
               pd_R data
               = adjust_risk_for_composition
                   (sd_deal_in_risk (seat_draws d i))
                   (Z.of_nat (count_def players))).
Proof.
  split; [intros r n; unfold adjust_risk_for_composition; lra |].
  split; [unfold adjust_risk_for_composition; lra |].
  split; [unfold adjust_risk_for_composition; lra |].
  split.
  - intros r n m Hr Hnm. unfold adjust_risk_for_composition.
    apply IZR_lt in Hnm.
    apply Rmult_lt_compat_l; [exact Hr | lra].
  - intros G players cfg dealer d h results meta h' Hrun.
    destruct (simulate_table_round_cases _ _ _ _ _ _ _ _ Hrun)
      as (pds & ews & Hcollect & _).
    exists pds, ews. split; [exact Hcollect |].
    destruct (collect_seats_spec _ _ _ _ _ _ _ _ _ Hcollect) as (Hlen & Hpd & _).
    split; [exact Hlen |].
    intros i data Hi. destruct (Hpd i data Hi) as (_ & _ & HR & _).
    cbn in HR. rewrite HR. unfold adjust_risk_for_composition.
    rewrite INR_IZR_INZ. reflexivity.
Qed.

Lemma adjust_risk_formula_witness :
  adjust_risk_for_composition 0.5 4 < adjust_risk_for_composition 0.5 0
  /\ pd_R (seat0_data 0.5)
     = adjust_risk_for_composition
         (sd_deal_in_risk (seat_draws deal_in_round 0)) (Z.of_nat (count_def four_def)).
Proof.
  destruct adjust_risk_formula as (_ & _ & _ & Hdec & Htable).
  split.
  - apply Hdec; [lra | lia].
  - destruct (Htable toy_rng four_def cfg3 0%nat deal_in_round ∅ _ _ _ deal_in_round_runs)
      as (pds & ews & Hcollect & _ & Hall).
    apply Hall.
    change (collect_seats (G := toy_rng) four_def 0 4 0 (seat0_wins 0.5 0.2) ∅
            = Ok (pds, ews, ∅)) in Hcollect.
    rewrite (collect_seat0_wins 0.5 0.2) in Hcollect.
    injection Hcollect as <- _. reflexivity.
Defined.

End CompositionClaims.

(** ** Session reducers *)

Section SessionClaims.
Import Scoring Variables Players Simulation Table Examples.
Local Open Scope R_scope.

(** The single-player reducer floors the summed utility at 0 before it adds
    the baseline, so a trial never reports less than the baseline. *)
Lemma run_simulation_utility_floor
    (strategy_fn : Z -> bool) (cfg : Config) (baseline_utility : R)
    (draws : nat -> RoundDraws) :
  st_utility (run_simulation strategy_fn cfg baseline_utility draws)
  = baseline_utility
    + Rmax 0 (np_sum (map utility
                (map (fun k => simulate_round strategy_fn cfg (draws k))
                     (seq 0 (Z.to_nat (rounds_per_trial cfg))))))
  /\ baseline_utility
     <= st_utility (run_simulation strategy_fn cfg baseline_utility draws).
Proof.
  unfold run_simulation. cbn [st_utility]. split; [reflexivity |].
  pose proof (Rmax_l 0 (np_sum (map utility
                (map (fun k => simulate_round strategy_fn cfg (draws k))
                     (seq 0 (Z.to_nat (rounds_per_trial cfg))))))).
  lra.
Qed.

(** The table reducer adds the baseline to the plain sum. *)
Lemma seat_stats_utility (baseline_utility : R) (outcomes : list RoundOutcome) :
  st_utility (seat_stats baseline_utility outcomes)
  = baseline_utility + np_sum (map utility outcomes).
Proof. reflexivity. Qed.

Lemma sqrt_2_pos : 0 < sqrt 2.
Proof. apply sqrt_lt_R0. lra. Qed.

(** C1, on the code.  A table session of one round, [self_draw_round]:
    seat 0 wins 2 from each other seat.  [_run_table] reports for the three
    losing seats the utility [200 - sqrt 2], below the baseline 200: the sum
    of the round utilities is not floored at 0 there. *)
Theorem run_table_utility_below_baseline :
  match _run_table (G := toy_rng) four_def cfg3 1 200 (fun _ => self_draw_round) ∅ with
  | Ok res =>
      map (fun ps => st_utility (snd ps)) (per_player res)
      = [200 + sqrt 6; 200 - sqrt 2; 200 - sqrt 2; 200 - sqrt 2]
  | Raise _ => False
  end
  /\ 200 - sqrt 2 < 200
  /\ 200 + Rmax 0 (- sqrt 2) = 200.
Proof.
  split.
  - unfold _run_table.
    change (Z.to_nat 1) with 1%nat. change (length four_def) with 4%nat.
    cbn [table_rounds]. unfold table_step.
    cbn [initial_state ts_dealer_index ts_heap].
    rewrite self_draw_round_runs. cbn.
    unfold outcome_at. cbn.
    rewrite compute_utility_pos by lra.
    rewrite !compute_utility_neg by lra.
    replace (- -2) with 2 by lra. cbn [bool_to_R].
    repeat f_equal; lra.
  - pose proof sqrt_2_pos as Hpos. split; [lra |].
    rewrite Rmax_left by lra. lra.
Qed.

End SessionClaims.

(** ** The weighted selections *)

Section SelectionClaims.
Import Scoring Variables Players Simulation Table Examples.
Local Open Scope R_scope.

Lemma searchsorted_right_lt (a : list R) (v x : R) :
  In x a -> v < x -> (searchsorted_right a v < length a)%nat.
Proof.
  induction a as [| y a IH]; intros Hin Hv; [destruct Hin |].
  cbn [searchsorted_right length].
  destruct (Rltb v y) eqn:Hy; [lia |].
  destruct Hin as [-> | Hin].
  - rewrite Rltb_true in Hy by exact Hv. discriminate.
  - specialize (IH Hin Hv). lia.
Qed.

Lemma cumsum_from_total (acc : R) (l : list R) :
  l <> [] -> In (acc + np_sum l) (cumsum_from acc l).
Proof.
  revert acc. induction l as [| x l IH]; intros acc Hne; [contradiction |].
  cbn [cumsum_from]. rewrite np_sum_cons.
  destruct l as [| y l].
  - left. cbn. lra.
  - right. replace (acc + (x + np_sum (y :: l))) with (acc + x + np_sum (y :: l)) by lra.
    apply IH. discriminate.
Qed.

Lemma length_cumsum_from (acc : R) (l : list R) :
  length (cumsum_from acc l) = length l.
Proof. revert acc. induction l as [| x l IH]; intros acc; cbn; auto. Qed.

(** On a probability vector and a uniform draw below 1, the weighted
    choice returns an index in range. *)
Lemma np_random_choice_total (n : nat) (ps : list R) (u : R) :
  valid_probabilities n ps = true -> u < 1 ->
  exists k, np_random_choice n (Some ps) u = Ok k /\ (k < n)%nat.
Proof.
  intros Hvalid Hu. unfold np_random_choice. rewrite Hvalid.
  unfold valid_probabilities in Hvalid.
  apply andb_prop in Hvalid as [Hvalid Hsum].
  apply andb_prop in Hvalid as [Hvalid _].
  apply andb_prop in Hvalid as [Hn Hlen].
  apply Nat.ltb_lt in Hn. apply Nat.eqb_eq in Hlen. apply Reqb_spec in Hsum.
  eexists. split; [reflexivity |].
  rewrite <- Hlen, <- (length_cumsum_from 0 ps).
  apply (searchsorted_right_lt _ _ (0 + np_sum ps)).
  - apply cumsum_from_total. intros ->. cbn in Hlen. lia.
  - lra.
Qed.

Lemma forallb_nonneg_scale (ws : list R) (c : R) :
  Forall (fun x => 0 <= x) ws -> 0 < c ->
  forallb (fun x => Rleb 0 x) (map (fun x => x / c) ws) = true.
Proof.
  intros Hws Hc. induction Hws as [| x ws Hx _ IH]; [reflexivity |].
  cbn [map forallb]. rewrite IH, andb_true_r.
  apply Rleb_true. apply Rmult_le_pos; [exact Hx |].
  left. apply Rinv_0_lt_compat. exact Hc.
Qed.

(** Weights that are not negative and have a positive sum normalise to a
    probability vector. *)
Lemma valid_normalised (ws : list R) :
  Forall (fun x => 0 <= x) ws -> 0 < np_sum ws ->
  np_divide ws (np_sum ws) = Some (map (fun x => x / np_sum ws) ws)
  /\ valid_probabilities (length ws) (map (fun x => x / np_sum ws) ws) = true.
Proof.
  intros Hws Hsum. split.
  - unfold np_divide. rewrite Reqb_false by lra. reflexivity.
  - unfold valid_probabilities.
    rewrite length_map, Nat.eqb_refl, forallb_nonneg_scale by assumption.
    rewrite np_sum_map_scale, Reqb_true by (field; lra).
    destruct ws as [| x ws]; [cbn in Hsum; lra | reflexivity].
Qed.

Lemma np_sum_replicate_1 (n : nat) : np_sum (replicate n 1) = INR n.
Proof.
  induction n as [| n IH]; [reflexivity |].
  change (replicate (S n) 1) with (1 :: replicate n 1).
  rewrite np_sum_cons, IH, S_INR. lra.
Qed.

(** The uniform fallback [np.ones(n) / n] is a probability vector. *)
Lemma valid_uniform (n : nat) :
  (0 < n)%nat ->
  np_divide (replicate n 1) (INR n) = Some (map (fun x => x / INR n) (replicate n 1))
  /\ valid_probabilities n (map (fun x => x / INR n) (replicate n 1)) = true.
Proof.
  intros Hn.
  assert (Hpos : 0 < INR n) by (apply lt_0_INR; lia).
  assert (Hall : Forall (fun x => 0 <= x) (replicate n 1)).
  { apply Forall_forall. intros x Hin.
    apply elem_of_replicate in Hin as [-> _]. lra. }
  pose proof (np_sum_replicate_1 n) as Hsum.
  destruct (valid_normalised (replicate n 1) Hall) as [Hdiv Hvalid]; [lra |].
  rewrite Hsum in Hdiv, Hvalid. rewrite length_replicate in Hvalid. auto.
Qed.

(** The winner selection is total: with fans that are not negative and a
    uniform draw below 1 it returns one of the eligible seats, through the
    uniform fallback when all fans are 0. *)
Lemma select_winner_total (ews : list Eligible) (u : R) :
  ews <> [] ->
  Forall (fun e => (0 <= ew_fan e)%Z) ews ->
  u < 1 ->
  exists winner, select_winner ews u = Ok winner /\ In winner ews.
Proof.
  intros Hne Hfans Hu.
  assert (Hw : exists winner, select_winner ews u = Ok winner).
  { unfold select_winner.
    set (weights := map IZR (map ew_fan ews)).
    assert (Hlen : length weights = length ews)
      by (unfold weights; rewrite !length_map; reflexivity).
    assert (Hnonneg : Forall (fun x => 0 <= x) weights).
    { unfold weights. apply List.Forall_forall. intros x Hin.
      apply in_map_iff in Hin as (z & <- & Hz).
      apply in_map_iff in Hz as (e & <- & He).
      rewrite List.Forall_forall in Hfans. apply IZR_le. apply Hfans. exact He. }
    assert (Hchoice : exists winner,
      (try winner_idx <-
         np_random_choice (length ews)
           (if Rleb (np_sum weights) 0
            then np_divide (replicate (length ews) 1) (INR (length ews))
            else np_divide weights (np_sum weights)) u
       in lookup_or_raise ews winner_idx) = Ok winner).
    { assert (Hpos : (0 < length ews)%nat)
        by (destruct ews; [contradiction | cbn; lia]).
      assert (Hk : exists k,
        np_random_choice (length ews)
           (if Rleb (np_sum weights) 0
            then np_divide (replicate (length ews) 1) (INR (length ews))
            else np_divide weights (np_sum weights)) u = Ok k
        /\ (k < length ews)%nat).
      { destruct (Rleb (np_sum weights) 0) eqn:Hle.
        - destruct (valid_uniform (length ews) Hpos) as [-> Hvalid].
          apply np_random_choice_total; assumption.
        - assert (Hsum : 0 < np_sum weights).
          { destruct (Rle_dec (np_sum weights) 0) as [Hc | Hc]; [| lra].
            rewrite Rleb_true in Hle by exact Hc. discriminate. }
          destruct (valid_normalised weights Hnonneg Hsum) as [-> Hvalid].
          rewrite Hlen in Hvalid.
          apply np_random_choice_total; assumption. }
      destruct Hk as (k & -> & Hk). cbn [bind].
      destruct (lookup_lt_is_Some_2 ews k Hk) as [winner Hwin].
      exists winner. apply lookup_or_raise_Ok. exact Hwin. }
    destruct ews as [| e [| e' rest]]; [contradiction | eauto | exact Hchoice]. }
  destruct Hw as [winner Hw]. exists winner. split; [exact Hw |].
  eapply select_winner_In. exact Hw.
Qed.

Lemma mapM_lookup_R {G : PRNG} (pds : list PlayerData) (idx : list nat) :
  Forall (fun i => (i < length pds)%nat) idx ->
  mapM (fun i => try data <- lookup_or_raise pds i in Ok (pd_R data)) idx
  = Ok (map (fun i => nth i (map pd_R pds) 0) idx).
Proof.
  induction 1 as [| i idx Hi _ IH]; [reflexivity |].
  cbn [mapM map]. rewrite IH.
  destruct (lookup_lt_is_Some_2 pds i Hi) as [data Hdata].
  unfold lookup_or_raise. rewrite Hdata. cbn [bind].
  rewrite nth_lookup, lookup_map, Hdata. reflexivity.
Qed.

(** The risks of the seats other than [w], as the deal-in branch reads them. *)
Lemma loser_risks {G : PRNG} (n w : nat) (pds : list PlayerData) :
  length pds = n ->
  mapM (fun i => try data <- lookup_or_raise pds i in Ok (pd_R data))
       (other_seats n w)
  = Ok (map (fun i => nth i (map pd_R pds) 0) (other_seats n w)).
Proof.
  intros Hlen. apply mapM_lookup_R. apply List.Forall_forall. intros i Hin.
  apply In_other_seats in Hin as [Hi _]. lia.
Qed.

(** The loser selection has no fallback: whenever the risks of the seats
    other than the winner sum to zero, a round won on a discard raises. *)
Lemma settle_raises_on_zero_risks {G : PRNG}
    (n : nat) (pds : list PlayerData) (cfg : Config) (w : nat)
    (winner_fan : Z) (score u : R) :
  length pds = n ->
  np_sum (map (fun i => nth i (map pd_R pds) 0) (other_seats n w)) = 0 ->
  settle n pds cfg w winner_fan score true u = Raise ValueError.
Proof.
  intros Hlen Hsum. unfold settle.
  rewrite (loser_risks n w pds Hlen). cbn [bind].
  unfold np_divide. rewrite Hsum, Reqb_true by reflexivity. reflexivity.
Qed.

(** With risks that are not negative and do not all vanish among the seats
    other than the winner, the loser selection returns. *)
Lemma settle_deal_in_total {G : PRNG}
    (n : nat) (pds : list PlayerData) (cfg : Config) (w : nat)
    (winner_fan : Z) (score u : R) :
  length pds = n -> (w < n)%nat ->
  Forall (fun data => 0 <= pd_R data) pds ->
  0 < np_sum (map (fun i => nth i (map pd_R pds) 0) (other_seats n w)) ->
  u < 1 ->
  exists ls, settle n pds cfg w winner_fan score true u = Ok ls.
Proof.
  intros Hlen Hw Hnonneg Hsum Hu. unfold settle.
  rewrite (loser_risks n w pds Hlen). cbn [bind].
  set (Rs := map (fun i => nth i (map pd_R pds) 0) (other_seats n w)) in *.
  assert (HRs : Forall (fun x => 0 <= x) Rs).
  { unfold Rs. apply List.Forall_forall. intros x Hin.
    apply in_map_iff in Hin as (i & <- & Hi).
    apply In_other_seats in Hi as [Hi _].
    rewrite nth_lookup, lookup_map.
    destruct (lookup_lt_is_Some_2 pds i) as [data Hdata]; [lia |].
    rewrite Hdata. cbn. rewrite List.Forall_forall in Hnonneg.
    apply Hnonneg. apply list_elem_of_In. eapply list_elem_of_lookup_2. exact Hdata. }
  destruct (valid_normalised Rs HRs Hsum) as [-> Hvalid].
  assert (HlenRs : length Rs = length (other_seats n w))
    by (unfold Rs; rewrite length_map; reflexivity).
  rewrite HlenRs in Hvalid.
  destruct (np_random_choice_total _ _ u Hvalid Hu) as (k & -> & Hk). cbn [bind].
  destruct (lookup_lt_is_Some_2 _ k Hk) as [l Hl].
  unfold lookup_or_raise. rewrite Hl. cbn [bind].
  assert (Hin : In l (other_seats n w)).
  { apply list_elem_of_In. eapply list_elem_of_lookup_2. exact Hl. }
  apply In_other_seats in Hin as [Hln Hlw].
  unfold update_or_raise.
  rewrite !lookup_replicate_2 by assumption. cbn [bind].
  rewrite list_lookup_insert_ne by exact Hlw.
  rewrite lookup_replicate_2 by assumption. cbn [bind].
  eexists. reflexivity.
Qed.

Lemma adjust_fan_growth_nonneg (bf nd : Z) :
  (0 <= bf)%Z -> (nd <= 4)%Z -> (0 <= adjust_fan_growth_for_composition bf nd)%Z.
Proof.
  intros Hbf Hnd. unfold adjust_fan_growth_for_composition.
  apply Z.min_glb; [| lia]. apply py_int_nonneg.
  apply Rmult_le_pos; [apply IZR_le; lia |].
  assert (0 <= IZR (4 - nd)) by (apply IZR_le; lia). lra.
Qed.

Lemma fan_values_nonneg (bf : Z) : In bf fan_values -> (0 <= bf)%Z.
Proof.
  unfold fan_values. cbn.
  intros [<- | [<- | [<- | [<- | [<- | [<- | []]]]]]]; lia.
Qed.

Lemma count_def_le {G : PRNG} (players : list Player) :
  (count_def players <= length players)%nat.
Proof. unfold count_def. apply List.filter_length_le. Qed.

Lemma call_strategy_live {G : PRNG} (s : Strategy) (fan : Z) (risk : R) (h : Heap) :
  (forall l, s = PolicyRef l -> is_Some (h !! l)) ->
  exists b h1, call_strategy s fan risk h = Ok (b, h1)
    /\ forall l, is_Some (h !! l) -> is_Some (h1 !! l).
Proof.
  intros Hlive. destruct s as [f | l]; cbn [call_strategy].
  - exists (f fan), h. auto.
  - destruct (Hlive l eq_refl) as [self Hself]. rewrite Hself.
    destruct (should_hu self fan risk) as [b self'].
    exists b, (<[l := self']> h). split; [reflexivity |].
    intros l' Hl'. apply lookup_insert_is_Some'. right. exact Hl'.
Qed.

(** With live references the first loop returns, and with base fans and
    kong counts in range every eligible fan is at least 0. *)
Lemma collect_seats_total {G : PRNG} (players : list Player) :
  forall (i nd dealer : nat) (d : nat -> SeatDraws) (h : Heap),
    (nd <= 4)%nat ->
    live_strategies h players ->
    (forall k, (k < length players)%nat ->
       In (sd_base_fan (d (i + k)%nat)) fan_values
       /\ (0 <= sd_kong_poisson (d (i + k)%nat))%Z) ->
    exists pds ews h',
      collect_seats players i nd dealer d h = Ok (pds, ews, h')
      /\ List.Forall (fun e => (0 <= ew_fan e)%Z) ews.
Proof.
  induction players as [| player rest IH]; intros i nd dealer d h Hnd Hlive Hd.
  - exists [], [], h. split; [reflexivity | constructor].
  - assert (Hrest : forall h1, (forall l, is_Some (h !! l) -> is_Some (h1 !! l)) ->
              exists pds ews h',
                collect_seats rest (S i) nd dealer d h1 = Ok (pds, ews, h')
                /\ List.Forall (fun e => (0 <= ew_fan e)%Z) ews).
    { intros h1 Hmono. apply IH; [exact Hnd | |].
      - intros p l Hp Hs. apply Hmono. apply (Hlive p l); [right; exact Hp | exact Hs].
      - intros k Hk. replace (S i + k)%nat with (i + S k)%nat by lia.
        apply Hd. cbn. lia. }
    cbn [collect_seats].
    destruct (negb (can_complete_hand (sd_rand_complete (d i)) (sd_hand_quality (d i)))).
    + destruct (Hrest h) as (pds & ews & h' & -> & Hfans); [auto |].
      cbn [bind]. eauto.
    + destruct (call_strategy_live (strategy player)
                  (compute_total_fan
                     (adjust_fan_growth_for_composition (sd_base_fan (d i)) (Z.of_nat nd))
                     (sample_kong_events (sd_kong_poisson (d i)) 2) 16)
                  (sd_deal_in_risk (d i) * (1 - INR nd / 4 * 0.3)) h)
        as (b & h1 & -> & Hmono).
      { intros l Hs. apply (Hlive player l); [left; reflexivity | exact Hs]. }
      cbn [bind].
      destruct (Hrest h1 Hmono) as (pds & ews & h' & -> & Hfans).
      cbn [bind]. do 3 eexists. split; [reflexivity |].
      destruct b; [| exact Hfans].
      constructor; [| exact Hfans]. cbn [ew_fan].
      destruct (Hd 0%nat) as [Hbf Hk]; [cbn; lia |].
      rewrite Nat.add_0_r in Hbf, Hk.
      apply fan_values_nonneg in Hbf.
      pose proof (adjust_fan_growth_nonneg _ (Z.of_nat nd) Hbf ltac:(lia)).
      unfold compute_total_fan, sample_kong_events. lia.
Qed.

Lemma np_sum_pos (l : list R) :
  l <> [] -> List.Forall (fun x => 0 < x) l -> 0 < np_sum l.
Proof.
  intros Hne Hall. induction Hall as [| x l Hx Hall IH]; [contradiction |].
  rewrite np_sum_cons. destruct l as [| y l]; [cbn; lra |].
  assert (0 < np_sum (y :: l)) by (apply IH; discriminate). lra.
Qed.

(** In normal operation a round of a four-seat table returns: no selection
    raises as long as every sampled deal-in risk is positive. *)
Lemma simulate_table_round_total {G : PRNG}
    (players : list Player) (cfg : Config) (dealer : nat) (d : TableDraws)
    (h : Heap) :
  length players = 4%nat ->
  (dealer < 4)%nat ->
  live_strategies h players ->
  draws_in_range 4 d ->
  exists results meta h',
    simulate_table_round players cfg dealer d h = Ok (results, meta, h').
Proof.
  intros Hlen Hdealer Hlive (Hseats & Hu_winner & Hu_loser).
  assert (Hnd : (count_def players <= 4)%nat)
    by (rewrite <- Hlen; apply count_def_le).
  destruct (collect_seats_total players 0 (count_def players) dealer (seat_draws d) h
              Hnd Hlive) as (pds & ews & h' & Hcollect & Hfans).
  { intros k Hk. rewrite Hlen in Hk. destruct (Hseats k Hk) as (_ & Hbf & Hkong). auto. }
  destruct (collect_seats_spec _ _ _ _ _ _ _ _ _ Hcollect) as (Hpds & Hpd & Hew).
  destruct ews as [| e ews].
  - rewrite (round_without_winner _ _ _ _ _ _ _ Hcollect). eauto.
  - destruct (select_winner_total (e :: ews) (rand_winner d)) as (winner & Hsel & Hin);
      [discriminate | exact Hfans | exact Hu_winner |].
    destruct (Hew winner Hin) as (k & pd & p & h1 & h2 & Hk & Hp & Hidx & _).
    cbn in Hidx.
    assert (Hw : (ew_player_idx winner < 4)%nat).
    { rewrite Hidx. apply lookup_lt_Some in Hk. lia. }
    rewrite <- Hidx in Hk.
    destruct (lookup_lt_is_Some_2 pds dealer) as [dd Hdd]; [lia |].
    assert (Hfactor : 0 < 1 - INR (count_def players) / 4 * 0.3).
    { assert (INR (count_def players) <= 4).
      { replace 4 with (INR 4) by (rewrite INR_IZR_INZ; reflexivity).
        apply le_INR. exact Hnd. }
      lra. }
    assert (HR : forall j data, pds !! j = Some data -> 0 < pd_R data).
    { intros j data Hj. destruct (Hpd j data Hj) as (_ & _ & -> & _).
      apply lookup_lt_Some in Hj. cbn.
      destruct (Hseats j) as (Hpos & _); [lia |].
      apply Rmult_lt_0_compat; assumption. }
    assert (Hsettle : exists ls,
      settle (length players) pds cfg (ew_player_idx winner) (ew_fan winner)
        (compute_score (ew_fan winner) (base_points cfg))
        (Rltb (rand_deal d) (pd_R pd)) (rand_loser d) = Ok ls).
    { rewrite Hlen. destruct (Rltb (rand_deal d) (pd_R pd)).
      - apply settle_deal_in_total; [lia | exact Hw | | | exact Hu_loser].
        + apply List.Forall_forall. intros data Hdata.
          apply (proj2 (list_elem_of_In _ _)) in Hdata.
          apply list_elem_of_lookup_1 in Hdata as [j Hj].
          left. exact (HR j data Hj).
        + apply np_sum_pos.
          * assert (Hother : exists j, In j (other_seats 4 (ew_player_idx winner))).
            { destruct (ew_player_idx winner) as [| w'].
              - exists 1%nat. apply In_other_seats. lia.
              - exists 0%nat. apply In_other_seats. lia. }
            destruct Hother as [j Hj]. intros Hnil.
            apply (in_map (fun i => nth i (map pd_R pds) 0)) in Hj.
            rewrite Hnil in Hj. destruct Hj.
          * apply List.Forall_forall. intros x Hx.
            apply in_map_iff in Hx as (j & <- & Hj).
            apply In_other_seats in Hj as [Hj _].
            destruct (lookup_lt_is_Some_2 pds j) as [data Hdata]; [lia |].
            rewrite nth_lookup, lookup_map, Hdata. cbn. exact (HR j data Hdata).
      - unfold settle. eauto. }
    destruct Hsettle as [ls Hls].
    rewrite (round_with_winner _ _ _ _ _ _ _ _ _ _ _ _ _ Hcollect Hsel Hk Hls Hdd).
    eauto.
Qed.

Example deal_in_round_in_range :
  draws_in_range 4 deal_in_round
  /\ live_strategies (G := toy_rng) ∅ four_def.
Proof.
  split.
  - split; [| split; cbn; lra].
    intros [| i] _; cbn; (split; [lra | split; [tauto | lia]]).
  - intros p l Hp Hs. unfold four_def in Hp. cbn in Hp.
    destruct Hp as [<- | [<- | [<- | [<- | []]]]]; discriminate.
Qed.





(** Outside the ranges of the samplers.  The loser selection has no
    fallback of its own: were the three other seats to hold a risk of
    exactly 0, as in [zero_risk_round], its weights would sum to zero and
    [np.random.choice] would raise [ValueError].  A Beta draw is positive,
    so no round of the simulator gets there. *)
Lemma loser_selection_raises_on_zero_risk :
  simulate_table_round (G := toy_rng) four_def cfg3 0 zero_risk_round ∅
    = Raise ValueError
  /\ np_divide [0; 0; 0] (np_sum [0; 0; 0]) = None
  /\ np_random_choice 3 None (rand_loser zero_risk_round) = Raise ValueError.
Proof.
  split; [exact zero_risk_round_raises |].
  split; [| reflexivity].
  unfold np_divide. rewrite Reqb_true; [reflexivity | cbn; lra].
Qed.

End SelectionClaims.

(** ** The neutral policy *)

Section PolicyClaims.
Import Scoring Variables Players Simulation Table Examples.
Local Open Scope R_scope.

Lemma should_hu_high_risk {G : PRNG} (self : NeutralPolicy) (fan : Z) (risk : R) :
  0.4 < risk -> should_hu self fan risk = (true, self).
Proof. intros Hr. unfold should_hu. rtests. reflexivity. Qed.

Lemma should_hu_fan {G : PRNG} (self : NeutralPolicy) (fan : Z) (risk : R) :
  risk <= 0.4 -> (1 <= fan)%Z -> should_hu self fan risk = (true, self).
Proof.
  intros Hr Hf. unfold should_hu. rtests.
  destruct (Z.geb_spec fan 1); [reflexivity | lia].
Qed.

Lemma should_hu_draw {G : PRNG} (self : NeutralPolicy) (fan : Z) (risk : R) :
  risk <= 0.4 -> (fan < 1)%Z ->
  should_hu self fan risk
  = (Rgeb (fst (rng_random (_rng self))) 0.2,
     {| _rng := snd (rng_random (_rng self)) |}).
Proof.
  intros Hr Hf. unfold should_hu. rtests.
  destruct (Z.geb_spec fan 1); [lia |].
  destruct (rng_random (_rng self)) as [u g]. reflexivity.
Qed.

(** In a schedule over a heap, the decisions an object returns are those
    of the object alone on the calls made to it. *)
Lemma run_schedule_isolated {G : PRNG} (events : list (nat * Z * R)) :
  forall (h : Heap) (log : list (nat * bool)) (h' : Heap) (l : nat)
         (self : NeutralPolicy),
    run_schedule h events = Ok (log, h') ->
    h !! l = Some self ->
    decisions_on l log = decisions self (calls_on l events).
Proof.
  induction events as [| [[l0 fan] risk] rest IH]; intros h log h' l self Hrun Hl.
  - cbn in Hrun. injection Hrun as <- <-. reflexivity.
  - cbn [run_schedule] in Hrun.
    apply bind_Ok in Hrun as ([b h1] & Hcall & Hrun).
    apply bind_Ok in Hrun as ([log1 h2] & Hrest & Hret).
    injection Hret as <- <-.
    cbn [call_strategy] in Hcall.
    destruct (h !! l0) as [s0 |] eqn:Hs0; [| discriminate].
    destruct (should_hu s0 fan risk) as [b0 s0'] eqn:Hhu.
    injection Hcall as <- <-.
    unfold decisions_on, calls_on. cbn [List.filter fst snd].
    destruct (Nat.eqb_spec l0 l) as [-> | Hne].
    + rewrite Hl in Hs0. injection Hs0 as <-.
      cbn [map fst snd decisions]. rewrite Hhu. f_equal.
      apply (IH _ _ _ _ _ Hrest). apply lookup_insert_eq.
    + apply (IH _ _ _ _ _ Hrest). rewrite lookup_insert_ne by exact Hne. exact Hl.
Qed.

(** C9.  Two [NeutralPolicy] objects built with the same seed return the
    same decisions on the same calls, however their calls are interleaved
    with each other's and with those of other objects.  [should_hu] returns
    [True] when [risk > 0.4], else [True] when [fan >= 1], and else draws
    once from the object's own generator and rejects exactly when the draw
    is below 0.2: of the draws in [0, 1), it accepts those in [0.2, 1), an
    interval of length 0.8. *)
Theorem neutral_policy_reproducible :
  (forall (G : PRNG) (seed e1 e2 : Z) (calls : list (Z * R)),
     decisions (NeutralPolicy_init (Some seed) e1) calls
     = decisions (NeutralPolicy_init (Some seed) e2) calls)
  /\ (forall (G : PRNG) (seed e1 e2 : Z) (a b : nat) (h : Heap)
        (events : list (nat * Z * R)) (log : list (nat * bool)) (h' : Heap),
     h !! a = Some (NeutralPolicy_init (Some seed) e1) ->
     h !! b = Some (NeutralPolicy_init (Some seed) e2) ->
     run_schedule h events = Ok (log, h') ->
     calls_on a events = calls_on b events ->
     decisions_on a log = decisions_on b log)
  /\ (forall (G : PRNG) (self : NeutralPolicy) (fan : Z) (risk : R),
     (0.4 < risk -> should_hu self fan risk = (true, self))
     /\ (risk <= 0.4 -> (1 <= fan)%Z -> should_hu self fan risk = (true, self))
     /\ (risk <= 0.4 -> (fan < 1)%Z ->
         snd (should_hu self fan risk) = {| _rng := snd (rng_random (_rng self)) |}
         /\ (fst (should_hu self fan risk) = false
             <-> fst (rng_random (_rng self)) < 0.2)))
  /\ (forall u : R, 0 <= u < 1 -> (Rgeb u 0.2 = true <-> 0.2 <= u < 1))
  /\ 1 - 0.2 = 0.8.
Proof.
  split; [reflexivity |].
  split.
  - intros G seed e1 e2 a b h events log h' Ha Hb Hrun Hcalls.
    rewrite (run_schedule_isolated events h log h' a _ Hrun Ha).
    rewrite (run_schedule_isolated events h log h' b _ Hrun Hb).
    rewrite Hcalls. reflexivity.
  - split; [| split; [| lra]].
    + intros G self fan risk.
      split; [apply should_hu_high_risk |].
      split; [apply should_hu_fan |].
      intros Hr Hf. rewrite (should_hu_draw self fan risk Hr Hf). cbn [fst snd].
      split; [reflexivity |].
      unfold Rgeb, Rleb.
      destruct (Rle_dec 0.2 (fst (rng_random (_rng self)))); split; intros H;
        (discriminate || lra || reflexivity).
    + intros u [Hu0 Hu1]. unfold Rgeb. rewrite Rleb_spec. lra.
Qed.

(** A schedule over live objects returns. *)
Lemma run_schedule_total {G : PRNG} (events : list (nat * Z * R)) :
  forall h : Heap,
    List.Forall (fun e => is_Some (h !! fst (fst e))) events ->
    exists log h', run_schedule h events = Ok (log, h').
Proof.
  induction events as [| [[l fan] risk] rest IH]; intros h Hall.
  - cbn. eauto.
  - inversion Hall as [| e es [self Hself] Hrest]; subst.
    cbn [fst] in Hself. cbn [run_schedule call_strategy]. rewrite Hself.
    destruct (should_hu self fan risk) as [b self']. cbn [bind].
    destruct (IH (<[l := self']> h)) as (log & h' & ->).
    + apply List.Forall_forall. intros e He.
      rewrite List.Forall_forall in Hrest. specialize (Hrest e He).
      apply lookup_insert_is_Some'. right. exact Hrest.
    + cbn. eauto.
Qed.

Lemma neutral_policy_reproducible_witness :
  match run_schedule (G := toy_rng) twin_heap twin_events with
  | Ok (log, _) => decisions_on 0 log = decisions_on 1 log
  | Raise _ => False
  end
  /\ snd (should_hu (G := toy_rng) (NeutralPolicy_init (Some 7%Z) 0) 0 0.1)
     = @Build_NeutralPolicy toy_rng 2%Z.
Proof.
  destruct neutral_policy_reproducible as (_ & Hsched & Hrule & _).
  split.
  - destruct (run_schedule (G := toy_rng) twin_heap twin_events)
      as [[log h'] | e] eqn:Hrun.
    + apply (Hsched toy_rng 7%Z 0%Z 5%Z 0%nat 1%nat twin_heap twin_events log h').
      * unfold twin_heap. rewrite lookup_insert_ne by lia. apply lookup_insert_eq.
      * unfold twin_heap. apply lookup_insert_eq.
      * exact Hrun.
      * reflexivity.
    + destruct (run_schedule_total (G := toy_rng) twin_events twin_heap)
        as (log & h' & Hok).
      * unfold twin_events, twin_heap.
        repeat constructor; cbn [fst];
          rewrite ?lookup_insert_eq, ?lookup_insert_ne, ?lookup_insert_eq by lia;
          eexists; reflexivity.
      * rewrite Hok in Hrun. discriminate.
  - destruct (Hrule toy_rng (NeutralPolicy_init (Some 7%Z) 0) 0%Z 0.1) as (_ & _ & Hdraw).
    destruct Hdraw as [Hstate _]; [lra | lia |].
    exact Hstate.
Defined.

End PolicyClaims.

(** * Further properties of the engine *)

(** ** Scores and fans *)

Section ScoreAndFan.
Import Scoring Variables Simulation Strategies.
Local Open Scope R_scope.

Lemma powerRZ_2_gt_1 (k : Z) : (0 < k)%Z -> 1 < powerRZ 2 k.
Proof.
  intros Hk. destruct k as [| p | p]; try lia.
  cbn [powerRZ]. apply Rlt_pow_R1; [lra | apply Pos2Nat.is_pos].
Qed.

(** X1.  The score doubles with each fan; for [base_points >= 1] it is
    strictly increasing in the fan, and on the fans 0..16 it lies between
    [base_points] and [65536 * base_points]. *)
Theorem compute_score_doubles_and_grows :
  (forall fan base_points : Z,
     compute_score (fan + 1) base_points = 2 * compute_score fan base_points)
  /\ (forall fan fan' base_points : Z,
        (1 <= base_points)%Z -> (fan < fan')%Z ->
        compute_score fan base_points < compute_score fan' base_points)
  /\ (forall fan base_points : Z,
        (1 <= base_points)%Z -> (0 <= fan <= 16)%Z ->
        IZR base_points <= compute_score fan base_points <= 65536 * IZR base_points).
Proof.
  assert (Hmono : forall fan fan' b : Z, (1 <= b)%Z -> (fan < fan')%Z ->
            compute_score fan b < compute_score fan' b).
  { intros fan fan' b Hb Hlt. unfold compute_score.
    replace fan' with (fan + (fan' - fan))%Z by lia.
    rewrite powerRZ_add by lra.
    assert (Hb' : 0 < IZR b) by (apply IZR_lt; lia).
    pose proof (powerRZ_2_pos fan) as Hp.
    pose proof (powerRZ_2_gt_1 (fan' - fan) ltac:(lia)) as Hk.
    assert (0 < IZR b * powerRZ 2 fan) by (apply Rmult_lt_0_compat; assumption).
    nra. }
  split; [| split; [exact Hmono |]].
  - intros fan b. unfold compute_score. rewrite powerRZ_add by lra.
    change (powerRZ 2 1) with (2 * 1). lra.
  - intros fan b Hb [H0 H16].
    assert (E0 : compute_score 0 b = IZR b).
    { unfold compute_score. change (powerRZ 2 0) with 1. lra. }
    assert (E16 : compute_score 16 b = 65536 * IZR b).
    { rewrite compute_score_int by lia. rewrite mult_IZR.
      change (2 ^ 16)%Z with 65536%Z. lra. }
    split.
    + destruct (Z.eq_dec fan 0%Z) as [-> | Hne]; [lra |].
      rewrite <- E0. left. apply Hmono; lia.
    + destruct (Z.eq_dec fan 16%Z) as [-> | Hne]; [lra |].
      rewrite <- E16. left. apply Hmono; lia.
Qed.

Lemma compute_score_doubles_and_grows_witness :
  compute_score 1 1 < compute_score 3 1
  /\ compute_score 16 1 <= 65536 * 1.
Proof.
  destruct compute_score_doubles_and_grows as (_ & Hmono & Hrange).
  split.
  - apply Hmono; lia.
  - apply (Hrange 16%Z 1%Z); lia.
Defined.

(** X2.  The total fan never exceeds the cap nor the uncapped sum.  With a
    base fan out of [fan_values] and a Poisson draw that is not negative,
    the single-player hand has [base_fan + min(kongs, 2)] fans, between 0
    and 15: the cap 16 never binds there. *)
Theorem total_fan_bounds :
  (forall base_fan kong_count cap : Z,
     (compute_total_fan base_fan kong_count cap <= cap)%Z
     /\ (compute_total_fan base_fan kong_count cap <= base_fan + kong_count)%Z
     /\ ((base_fan + kong_count <= cap)%Z ->
         compute_total_fan base_fan kong_count cap = (base_fan + kong_count)%Z))
  /\ compute_total_fan 15 5 16 = 16%Z
  /\ compute_total_fan 10 3 16 = 13%Z
  /\ (forall base_fan poisson : Z,
        In base_fan fan_values -> (0 <= poisson)%Z ->
        compute_total_fan base_fan (sample_kong_events poisson 2) 16
        = (base_fan + Z.min poisson 2)%Z
        /\ (0 <= compute_total_fan base_fan (sample_kong_events poisson 2) 16 <= 15)%Z).
Proof.
  split; [| split; [reflexivity | split; [reflexivity |]]].
  - intros b k cap. unfold compute_total_fan. repeat split; lia.
  - intros b p Hb Hp. unfold compute_total_fan, sample_kong_events, fan_values in *.
    cbn in Hb.
    destruct Hb as [<- | [<- | [<- | [<- | [<- | [<- | []]]]]]]; lia.
Qed.

Lemma total_fan_bounds_witness :
  compute_total_fan 13 (sample_kong_events 7 2) 16 = 15%Z.
Proof.
  destruct total_fan_bounds as (_ & _ & _ & Hdraw).
  destruct (Hdraw 13%Z 7%Z) as [Heq _].
  - unfold fan_values. cbn. tauto.
  - lia.
  - rewrite Heq. reflexivity.
Defined.

(** X3.  On the same draws a defensive strategy whose minimum is at most the
    aggressive threshold does at least as well at declaring: if the
    aggressive player wins the round the defensive player has the very same
    outcome, and if the defensive player does not win neither does the
    aggressive one, with the same outcome again. *)
Theorem defensive_wins_whenever_aggressive_does :
  forall (cfg : Config) (d : RoundDraws) (fan_min threshold : Z),
    (fan_min <= threshold)%Z ->
    (won (simulate_round (fun f => aggressive_strategy f threshold) cfg d) = true ->
     simulate_round (fun f => defensive_strategy f fan_min) cfg d
     = simulate_round (fun f => aggressive_strategy f threshold) cfg d)
    /\ (won (simulate_round (fun f => defensive_strategy f fan_min) cfg d) = false ->
        simulate_round (fun f => aggressive_strategy f threshold) cfg d
        = simulate_round (fun f => defensive_strategy f fan_min) cfg d).
Proof.
  intros cfg d fm t Hle. unfold simulate_round.
  destruct (negb (can_complete_hand (rand_complete d) (hand_quality d)));
    [split; reflexivity |].
  set (tf := compute_total_fan (base_fan d) (sample_kong_events (kong_poisson d) 2) 16).
  unfold aggressive_strategy, defensive_strategy.
  destruct (Z.geb_spec tf t) as [Ht | Ht], (Z.geb_spec tf fm) as [Hf | Hf];
    cbn [negb]; try lia.
  - split; reflexivity.
  - split; [cbn; discriminate |].
    destruct (Rltb (rand_deal_in d) (deal_in_risk d)); cbn; discriminate.
  - split; reflexivity.
Qed.

Lemma defensive_wins_whenever_aggressive_does_witness :
  simulate_round (fun f => defensive_strategy f 1) Examples.cfg3
    Inputs.single_four_fan
  = simulate_round (fun f => aggressive_strategy f 3) Examples.cfg3
      Inputs.single_four_fan.
Proof.
  apply (proj1 (defensive_wins_whenever_aggressive_does Examples.cfg3
                  Inputs.single_four_fan 1 3 ltac:(lia))).
  unfold simulate_round, Inputs.single_four_fan, can_complete_hand. cbn.
  rtests. reflexivity.
Defined.

End ScoreAndFan.

(** ** The outcome of a single-player round *)

Section SingleRound.
Import Scoring Variables Simulation Strategies Experiment2.
Local Open Scope R_scope.

Abbreviation utility_of p m d :=
  (compute_utility p m d missed_penalty_default deal_in_penalty_default).

Lemma utility_of_plain (p : R) :
  utility_of p false false
  = if Rgtb p 0 then sqrt p else if Rltb p 0 then - sqrt (Rabs p) else 0.
Proof. reflexivity. Qed.

Lemma utility_of_nonpos (p : R) (m d : bool) : p <= 0 -> utility_of p m d <= 0.
Proof.
  intros Hp. destruct (Rle_lt_or_eq_dec p 0 Hp) as [Hlt | ->].
  - rewrite compute_utility_neg by exact Hlt.
    pose proof (sqrt_pos (- p)). destruct m, d; cbn [bool_to_R]; lra.
  - rewrite compute_utility_zero. destruct m, d; cbn [bool_to_R]; lra.
Qed.

(** X4.  With [base_points >= 1] and [penalty_deal_in >= 0], a single-player
    round that is won has a positive profit and the positive utility
    [sqrt(profit)]; a round that is not won has neither a positive profit
    nor a positive utility.  A deal-in loss happens only after a missed hand,
    a missed hand is never a win, and the profit is zero unless the round is
    a win or a deal-in loss. *)
Theorem simulate_round_signs :
  forall (player_strategy : Z -> bool) (cfg : Config) (d : RoundDraws),
    (1 <= base_points cfg)%Z -> 0 <= penalty_deal_in cfg ->
    let o := simulate_round player_strategy cfg d in
    (won o = true -> 0 < profit o /\ utility o = sqrt (profit o) /\ 0 < utility o)
    /\ (won o = false -> profit o <= 0 /\ utility o <= 0)
    /\ (deal_in_as_loser o = true -> missed_hu o = true)
    /\ (missed_hu o = true -> won o = false)
    /\ (profit o <> 0 -> won o = true \/ deal_in_as_loser o = true).
Proof.
  intros strat cfg d Hb Hpen. unfold simulate_round.
  destruct (negb (can_complete_hand (rand_complete d) (hand_quality d))).
  { cbn. repeat split; try discriminate; try lra; try contradiction. }
  set (tf := compute_total_fan (base_fan d) (sample_kong_events (kong_poisson d) 2) 16).
  destruct (negb (strat tf)).
  - set (os := compute_score _ (base_points cfg)).
    assert (Hos : 0 < os) by (apply compute_score_pos; exact Hb).
    destruct (Rltb (rand_deal_in d) (deal_in_risk d)); cbn.
    + assert (Hcost : compute_loser_cost os (penalty_deal_in cfg) true <= 0).
      { unfold compute_loser_cost.
        assert (0 <= os * penalty_deal_in cfg) by (apply Rmult_le_pos; lra). lra. }
      repeat split; try discriminate; auto.
      apply utility_of_nonpos. exact Hcost.
    + repeat split; try discriminate; try lra; try contradiction.
      apply utility_of_nonpos. lra.
  - assert (Hs : 0 < compute_score tf (base_points cfg))
      by (apply compute_score_pos; exact Hb).
    destruct (Rltb (rand_deal_in d) (deal_in_risk d)); cbn;
      unfold compute_winner_profit.
    + rewrite compute_utility_pos by exact Hs. cbn [bool_to_R].
      assert (0 < sqrt (compute_score tf (base_points cfg)))
        by (apply sqrt_lt_R0; exact Hs).
      repeat split; try discriminate; auto; lra.
    + assert (Hs3 : 0 < compute_score tf (base_points cfg) * 3) by lra.
      rewrite compute_utility_pos by exact Hs3. cbn [bool_to_R].
      assert (0 < sqrt (compute_score tf (base_points cfg) * 3))
        by (apply sqrt_lt_R0; exact Hs3).
      repeat split; try discriminate; auto; lra.
Qed.

Lemma simulate_round_signs_witness :
  0 < profit (simulate_round (fun f => defensive_strategy f 1) Examples.cfg3
                Examples.single_deal_in).
Proof.
  assert (Hb : (1 <= base_points Examples.cfg3)%Z) by (cbn; lia).
  assert (Hp : 0 <= penalty_deal_in Examples.cfg3) by (cbn; lra).
  destruct (simulate_round_signs (fun f => defensive_strategy f 1) Examples.cfg3
              Examples.single_deal_in Hb Hp) as (Hwon & _).
  apply Hwon.
  unfold simulate_round, Examples.single_deal_in, can_complete_hand. cbn.
  rtests. reflexivity.
Defined.

Lemma simulate_round_utility_eq
    (player_strategy : Z -> bool) (cfg : Config) (d : RoundDraws) :
  utility (simulate_round player_strategy cfg d)
  = utility_of (profit (simulate_round player_strategy cfg d))
      (missed_hu (simulate_round player_strategy cfg d))
      (deal_in_as_loser (simulate_round player_strategy cfg d)).
Proof.
  unfold simulate_round.
  destruct (negb (can_complete_hand (rand_complete d) (hand_quality d))).
  - cbn. rewrite compute_utility_zero. cbn. lra.
  - destruct (negb (player_strategy _)); [reflexivity |].
    destruct (Rltb (rand_deal_in d) (deal_in_risk d)); reflexivity.
Qed.

Lemma simulate_round_custom_identity
    (player_strategy : Z -> bool) (cfg : Config) (d : RoundDraws) :
  simulate_round_with_custom_utility player_strategy cfg
    (fun p m l => utility_of p m l) d
  = simulate_round player_strategy cfg d.
Proof.
  unfold simulate_round_with_custom_utility.
  rewrite <- simulate_round_utility_eq.
  destruct (simulate_round player_strategy cfg d). reflexivity.
Qed.

(** The flags of a single-player outcome exclude one another. *)
Lemma simulate_round_flags
    (player_strategy : Z -> bool) (cfg : Config) (d : RoundDraws) :
  (deal_in_as_winner (simulate_round player_strategy cfg d) = true ->
   won (simulate_round player_strategy cfg d) = true)
  /\ (deal_in_as_loser (simulate_round player_strategy cfg d) = true ->
      missed_hu (simulate_round player_strategy cfg d) = true)
  /\ (won (simulate_round player_strategy cfg d) = true ->
      missed_hu (simulate_round player_strategy cfg d) = false).
Proof.
  unfold simulate_round.
  destruct (negb (can_complete_hand (rand_complete d) (hand_quality d)));
    [cbn; repeat split; discriminate |].
  destruct (negb (player_strategy _)); [cbn; repeat split; auto; discriminate |].
  destruct (Rltb (rand_deal_in d) (deal_in_risk d)); cbn; repeat split;
    auto; discriminate.
Qed.

(** X5.  The utility of every outcome of [simulate_round] is
    [compute_utility] of its own profit and flags, also when no hand was
    completed; hence replacing the utility through
    [simulate_round_with_custom_utility] with [compute_utility] itself gives
    back the outcome of [simulate_round]. *)
Theorem custom_utility_round_trip :
  forall (player_strategy : Z -> bool) (cfg : Config) (d : RoundDraws),
    utility (simulate_round player_strategy cfg d)
    = utility_of (profit (simulate_round player_strategy cfg d))
        (missed_hu (simulate_round player_strategy cfg d))
        (deal_in_as_loser (simulate_round player_strategy cfg d))
    /\ simulate_round_with_custom_utility player_strategy cfg
         (fun p m l => utility_of p m l) d
       = simulate_round player_strategy cfg d.
Proof.
  intros strat cfg d. split.
  - apply simulate_round_utility_eq.
  - apply simulate_round_custom_identity.
Qed.

(** X6.  Without flags the utility is an odd function of the profit, and the
    two penalties lower it by at most 0.7.  It is at most the profit itself
    for profits from 1 on and at least the profit for losses of 1 or more;
    for a loss smaller than 1 it is below the profit, the square root being
    harsher than the loss there. *)
Theorem compute_utility_shape :
  (forall p,
     compute_utility (- p) false false missed_penalty_default deal_in_penalty_default
     = - compute_utility p false false missed_penalty_default deal_in_penalty_default)
  /\ (forall p m d,
        compute_utility p false false missed_penalty_default deal_in_penalty_default
        - 0.7
        <= compute_utility p m d missed_penalty_default deal_in_penalty_default
        <= compute_utility p false false missed_penalty_default deal_in_penalty_default)
  /\ (forall p, 1 <= p ->
        compute_utility p false false missed_penalty_default deal_in_penalty_default
        <= p)
  /\ (forall p, p <= -1 ->
        p <= compute_utility p false false missed_penalty_default
               deal_in_penalty_default)
  /\ (forall p, -1 < p < 0 ->
        compute_utility p false false missed_penalty_default deal_in_penalty_default
        < p).
Proof.
  assert (Hsq : forall x, 1 <= x -> sqrt x <= x).
  { intros x Hx. pose proof (sqrt_sqrt x ltac:(lra)) as Hss.
    assert (1 <= sqrt x).
    { rewrite <- sqrt_1. apply sqrt_le_1; lra. }
    nra. }
  assert (Hsq' : forall x, 0 < x < 1 -> x < sqrt x).
  { intros x Hx. pose proof (sqrt_sqrt x ltac:(lra)) as Hss.
    assert (0 < sqrt x) by (apply sqrt_lt_R0; lra).
    assert (sqrt x < 1).
    { rewrite <- sqrt_1. apply sqrt_lt_1; lra. }
    nra. }
  split; [| split; [| split; [| split]]].
  - intros p. destruct (Rtotal_order p 0) as [Hneg | [-> | Hpos]].
    + rewrite compute_utility_pos, compute_utility_neg by lra. cbn. lra.
    + rewrite Ropp_0, compute_utility_zero. cbn. lra.
    + rewrite compute_utility_neg, compute_utility_pos by lra.
      rewrite Ropp_involutive. cbn. lra.
  - intros p m d.
    unfold compute_utility, missed_penalty_default, deal_in_penalty_default.
    destruct m, d; lra.
  - intros p Hp. rewrite compute_utility_pos by lra. cbn.
    pose proof (Hsq p Hp). lra.
  - intros p Hp. rewrite compute_utility_neg by lra. cbn.
    pose proof (Hsq (- p) ltac:(lra)). lra.
  - intros p Hp. rewrite compute_utility_neg by lra. cbn.
    pose proof (Hsq' (- p) ltac:(lra)). lra.
Qed.

Lemma compute_utility_shape_witness :
  compute_utility 4 false false missed_penalty_default deal_in_penalty_default <= 4
  /\ -4 <= compute_utility (-4) false false missed_penalty_default
             deal_in_penalty_default
  /\ compute_utility (-0.25) false false missed_penalty_default
       deal_in_penalty_default < -0.25.
Proof.
  destruct compute_utility_shape as (_ & _ & Hup & Hdown & Hsmall).
  split; [apply Hup; lra |].
  split; [apply Hdown; lra | apply Hsmall; lra].
Defined.

(** X7.  With the default [crra_gamma = 2] the nonlinear utility of a
    positive profit is [-1/(1+p) + 0.1*sqrt(p)] less the penalties: it is
    negative for profits below 4, zero at 4 and positive above.  On profits
    that are not positive it agrees with [compute_utility], whatever
    [crra_gamma] is. *)
Theorem nonlinear_utility_default_gamma :
  (forall p m d, 0 < p ->
     compute_nonlinear_utility p m d crra_gamma_default
     = - / (1 + p) + 0.1 * sqrt p - 0.2 * bool_to_R m - 0.5 * bool_to_R d)
  /\ (forall p, 0 < p -> p < 4 ->
        compute_nonlinear_utility p false false crra_gamma_default < 0)
  /\ compute_nonlinear_utility 4 false false crra_gamma_default = 0
  /\ (forall p, 4 < p ->
        0 < compute_nonlinear_utility p false false crra_gamma_default)
  /\ (forall p m d gamma, p <= 0 ->
        compute_nonlinear_utility p m d gamma = utility_of p m d).
Proof.
  assert (Hform : forall p m d, 0 < p ->
     compute_nonlinear_utility p m d crra_gamma_default
     = - / (1 + p) + 0.1 * sqrt p - 0.2 * bool_to_R m - 0.5 * bool_to_R d).
  { intros p m d Hp. unfold compute_nonlinear_utility, crra_gamma_default.
    rtests. replace (1 - 2) with (- (1)) by lra.
    rewrite Rpower_Ropp, Rpower_1 by lra.
    destruct m, d; cbn [bool_to_R]; field; lra. }
  assert (Hsign : forall p, 0 < p ->
     (p < 4 -> 0.1 * sqrt p < / (1 + p))
     /\ (4 < p -> / (1 + p) < 0.1 * sqrt p)).
  { intros p Hp. pose proof (sqrt_sqrt p ltac:(lra)) as Hss.
    assert (Hs : 0 < sqrt p) by (apply sqrt_lt_R0; lra).
    assert (Hinv : / (1 + p) * (1 + p) = 1) by (apply Rinv_l; lra).
    assert (Hq : 0 < / (1 + p)) by (apply Rinv_0_lt_compat; lra).
    split; intros Hlt.
    - assert (sqrt p < 2).
      { destruct (Rlt_le_dec (sqrt p) 2) as [H | H]; [exact H | nra]. }
      apply (Rmult_lt_reg_r (1 + p)); [lra |]. rewrite Hinv. nra.
    - assert (2 < sqrt p).
      { destruct (Rlt_le_dec 2 (sqrt p)) as [H | H]; [exact H | nra]. }
      apply (Rmult_lt_reg_r (1 + p)); [lra |]. rewrite Hinv. nra. }
  split; [exact Hform |]. split; [| split; [| split]].
  - intros p Hp H4. rewrite Hform by exact Hp. cbn [bool_to_R].
    pose proof (proj1 (Hsign p Hp) H4). lra.
  - rewrite Hform by lra. cbn [bool_to_R].
    replace 4 with (2 * 2) at 2 by lra. rewrite sqrt_square by lra. lra.
  - intros p H4. rewrite Hform by lra. cbn [bool_to_R].
    pose proof (proj2 (Hsign p ltac:(lra)) H4). lra.
  - intros p m d gamma Hp. unfold compute_nonlinear_utility, compute_utility,
      missed_penalty_default, deal_in_penalty_default.
    rtests. destruct (Rle_lt_or_eq_dec p 0 Hp) as [Hlt | ->].
    + rtests. reflexivity.
    + rtests. rewrite Rabs_R0, sqrt_0. destruct m, d; lra.
Qed.

Lemma nonlinear_utility_default_gamma_witness :
  compute_nonlinear_utility 2 false false crra_gamma_default < 0
  /\ 0 < compute_nonlinear_utility 6 false false crra_gamma_default
  /\ compute_nonlinear_utility (-6) true true 3 = utility_of (-6) true true.
Proof.
  destruct nonlinear_utility_default_gamma as (_ & Hneg & _ & Hpos & Hloss).
  split; [apply Hneg; lra |].
  split; [apply Hpos; lra | apply Hloss; lra].
Defined.

End SingleRound.

(** ** Trials *)

Section TrialFacts.
Import Scoring Variables Simulation Strategies Trials Experiment2 Experiment3.
Local Open Scope R_scope.

Abbreviation utility_of p m d :=
  (compute_utility p m d missed_penalty_default deal_in_penalty_default).

Lemma rate_nonempty (flags : list bool) :
  flags <> [] ->
  rate flags = Some (np_sum (map bool_to_R flags) / INR (length flags)).
Proof.
  intros Hne. unfold rate, np_mean.
  destruct flags as [| b flags]; [congruence |].
  cbn [map length]. rewrite List.length_map. reflexivity.
Qed.

Lemma np_sum_flags_nonneg (flags : list bool) :
  0 <= np_sum (map bool_to_R flags).
Proof.
  induction flags as [| b flags IH]; cbn [map].
  - unfold np_sum. cbn. lra.
  - rewrite np_sum_cons. destruct b; cbn [bool_to_R]; lra.
Qed.

Lemma np_sum_flags_le {A : Type} (f g : A -> bool) (l : list A) :
  (forall x, In x l -> f x = true -> g x = true) ->
  np_sum (map bool_to_R (map f l)) <= np_sum (map bool_to_R (map g l)).
Proof.
  induction l as [| a l IH]; intros H; cbn [map].
  - lra.
  - rewrite !np_sum_cons.
    assert (bool_to_R (f a) <= bool_to_R (g a)) as Ha.
    { pose proof (H a (or_introl eq_refl)) as Hfa.
      destruct (f a); [rewrite Hfa by reflexivity; lra |].
      destruct (g a); cbn; lra. }
    pose proof (IH (fun x Hx => H x (or_intror Hx))). lra.
Qed.

Lemma np_sum_flags_exclusive {A : Type} (f g : A -> bool) (l : list A) :
  (forall x, In x l -> f x = true -> g x = false) ->
  np_sum (map bool_to_R (map f l)) + np_sum (map bool_to_R (map g l))
  <= INR (length l).
Proof.
  induction l as [| a l IH]; intros H.
  - cbn [map length]. unfold np_sum. cbn [fold_right].
    change (INR 0) with 0. lra.
  - cbn [map]. rewrite !np_sum_cons.
    change (length (a :: l)) with (S (length l)). rewrite S_INR.
    assert (bool_to_R (f a) + bool_to_R (g a) <= 1) as Ha.
    { pose proof (H a (or_introl eq_refl)) as Hfa.
      destruct (f a); [rewrite Hfa by reflexivity; cbn; lra |].
      destruct (g a); cbn; lra. }
    pose proof (IH (fun x Hx => H x (or_intror Hx))). lra.
Qed.

Lemma Forall_map_all {A B : Type} (P : B -> Prop) (f : A -> B) (l : list A) :
  (forall x, P (f x)) -> Forall P (map f l).
Proof.
  intros H. induction l as [| a l IH]; cbn [map]; constructor; auto.
Qed.

Lemma length_concat_uniform {A B : Type} (f : A -> list B) (l : list A) (m : nat) :
  (forall x, length (f x) = m) ->
  length (concat (map f l)) = (length l * m)%nat.
Proof.
  intros H. induction l as [| a l IH]; [reflexivity |].
  cbn [map concat length]. rewrite length_app, H, IH. lia.
Qed.

Lemma length_fan_distribution
    (strategy_fn : Z -> bool) (cfg : Config) (baseline_utility : R)
    (draws : nat -> RoundDraws) :
  length (st_fan_distribution (run_simulation strategy_fn cfg baseline_utility draws))
  = Z.to_nat (rounds_per_trial cfg).
Proof.
  unfold run_simulation. cbn [st_fan_distribution].
  rewrite !length_map, length_seq. reflexivity.
Qed.

(** X8.  A trial of at least one round reports four rates that are all
    defined, and ordered as the flags are: a deal-in win is a win and a
    deal-in loss is a missed hand, so [0 <= deal_in_rate <= win_rate] and
    [0 <= deal_in_loss_rate <= missed_win_rate]; a round is never both won and
    missed, so [win_rate + missed_win_rate <= 1].  The fan list has one entry
    for each round. *)
Theorem run_simulation_rates :
  forall (strategy_fn : Z -> bool) (cfg : Config) (baseline_utility : R)
         (draws : nat -> RoundDraws),
    (0 < rounds_per_trial cfg)%Z ->
    let s := run_simulation strategy_fn cfg baseline_utility draws in
    exists w di dl m : R,
      st_win_rate s = Some w
      /\ st_deal_in_rate s = Some di
      /\ st_deal_in_loss_rate s = Some dl
      /\ st_missed_win_rate s = Some m
      /\ 0 <= di <= w
      /\ 0 <= dl <= m
      /\ w + m <= 1
      /\ length (st_fan_distribution s) = Z.to_nat (rounds_per_trial cfg).
Proof.
  intros strategy_fn cfg baseline_utility draws Hrounds s.
  pose (results := map (fun k => simulate_round strategy_fn cfg (draws k))
                       (seq 0 (Z.to_nat (rounds_per_trial cfg)))).
  assert (length results = Z.to_nat (rounds_per_trial cfg)) as Hlen.
  { unfold results. rewrite length_map, length_seq. reflexivity. }
  assert (0 < INR (length results)) as Hpos.
  { rewrite Hlen. apply lt_0_INR. lia. }
  assert (forall f : RoundOutcome -> bool, map f results <> []) as Hne.
  { intros f Hnil. apply (f_equal (@length bool)) in Hnil.
    rewrite length_map, Hlen in Hnil. cbn in Hnil. lia. }
  assert (forall o, In o results ->
            (deal_in_as_winner o = true -> won o = true)
            /\ (deal_in_as_loser o = true -> missed_hu o = true)
            /\ (won o = true -> missed_hu o = false)) as Hflags.
  { intros o Ho. unfold results in Ho. apply in_map_iff in Ho.
    destruct Ho as [k [<- _]]. apply simulate_round_flags. }
  exists (np_sum (map bool_to_R (map won results)) / INR (length results)),
         (np_sum (map bool_to_R (map deal_in_as_winner results)) / INR (length results)),
         (np_sum (map bool_to_R (map deal_in_as_loser results)) / INR (length results)),
         (np_sum (map bool_to_R (map missed_hu results)) / INR (length results)).
  assert (forall f : RoundOutcome -> bool,
            rate (map f results)
            = Some (np_sum (map bool_to_R (map f results)) / INR (length results)))
    as Hrate.
  { intros f. rewrite (rate_nonempty _ (Hne f)), length_map. reflexivity. }
  split; [apply (Hrate won) |].
  split; [apply (Hrate deal_in_as_winner) |].
  split; [apply (Hrate deal_in_as_loser) |].
  split; [apply (Hrate missed_hu) |].
  pose proof (np_sum_flags_nonneg (map deal_in_as_winner results)) as H0w.
  pose proof (np_sum_flags_nonneg (map deal_in_as_loser results)) as H0l.
  pose proof (np_sum_flags_le deal_in_as_winner won results
                (fun o Ho => proj1 (Hflags o Ho))) as Hw.
  pose proof (np_sum_flags_le deal_in_as_loser missed_hu results
                (fun o Ho => proj1 (proj2 (Hflags o Ho)))) as Hl.
  pose proof (np_sum_flags_exclusive won missed_hu results
                (fun o Ho => proj2 (proj2 (Hflags o Ho)))) as Hx.
  assert (forall a b : R, a <= b ->
            a / INR (length results) <= b / INR (length results)) as Hdiv.
  { intros a b Hab. unfold Rdiv. apply Rmult_le_compat_r; [| exact Hab].
    left. apply Rinv_0_lt_compat. exact Hpos. }
  split; [split; [| apply Hdiv; exact Hw] |].
  { replace 0 with (0 / INR (length results)) by (unfold Rdiv; lra).
    apply Hdiv. exact H0w. }
  split; [split; [| apply Hdiv; exact Hl] |].
  { replace 0 with (0 / INR (length results)) by (unfold Rdiv; lra).
    apply Hdiv. exact H0l. }
  split.
  - rewrite <- Rdiv_plus_distr.
    replace 1 with (INR (length results) / INR (length results))
      by (field; lra).
    apply Hdiv. exact Hx.
  - apply length_fan_distribution.
Qed.

Lemma run_simulation_rates_witness :
  exists w di dl m : R,
    st_win_rate (run_simulation (fun f => defensive_strategy f 1)
                   Inputs.cfg_three_rounds 200 (fun _ => Inputs.single_four_fan))
    = Some w
    /\ st_deal_in_rate (run_simulation (fun f => defensive_strategy f 1)
                   Inputs.cfg_three_rounds 200 (fun _ => Inputs.single_four_fan))
       = Some di
    /\ st_deal_in_loss_rate (run_simulation (fun f => defensive_strategy f 1)
                   Inputs.cfg_three_rounds 200 (fun _ => Inputs.single_four_fan))
       = Some dl
    /\ st_missed_win_rate (run_simulation (fun f => defensive_strategy f 1)
                   Inputs.cfg_three_rounds 200 (fun _ => Inputs.single_four_fan))
       = Some m
    /\ 0 <= di <= w
    /\ 0 <= dl <= m
    /\ w + m <= 1
    /\ length (st_fan_distribution
                 (run_simulation (fun f => defensive_strategy f 1)
                    Inputs.cfg_three_rounds 200 (fun _ => Inputs.single_four_fan)))
       = Z.to_nat (rounds_per_trial Inputs.cfg_three_rounds).
Proof.
  apply (run_simulation_rates (fun f => defensive_strategy f 1)
           Inputs.cfg_three_rounds 200 (fun _ => Inputs.single_four_fan)).
  cbn. lia.
Defined.

(** X9.  A trial of no round (a configured number of rounds of zero or
    less) raises nothing: it reports profit 0, the baseline as utility, mean
    fan 0, an empty fan list, and the four rates undefined ([nan]). *)
Theorem run_simulation_without_rounds :
  forall (strategy_fn : Z -> bool) (cfg : Config) (baseline_utility : R)
         (draws : nat -> RoundDraws),
    (rounds_per_trial cfg <= 0)%Z ->
    run_simulation strategy_fn cfg baseline_utility draws
    = {| st_profit := 0; st_utility := baseline_utility;
         st_mean_fan := Some 0;
         st_win_rate := None; st_deal_in_rate := None;
         st_deal_in_loss_rate := None; st_missed_win_rate := None;
         st_fan_distribution := [] |}.
Proof.
  intros strategy_fn cfg baseline_utility draws Hrounds.
  unfold run_simulation.
  replace (Z.to_nat (rounds_per_trial cfg)) with 0%nat by lia.
  cbn [seq map positive_fans List.filter rate np_mean].
  f_equal. unfold np_sum. cbn [fold_right].
  rewrite Rmax_left by lra. lra.
Qed.

Lemma run_simulation_without_rounds_witness :
  run_simulation (fun f => defensive_strategy f 1)
    {| base_points := 1; fan_min := 1; t_fan_threshold := 3;
       penalty_deal_in := 3; rounds_per_trial := -2 |}
    200 (fun _ => Inputs.single_four_fan)
  = {| st_profit := 0; st_utility := 200; st_mean_fan := Some 0;
       st_win_rate := None; st_deal_in_rate := None;
       st_deal_in_loss_rate := None; st_missed_win_rate := None;
       st_fan_distribution := [] |}.
Proof.
  apply run_simulation_without_rounds. cbn. lia.
Defined.

(** X10.  [run_simulation] is [run_simulation_with_utility] run with
    [compute_utility], except for the utility: the first reports the larger
    of the baseline and what the second reports; every other statistic is
    the same. *)
Theorem run_simulation_floors_custom_run :
  forall (strategy_fn : Z -> bool) (cfg : Config) (baseline_utility : R)
         (draws : nat -> RoundDraws),
    let s := run_simulation strategy_fn cfg baseline_utility draws in
    let plain :=
      run_simulation_with_utility strategy_fn cfg
        (fun p m l => utility_of p m l) baseline_utility draws in
    st_utility s = Rmax baseline_utility (st_utility plain)
    /\ st_profit s = st_profit plain
    /\ st_mean_fan s = st_mean_fan plain
    /\ st_win_rate s = st_win_rate plain
    /\ st_deal_in_rate s = st_deal_in_rate plain
    /\ st_deal_in_loss_rate s = st_deal_in_loss_rate plain
    /\ st_missed_win_rate s = st_missed_win_rate plain
    /\ st_fan_distribution s = st_fan_distribution plain.
Proof.
  intros strategy_fn cfg baseline_utility draws s plain.
  subst s plain. unfold run_simulation, run_simulation_with_utility.
  rewrite (List.map_ext
             (fun k => simulate_round_with_custom_utility strategy_fn cfg
                         (fun p m l => utility_of p m l) (draws k))
             (fun k => simulate_round strategy_fn cfg (draws k))
             (fun k => simulate_round_custom_identity strategy_fn cfg (draws k))).
  cbn [st_utility st_profit st_mean_fan st_win_rate st_deal_in_rate
       st_deal_in_loss_rate st_missed_win_rate st_fan_distribution].
  split; [| repeat split; reflexivity].
  set (u := np_sum _).
  unfold Rmax.
  destruct (Rle_dec 0 u), (Rle_dec baseline_utility (baseline_utility + u)); lra.
Qed.

(** X11.  The composition round of experiment 3 is the plain round with the
    deal-in risk scaled by [1 - 0.3 * theta]: at [theta = 0] it is
    [simulate_round] itself, and at any [theta] the round is won, missed and
    scored with the same fan as the plain round; only who pays changes. *)
Theorem composition_round_scales_risk :
  forall (theta : R) (player_strategy : Z -> bool) (cfg : Config) (d : RoundDraws),
    simulate_round_with_composition theta player_strategy cfg d
    = simulate_round player_strategy cfg
        (Inputs.with_risk d (deal_in_risk d * (1 - theta * 0.3)))
    /\ simulate_round_with_composition 0 player_strategy cfg d
       = simulate_round player_strategy cfg d
    /\ won (simulate_round_with_composition theta player_strategy cfg d)
       = won (simulate_round player_strategy cfg d)
    /\ missed_hu (simulate_round_with_composition theta player_strategy cfg d)
       = missed_hu (simulate_round player_strategy cfg d)
    /\ fan (simulate_round_with_composition theta player_strategy cfg d)
       = fan (simulate_round player_strategy cfg d).
Proof.
  intros theta strat cfg d.
  split; [reflexivity |].
  split.
  - unfold simulate_round_with_composition, simulate_round.
    replace (deal_in_risk d * (1 - 0 * 0.3)) with (deal_in_risk d) by lra.
    reflexivity.
  - unfold simulate_round_with_composition, simulate_round.
    destruct (negb (can_complete_hand (rand_complete d) (hand_quality d)));
      [repeat split |].
    destruct (negb (strat _)); [repeat split |].
    destruct (Rltb (rand_deal_in d) (deal_in_risk d * (1 - theta * 0.3))),
             (Rltb (rand_deal_in d) (deal_in_risk d)); repeat split.
Qed.

(** X12.  With a non-negative risk, a larger [theta] never adds a deal-in:
    a round that ends by deal-in (as winner or as loser) at [theta'] does so
    at every smaller [theta]. *)
Theorem composition_round_deal_in_monotone :
  forall (theta theta' : R) (player_strategy : Z -> bool) (cfg : Config)
         (d : RoundDraws),
    0 <= deal_in_risk d ->
    theta <= theta' ->
    (deal_in_as_winner (simulate_round_with_composition theta' player_strategy cfg d)
     = true ->
     deal_in_as_winner (simulate_round_with_composition theta player_strategy cfg d)
     = true)
    /\ (deal_in_as_loser (simulate_round_with_composition theta' player_strategy cfg d)
        = true ->
        deal_in_as_loser (simulate_round_with_composition theta player_strategy cfg d)
        = true).
Proof.
  intros theta theta' strat cfg d Hrisk Hle.
  assert (Rltb (rand_deal_in d) (deal_in_risk d * (1 - theta' * 0.3)) = true ->
          Rltb (rand_deal_in d) (deal_in_risk d * (1 - theta * 0.3)) = true) as Hmono.
  { intros H. apply Rltb_spec in H. apply Rltb_true. nra. }
  unfold simulate_round_with_composition.
  destruct (negb (can_complete_hand (rand_complete d) (hand_quality d)));
    [split; intros H; exact H |].
  destruct (negb (strat _)).
  - cbn. split; [intros H; exact H | exact Hmono].
  - destruct (Rltb (rand_deal_in d) (deal_in_risk d * (1 - theta' * 0.3))) eqn:E'.
    + rewrite (Hmono eq_refl). cbn. split; intros H; exact H.
    + cbn. split; discriminate.
Qed.

Lemma composition_round_deal_in_monotone_witness :
  deal_in_as_winner
    (simulate_round_with_composition 0 (fun f => defensive_strategy f 1)
       Examples.cfg3 Examples.single_deal_in) = true.
Proof.
  apply (proj1 (composition_round_deal_in_monotone 0 1
                  (fun f => defensive_strategy f 1) Examples.cfg3
                  Examples.single_deal_in
                  ltac:(cbn; lra) ltac:(lra))).
  unfold simulate_round_with_composition, Examples.single_deal_in,
    can_complete_hand. cbn. rtests. reflexivity.
Defined.

(** X13.  [run_multiple_trials] returns arrays with one entry for each
    trial, a fan array with one entry for each round of each trial, and
    utilities that are all at least the default baseline 200; a negative
    number of trials gives empty arrays. *)
Theorem run_multiple_trials_shape :
  forall (strategy_fn : Z -> bool) (cfg : Config) (cfg_trials num_trials : option Z)
         (draws : nat -> nat -> RoundDraws),
    let r := run_multiple_trials strategy_fn cfg cfg_trials num_trials draws in
    let n := Z.to_nat (mt_num_trials r) in
    length (mt_profits r) = n
    /\ length (mt_utilities r) = n
    /\ length (mt_mean_fans r) = n
    /\ length (mt_win_rates r) = n
    /\ length (mt_deal_in_rates r) = n
    /\ length (mt_deal_in_loss_rates r) = n
    /\ length (mt_missed_win_rates r) = n
    /\ length (mt_fan_distribution r)
       = (n * Z.to_nat (rounds_per_trial cfg))%nat
    /\ Forall (fun u => 200 <= u) (mt_utilities r)
    /\ mt_num_trials r
       = match num_trials, cfg_trials with
         | Some k, _ => k
         | None, Some t => t
         | None, None => 2000%Z
         end.
Proof.
  intros strategy_fn cfg cfg_trials num_trials draws r n.
  subst n r. unfold run_multiple_trials.
  cbn [mt_profits mt_utilities mt_mean_fans mt_win_rates mt_deal_in_rates
       mt_deal_in_loss_rates mt_missed_win_rates mt_fan_distribution
       mt_num_trials].
  rewrite !length_map, !length_seq.
  repeat (split; [reflexivity |]).
  split; [| split].
  - rewrite map_map.
    rewrite (length_concat_uniform _ _ (Z.to_nat (rounds_per_trial cfg))).
    + rewrite length_seq. reflexivity.
    + intros t. apply length_fan_distribution.
  - rewrite map_map. apply Forall_map_all. intros t.
    apply (run_simulation_utility_floor strategy_fn cfg
             baseline_utility_default (draws t)).
  - unfold resolve_num_trials. destruct num_trials, cfg_trials; reflexivity.
Qed.

End TrialFacts.

(** ** Table rounds *)

Section TableRoundFacts.
Context {G : PRNG}.
Import Scoring Variables Players Simulation Table.
Local Open Scope R_scope.

(** Every eligible winner is a seat that completed a hand and accepted it;
    no seat records a fan above 16. *)
Lemma collect_seats_eligible (players : list Player) :
  forall i nd dealer d h pds ews h',
    collect_seats players i nd dealer d h = Ok (pds, ews, h') ->
    (forall ew, In ew ews ->
       exists k pd, pds !! k = Some pd /\ ew_player_idx ew = (i + k)%nat
         /\ pd_strategy_accepts pd = true /\ pd_can_win pd = true
         /\ pd_fan pd = ew_fan ew)
    /\ (forall k pd, pds !! k = Some pd -> (pd_fan pd <= 16)%Z).
Proof.
  induction players as [| player rest IH]; intros i nd dealer d h pds ews h' H.
  - cbn in H. injection H as <- <- <-.
    split; [intros ew [] | intros k pd Hk; discriminate].
  - cbn [collect_seats] in H.
    destruct (negb (can_complete_hand (sd_rand_complete (d i)) (sd_hand_quality (d i)))).
    + apply bind_Ok in H as ([[pds0 ews0] h0] & Hrec & Hret).
      injection Hret as <- <- <-.
      destruct (IH _ _ _ _ _ _ _ _ Hrec) as (Hew & Hfan).
      split.
      * intros ew Hin. destruct (Hew ew Hin) as (k & pd & H1 & H2 & H3).
        exists (S k), pd. split; [exact H1 |]. split; [lia | exact H3].
      * intros [| k] pd Hk.
        -- injection Hk as <-. cbn. lia.
        -- exact (Hfan k pd Hk).
    + apply bind_Ok in H as ([acc h1] & Hcall & H).
      apply bind_Ok in H as ([[pds0 ews0] h0] & Hrec & Hret).
      injection Hret as <- <- <-.
      destruct (IH _ _ _ _ _ _ _ _ Hrec) as (Hew & Hfan).
      split.
      * assert (Hold : forall ew, In ew ews0 ->
                  exists k pd, (k < S (length pds0))%nat
                    /\ (forall pd0 : PlayerData, (pd0 :: pds0) !! k = Some pd)
                    /\ ew_player_idx ew = (i + k)%nat
                    /\ pd_strategy_accepts pd = true /\ pd_can_win pd = true
                    /\ pd_fan pd = ew_fan ew).
        { intros ew Hin. destruct (Hew ew Hin) as (k & pd & H1 & H2 & H3).
          exists (S k), pd. split; [apply lookup_lt_Some in H1; lia |].
          split; [intros pd0; exact H1 |]. split; [lia | exact H3]. }
        intros ew Hin.
        assert (Hcase : (acc = true /\ ew = {| ew_player_idx := i;
                            ew_fan := compute_total_fan
                              (adjust_fan_growth_for_composition (sd_base_fan (d i))
                                 (Z.of_nat nd))
                              (sample_kong_events (sd_kong_poisson (d i)) 2) 16;
                            ew_player := player;
                            ew_is_dealer := Nat.eqb i dealer |})
                        \/ In ew ews0).
        { destruct acc; [destruct Hin as [<- | Hin]; auto | auto]. }
        destruct Hcase as [[-> ->] | Hin0].
        -- eexists 0%nat, _. split; [reflexivity |]. cbn.
           rewrite Nat.add_0_r. auto.
        -- destruct (Hold ew Hin0) as (k & pd & _ & H1 & H2). exists k, pd.
           split; [apply H1 | exact H2].
      * intros [| k] pd Hk.
        -- injection Hk as <-. cbn [pd_fan]. unfold compute_total_fan. lia.
        -- exact (Hfan k pd Hk).
Qed.

(** A strategy call changes no object but the one it is called on, and
    neither creates nor deletes one. *)
Lemma call_strategy_frame (s : Strategy) (fan : Z) (risk : R) (h : Heap)
    (b : bool) (h' : Heap) :
  call_strategy s fan risk h = Ok (b, h') ->
  (forall l, s <> PolicyRef l -> h' !! l = h !! l)
  /\ (forall l, is_Some (h' !! l) <-> is_Some (h !! l)).
Proof.
  destruct s as [f | a]; cbn [call_strategy].
  - intros H. injection H as _ <-. split; [reflexivity | tauto].
  - destruct (h !! a) as [self |] eqn:Ha; [| discriminate].
    destruct (should_hu self fan risk) as [b0 self'].
    intros H. injection H as _ <-. split.
    + intros l Hl. apply lookup_insert_ne. congruence.
    + intros l. destruct (Nat.eq_dec a l) as [<- | Hne].
      * rewrite lookup_insert_eq, Ha. split; eauto.
      * rewrite lookup_insert_ne by exact Hne. tauto.
Qed.

Lemma collect_seats_frame (players : list Player) :
  forall i nd dealer d h pds ews h',
    collect_seats players i nd dealer d h = Ok (pds, ews, h') ->
    (forall l, (forall p, In p players -> strategy p <> PolicyRef l) ->
       h' !! l = h !! l)
    /\ (forall l, is_Some (h' !! l) <-> is_Some (h !! l)).
Proof.
  induction players as [| player rest IH]; intros i nd dealer d h pds ews h' H.
  - cbn in H. injection H as <- <- <-. split; [reflexivity | tauto].
  - cbn [collect_seats] in H.
    destruct (negb (can_complete_hand (sd_rand_complete (d i)) (sd_hand_quality (d i)))).
    + apply bind_Ok in H as ([[pds0 ews0] h0] & Hrec & Hret).
      injection Hret as <- <- <-.
      destruct (IH _ _ _ _ _ _ _ _ Hrec) as (Hframe & Hdom).
      split; [| exact Hdom].
      intros l Hl. apply Hframe. intros p Hp. apply Hl. right. exact Hp.
    + apply bind_Ok in H as ([acc h1] & Hcall & H).
      apply bind_Ok in H as ([[pds0 ews0] h0] & Hrec & Hret).
      injection Hret as <- <- <-.
      destruct (IH _ _ _ _ _ _ _ _ Hrec) as (Hframe & Hdom).
      destruct (call_strategy_frame _ _ _ _ _ _ Hcall) as (Hframe1 & Hdom1).
      split.
      * intros l Hl. rewrite Hframe by (intros p Hp; apply Hl; right; exact Hp).
        apply Hframe1. apply Hl. left. reflexivity.
      * intros l. rewrite Hdom. apply Hdom1.
Qed.

(** The two ways a table round returns, with all the round reports. *)
Lemma table_round_inv
    (players : list Player) (cfg : Config) (dealer : nat)
    (d : TableDraws) (h : Heap)
    (results : list RoundOutcome) (meta : RoundMeta) (h' : Heap) :
  simulate_table_round players cfg dealer d h = Ok (results, meta, h') ->
  exists pds ews,
    collect_seats players 0 (count_def players) dealer (seat_draws d) h
      = Ok (pds, ews, h')
    /\ length pds = length players
    /\ ((ews = []
         /\ results = map draw_outcome pds
         /\ exists ready,
              meta = {| winner_index := None; winner_is_dealer := false;
                        dealer_ready := ready; dealer_continues := ready;
                        is_draw := true |}
              /\ ((length players <= dealer)%nat -> ready = false))
        \/ (exists winner wd dd ls,
              In winner ews
              /\ (ew_player_idx winner < length players)%nat
              /\ (dealer < length players)%nat
              /\ pds !! ew_player_idx winner = Some wd
              /\ pd_strategy_accepts wd = true
              /\ pd_can_win wd = true
              /\ (ew_fan winner <= 16)%Z
              /\ settle (length players) pds cfg (ew_player_idx winner)
                   (ew_fan winner)
                   (compute_score (ew_fan winner) (base_points cfg))
                   (Rltb (rand_deal d) (pd_R wd)) (rand_loser d) = Ok ls
              /\ results = map (outcome_at ls) (seq 0 (length players))
              /\ meta = {| winner_index := Some (ew_player_idx winner);
                           winner_is_dealer := Nat.eqb (ew_player_idx winner) dealer;
                           dealer_ready := Rgeb (pd_Q dd) DEALER_READY_THRESHOLD;
                           dealer_continues := Nat.eqb (ew_player_idx winner) dealer;
                           is_draw := false |})).
Proof.
  unfold simulate_table_round. intros H.
  apply bind_Ok in H as ([[pds ews] h0] & Hcollect & H).
  exists pds, ews.
  destruct (collect_seats_spec _ _ _ _ _ _ _ _ _ Hcollect) as (Hlen & _ & _).
  destruct (collect_seats_eligible _ _ _ _ _ _ _ _ _ Hcollect) as (Hew & Hfan).
  destruct ews as [| e ews'].
  - injection H as <- <- <-. split; [exact Hcollect |]. split; [exact Hlen |].
    left. split; [reflexivity |]. split; [reflexivity |].
    eexists. split; [reflexivity |].
    intros Hout. rewrite lookup_ge_None_2 by lia. reflexivity.
  - apply bind_Ok in H as (winner & Hsel & H).
    apply bind_Ok in H as (wd & Hwd & H).
    apply bind_Ok in H as (ls & Hls & H).
    apply bind_Ok in H as (dd & Hdd & H).
    injection H as <- <- <-. split; [exact Hcollect |]. split; [exact Hlen |].
    right. exists winner, wd, dd, ls.
    apply select_winner_In in Hsel. apply lookup_or_raise_Ok in Hwd.
    apply lookup_or_raise_Ok in Hdd.
    destruct (Hew winner Hsel) as (k & pd & Hk & Hidx & Hacc & Hcan & Hpf).
    cbn in Hidx. rewrite <- Hidx in Hk. rewrite Hwd in Hk. injection Hk as <-.
    split; [exact Hsel |].
    split; [apply lookup_lt_Some in Hwd; lia |].
    split; [apply lookup_lt_Some in Hdd; lia |].
    split; [exact Hwd |]. split; [exact Hacc |]. split; [exact Hcan |].
    split; [rewrite <- Hpf; exact (Hfan _ _ Hwd) |].
    split; [exact Hls |]. split; reflexivity.
Qed.

Lemma missed_at (ls : RoundLists) (pds : list PlayerData) (i : nat) (pd : PlayerData) :
  round_missed ls = map missed_of pds ->
  pds !! i = Some pd ->
  missed_hu (outcome_at ls i) = missed_of pd.
Proof.
  intros Hm Hi. unfold outcome_at. cbn [missed_hu].
  rewrite Hm, nth_lookup, lookup_map, Hi. reflexivity.
Qed.

End TableRoundFacts.

Section TableRounds.
Import Scoring Variables Players Simulation Table.
Local Open Scope R_scope.

Abbreviation utility_of p m d :=
  (compute_utility p m d missed_penalty_default deal_in_penalty_default).

(** X14.  A table round that returns reports one outcome for each seat.
    Either it is a draw: no winner index, no seat has won, every profit and
    fan is 0 and no deal-in flag is set; or it has a winner index [w] below
    the number of seats, the dealer index is a seat too, and the seat [w]
    and no other has [won].  [winner_is_dealer] says whether [w] is the
    dealer seat.  Called with a dealer index that is no seat, the round
    returns only as a draw after which the dealer does not continue. *)
Theorem table_round_shape {G : PRNG}
    (players : list Player) (cfg : Config) (dealer : nat) (d : TableDraws)
    (h : Heap) (results : list RoundOutcome) (meta : RoundMeta) (h' : Heap) :
  simulate_table_round players cfg dealer d h = Ok (results, meta, h') ->
  length results = length players
  /\ (is_draw meta = true <-> winner_index meta = None)
  /\ winner_is_dealer meta
     = match winner_index meta with
       | Some w => Nat.eqb w dealer
       | None => false
       end
  /\ (winner_index meta = None ->
      forall i o, results !! i = Some o ->
        profit o = 0 /\ won o = false /\ fan o = 0%Z
        /\ deal_in_as_winner o = false /\ deal_in_as_loser o = false)
  /\ (forall w, winner_index meta = Some w ->
      (w < length players)%nat /\ (dealer < length players)%nat
      /\ forall i o, results !! i = Some o -> (won o = true <-> i = w))
  /\ ((length players <= dealer)%nat ->
      winner_index meta = None /\ dealer_continues meta = false).
Proof.
  intros Hrun.
  destruct (table_round_inv _ _ _ _ _ _ _ _ Hrun)
    as (pds & ews & Hcollect & Hlen & [Hdraw | Hwon]).
  - destruct Hdraw as (_ & -> & ready & -> & Hready). cbn.
    split; [rewrite length_map; exact Hlen |].
    split; [tauto |]. split; [reflexivity |].
    split; [| split; [intros w Hw; discriminate |]].
    + intros _ i o Hi. rewrite lookup_map in Hi.
      destruct (pds !! i); [| discriminate]. injection Hi as <-.
      cbn. auto.
    + intros Hout. split; [reflexivity | exact (Hready Hout)].
  - destruct Hwon as (winner & wd & dd & ls & _ & Hw & Hd & _ & _ & _ & _
                      & Hsettle & -> & ->). cbn.
    split; [rewrite length_map, length_seq; reflexivity |].
    split; [split; discriminate |]. split; [reflexivity |].
    split; [discriminate |].
    split; [| intros Hout; lia].
    intros w Hidx. injection Hidx as <-.
    split; [exact Hw |]. split; [exact Hd |].
    intros i o Hi. apply lookup_outcomes in Hi as [Hin ->].
    destruct (settle_outcomes _ _ _ _ _ _ _ _ Hw Hsettle) as (l & _ & Hall).
    destruct (Hall i Hin) as (-> & _). apply Nat.eqb_eq.
Qed.

Lemma table_round_shape_witness :
  length (map (outcome_at Examples.deal_in_lists) (seq 0 4))
  = length Examples.four_def.
Proof.
  exact (proj1 (table_round_shape (G := Examples.toy_rng)
                  Examples.four_def Examples.cfg3 0 Examples.deal_in_round ∅
                  _ _ _ deal_in_round_runs)).
Defined.

(** X15.  Who pays in a won table round.  With [score] the score of the
    winner's fan: by self-draw the winner receives [score] from each other
    seat, [score * (n - 1)] in all, and no seat is marked as having dealt
    in; on a discard exactly one seat other than the winner is marked
    [deal_in_as_loser], it pays [score * penalty_deal_in], and every other
    seat pays nothing. *)
Theorem table_round_payments {G : PRNG}
    (players : list Player) (cfg : Config) (dealer : nat) (d : TableDraws)
    (h : Heap) (results : list RoundOutcome) (meta : RoundMeta) (h' : Heap)
    (w : nat) :
  simulate_table_round players cfg dealer d h = Ok (results, meta, h') ->
  winner_index meta = Some w ->
  exists ow,
    results !! w = Some ow
    /\ deal_in_as_loser ow = false
    /\ (deal_in_as_winner ow = false ->
        profit ow
        = compute_score (fan ow) (base_points cfg) * (INR (length players) - 1)
        /\ forall i o, results !! i = Some o -> i <> w ->
             profit o = - compute_score (fan ow) (base_points cfg)
             /\ deal_in_as_loser o = false)
    /\ (deal_in_as_winner ow = true ->
        exists l ol,
          l <> w /\ results !! l = Some ol
          /\ deal_in_as_loser ol = true
          /\ profit ol
             = - (compute_score (fan ow) (base_points cfg) * penalty_deal_in cfg)
          /\ forall i o, results !! i = Some o -> i <> w -> i <> l ->
               profit o = 0 /\ deal_in_as_loser o = false).
Proof.
  intros Hrun Hidx.
  destruct (table_round_inv _ _ _ _ _ _ _ _ Hrun)
    as (pds & ews & Hcollect & Hlen & [Hdraw | Hwon]).
  - destruct Hdraw as (_ & _ & ready & -> & _). discriminate.
  - destruct Hwon as (winner & wd & dd & ls & _ & Hw & Hd & _ & _ & _ & _
                      & Hsettle & -> & ->).
    cbn in Hidx. injection Hidx as <-.
    destruct (settle_outcomes _ _ _ _ _ _ _ _ Hw Hsettle) as (l & Hl & Hall).
    assert (Hat : forall i, (i < length players)%nat ->
              map (outcome_at ls) (seq 0 (length players)) !! i
              = Some (outcome_at ls i)).
    { intros i Hi. rewrite lookup_map, lookup_seq_lt by exact Hi. reflexivity. }
    exists (outcome_at ls (ew_player_idx winner)).
    split; [apply Hat; exact Hw |].
    destruct (Hall _ Hw) as (_ & Hfw & Hdiw & Hdil & Hpw).
    rewrite Nat.eqb_refl in Hfw, Hdiw, Hpw. rewrite andb_true_r in Hdiw.
    rewrite Hfw, Hdiw, Hpw.
    destruct (Rltb (rand_deal d) (pd_R wd)).
    + destruct (Hl eq_refl) as [Hln Hlw].
      split.
      { rewrite Hdil. cbn [andb].
        destruct (Nat.eqb_spec (ew_player_idx winner) l); [congruence | reflexivity]. }
      split; [discriminate |].
      intros _. exists l, (outcome_at ls l).
      split; [exact Hlw |]. split; [apply Hat; exact Hln |].
      destruct (Hall _ Hln) as (_ & _ & _ & Hdl & Hpl).
      rewrite Nat.eqb_refl in Hdl, Hpl.
      destruct (Nat.eqb_spec l (ew_player_idx winner)) as [Heq | _];
        [contradiction |].
      split; [exact Hdl |]. split; [exact Hpl |].
      intros i o Hi Hiw Hil. apply lookup_outcomes in Hi as [Hin ->].
      destruct (Hall _ Hin) as (_ & _ & _ & Hdi & Hpi).
      destruct (Nat.eqb_spec i (ew_player_idx winner)); [contradiction |].
      destruct (Nat.eqb_spec i l); [contradiction |].
      split; [exact Hpi | exact Hdi].
    + split; [rewrite Hdil; reflexivity |].
      split; [| discriminate].
      intros _. split; [reflexivity |].
      intros i o Hi Hiw. apply lookup_outcomes in Hi as [Hin ->].
      destruct (Hall _ Hin) as (_ & _ & _ & Hdi & Hpi).
      destruct (Nat.eqb_spec i (ew_player_idx winner)); [contradiction |].
      split; [exact Hpi | exact Hdi].
Qed.

Lemma table_round_payments_witness :
  exists ow,
    map (outcome_at Examples.self_draw_lists) (seq 0 4) !! 0%nat = Some ow
    /\ deal_in_as_loser ow = false
    /\ (deal_in_as_winner ow = false ->
        profit ow
        = compute_score (fan ow) (base_points Examples.cfg3)
          * (INR (length Examples.four_def) - 1)
        /\ forall i o,
             map (outcome_at Examples.self_draw_lists) (seq 0 4) !! i = Some o ->
             i <> 0%nat ->
             profit o = - compute_score (fan ow) (base_points Examples.cfg3)
             /\ deal_in_as_loser o = false)
    /\ (deal_in_as_winner ow = true ->
        exists l ol,
          l <> 0%nat
          /\ map (outcome_at Examples.self_draw_lists) (seq 0 4) !! l = Some ol
          /\ deal_in_as_loser ol = true
          /\ profit ol
             = - (compute_score (fan ow) (base_points Examples.cfg3)
                  * penalty_deal_in Examples.cfg3)
          /\ forall i o,
               map (outcome_at Examples.self_draw_lists) (seq 0 4) !! i = Some o ->
               i <> 0%nat -> i <> l ->
               profit o = 0 /\ deal_in_as_loser o = false).
Proof.
  exact (table_round_payments (G := Examples.toy_rng)
           Examples.four_def Examples.cfg3 0 Examples.self_draw_round ∅
           _ _ _ 0%nat self_draw_round_runs eq_refl).
Defined.

(** X16.  Every outcome of a table round carries the utility that
    [compute_utility] gives its own profit and flags, a fan of at most 16,
    and flags that fit: the seat that won neither missed a hand nor dealt
    in. *)
Theorem table_outcome_consistent {G : PRNG}
    (players : list Player) (cfg : Config) (dealer : nat) (d : TableDraws)
    (h : Heap) (results : list RoundOutcome) (meta : RoundMeta) (h' : Heap)
    (i : nat) (o : RoundOutcome) :
  simulate_table_round players cfg dealer d h = Ok (results, meta, h') ->
  results !! i = Some o ->
  utility o = utility_of (profit o) (missed_hu o) (deal_in_as_loser o)
  /\ (fan o <= 16)%Z
  /\ (won o = true -> missed_hu o = false /\ deal_in_as_loser o = false)
  /\ (deal_in_as_loser o = true ->
      exists w ow, winner_index meta = Some w /\ w <> i
        /\ results !! w = Some ow /\ deal_in_as_winner ow = true).
Proof.
  intros Hrun Hi.
  destruct (table_round_inv _ _ _ _ _ _ _ _ Hrun)
    as (pds & ews & Hcollect & Hlen & [Hdraw | Hwon]).
  - destruct Hdraw as (_ & -> & _).
    rewrite lookup_map in Hi.
    destruct (pds !! i); [| discriminate]. injection Hi as <-.
    cbn. split; [reflexivity |]. split; [lia |].
    split; discriminate.
  - destruct Hwon as (winner & wd & dd & ls & _ & Hw & Hd & Hwd & Hacc & Hcan & Hf16
                      & Hsettle & -> & ->).
    apply lookup_outcomes in Hi as [Hin ->].
    destruct (settle_outcomes _ _ _ _ _ _ _ _ Hw Hsettle) as (l & Hl & Hall).
    destruct (settle_spec _ _ _ _ _ _ _ _ _ Hw Hsettle) as (_ & _ & Hmissed & _).
    destruct (Hall i Hin) as (Hwon & Hfan & _ & Hdil & _).
    split; [reflexivity |].
    split; [rewrite Hfan; destruct (Nat.eqb i (ew_player_idx winner)); lia |].
    split.
    + rewrite Hwon. intros Hiw. apply Nat.eqb_eq in Hiw. subst i.
      split.
      * rewrite (missed_at _ _ _ _ Hmissed Hwd). unfold missed_of.
        rewrite Hacc, Hcan. reflexivity.
      * rewrite Hdil.
        destruct (Rltb (rand_deal d) (pd_R wd)); [| reflexivity].
        destruct (Hl eq_refl) as [_ Hlw]. cbn [andb].
        destruct (Nat.eqb_spec (ew_player_idx winner) l); [congruence | reflexivity].
    + rewrite Hdil. intros Hd1. apply andb_prop in Hd1 as [Hdeal Hil].
      apply Nat.eqb_eq in Hil. subst l.
      destruct (Hl Hdeal) as [_ Hiw].
      exists (ew_player_idx winner), (outcome_at ls (ew_player_idx winner)).
      split; [reflexivity |]. split; [congruence |].
      split; [rewrite lookup_map, lookup_seq_lt by exact Hw; reflexivity |].
      destruct (Hall _ Hw) as (_ & _ & -> & _).
      rewrite Hdeal, Nat.eqb_refl. reflexivity.
Qed.

Lemma table_outcome_consistent_witness :
  utility (outcome_at Examples.deal_in_lists 1)
  = utility_of (profit (outcome_at Examples.deal_in_lists 1))
      (missed_hu (outcome_at Examples.deal_in_lists 1))
      (deal_in_as_loser (outcome_at Examples.deal_in_lists 1)).
Proof.
  exact (proj1 (table_outcome_consistent (G := Examples.toy_rng)
                  Examples.four_def Examples.cfg3 0 Examples.deal_in_round ∅
                  _ _ _ 1%nat (outcome_at Examples.deal_in_lists 1)
                  deal_in_round_runs eq_refl)).
Defined.

(** X17.  With non-negative base points and deal-in penalty, a table round
    pays the winner and nobody else: the seat that won has a profit of at
    least 0, every other seat a profit and a utility of at most 0. *)
Theorem table_profit_signs {G : PRNG}
    (players : list Player) (cfg : Config) (dealer : nat) (d : TableDraws)
    (h : Heap) (results : list RoundOutcome) (meta : RoundMeta) (h' : Heap)
    (i : nat) (o : RoundOutcome) :
  (0 <= base_points cfg)%Z ->
  0 <= penalty_deal_in cfg ->
  simulate_table_round players cfg dealer d h = Ok (results, meta, h') ->
  results !! i = Some o ->
  (won o = true -> 0 <= profit o)
  /\ (won o = false -> profit o <= 0 /\ utility o <= 0).
Proof.
  intros Hbase Hpen Hrun Hi.
  destruct (table_round_inv _ _ _ _ _ _ _ _ Hrun)
    as (pds & ews & Hcollect & Hlen & [Hdraw | Hwon]).
  - destruct Hdraw as (_ & -> & _).
    rewrite lookup_map in Hi.
    destruct (pds !! i); [| discriminate]. injection Hi as <-.
    cbn. split; [discriminate |]. intros _. split; [lra |].
    apply utility_of_nonpos. lra.
  - destruct Hwon as (winner & wd & dd & ls & _ & Hw & Hd & Hwd & Hacc & Hcan & Hf16
                      & Hsettle & -> & ->).
    apply lookup_outcomes in Hi as [Hin ->].
    destruct (settle_outcomes _ _ _ _ _ _ _ _ Hw Hsettle) as (l & Hl & Hall).
    destruct (Hall i Hin) as (Hwon & _ & _ & _ & Hprofit).
    assert (0 <= compute_score (ew_fan winner) (base_points cfg)) as Hscore.
    { unfold compute_score. apply Rmult_le_pos; [apply IZR_le; lia |].
      left. apply powerRZ_2_pos. }
    assert (1 <= INR (length players)) as Hn.
    { change 1 with (INR 1). apply le_INR. lia. }
    assert (Hsign : (won (outcome_at ls i) = true -> 0 <= profit (outcome_at ls i))
                    /\ (won (outcome_at ls i) = false -> profit (outcome_at ls i) <= 0)).
    { rewrite Hwon, Hprofit.
      destruct (Rltb (rand_deal d) (pd_R wd)), (Nat.eqb i (ew_player_idx winner)),
               (Nat.eqb i l);
        split; intros Hx; try discriminate; nra. }
    split; [apply Hsign |].
    intros Hnot. split; [apply Hsign; exact Hnot |].
    unfold outcome_at at 1. cbn [utility].
    apply utility_of_nonpos. apply (proj2 Hsign Hnot).
Qed.

Lemma table_profit_signs_witness :
  0 <= profit (outcome_at Examples.deal_in_lists 0).
Proof.
  apply (proj1 (table_profit_signs (G := Examples.toy_rng)
                  Examples.four_def Examples.cfg3 0 Examples.deal_in_round ∅
                  _ _ _ 0%nat (outcome_at Examples.deal_in_lists 0)
                  ltac:(cbn; lia) ltac:(cbn; lra)
                  deal_in_round_runs eq_refl)).
  reflexivity.
Defined.

End TableRounds.

(** ** Table sessions *)

Section SessionFacts.
Context {G : PRNG}.
Import Scoring Variables Players Simulation Table Invariants.
Local Open Scope R_scope.

Lemma np_sum_app (l1 l2 : list R) : np_sum (l1 ++ l2) = np_sum l1 + np_sum l2.
Proof.
  induction l1 as [| a l1 IH].
  - cbn [app]. unfold np_sum at 2. cbn [fold_right]. lra.
  - change ((a :: l1) ++ l2) with (a :: (l1 ++ l2)).
    rewrite !np_sum_cons, IH. lra.
Qed.

Lemma np_sum_map_zero {A : Type} (f : A -> R) (l : list A) :
  (forall x, f x = 0) -> np_sum (map f l) = 0.
Proof.
  intros H. induction l as [| a l IH]; [reflexivity |].
  cbn [map]. rewrite np_sum_cons, H, IH. lra.
Qed.

(** The profits of any round that returns add up to zero. *)
Lemma round_profits_sum
    (players : list Player) (cfg : Config) (dealer : nat) (d : TableDraws)
    (h : Heap) (results : list RoundOutcome) (meta : RoundMeta) (h' : Heap) :
  simulate_table_round players cfg dealer d h = Ok (results, meta, h') ->
  length results = length players /\ np_sum (map profit results) = 0.
Proof.
  intros Hrun.
  destruct (table_round_inv _ _ _ _ _ _ _ _ Hrun)
    as (pds & ews & Hcollect & Hlen & [Hdraw | Hwon]).
  - destruct Hdraw as (_ & -> & _).
    split; [rewrite length_map; exact Hlen |].
    rewrite map_map. apply np_sum_map_zero. reflexivity.
  - destruct Hwon as (winner & wd & dd & ls & _ & Hw & _ & _ & _ & _ & _
                      & Hsettle & -> & _).
    split; [rewrite length_map, length_seq; reflexivity |].
    destruct (settle_zero_sum _ _ _ _ _ _ _ _ _ Hw Hsettle) as [Hl Hsum].
    rewrite (map_profit_outcomes _ _ Hl). exact Hsum.
Qed.

Lemma simulate_table_round_frame
    (players : list Player) (cfg : Config) (dealer : nat) (d : TableDraws)
    (h : Heap) (results : list RoundOutcome) (meta : RoundMeta) (h' : Heap) :
  simulate_table_round players cfg dealer d h = Ok (results, meta, h') ->
  (forall l, (forall p, In p players -> strategy p <> PolicyRef l) ->
     h' !! l = h !! l)
  /\ (forall l, is_Some (h' !! l) <-> is_Some (h !! l)).
Proof.
  intros Hrun.
  destruct (table_round_inv _ _ _ _ _ _ _ _ Hrun) as (pds & ews & Hcollect & _).
  exact (collect_seats_frame _ _ _ _ _ _ _ _ _ Hcollect).
Qed.

Lemma table_step_spec
    (players : list Player) (cfg : Config) (st : TableState) (d : TableDraws)
    (st' : TableState) :
  table_step players cfg st d = Ok st' ->
  exists results meta h',
    simulate_table_round players cfg (ts_dealer_index st) d (ts_heap st)
      = Ok (results, meta, h')
    /\ next_dealer (ts_dealer_index st) (length players) meta
       = Ok (ts_dealer_index st')
    /\ ts_heap st' = h'
    /\ ts_all st' = zip_with (fun l r => l ++ [r]) (ts_all st) results
    /\ ts_dealer_rounds st'
       = ts_dealer_rounds st
         ++ omap (fun '(i, r) => if Nat.eqb i (ts_dealer_index st) then Some r else None)
              (imap pair results)
    /\ ts_non_dealer_rounds st'
       = ts_non_dealer_rounds st
         ++ omap (fun '(i, r) => if Nat.eqb i (ts_dealer_index st) then None else Some r)
              (imap pair results).
Proof.
  unfold table_step. intros H.
  apply bind_Ok in H as ([[results meta] h'] & Hrun & H).
  apply bind_Ok in H as (dealer' & Hnext & H).
  injection H as <-. cbn. exists results, meta, h'. auto 10.
Qed.

Lemma table_rounds_invariant (I : nat -> TableState -> Prop)
    (players : list Player) (cfg : Config) (draws : nat -> TableDraws) :
  (forall c st d st',
     I c st -> table_step players cfg st d = Ok st' -> I (S c) st') ->
  forall rounds k st st' c,
    I c st ->
    table_rounds players cfg draws rounds k st = Ok st' ->
    I (c + rounds)%nat st'.
Proof.
  intros Hstep. induction rounds as [| rounds IH]; intros k st st' c HI Hrun.
  - cbn in Hrun. injection Hrun as <-. rewrite Nat.add_0_r. exact HI.
  - cbn [table_rounds] in Hrun. apply bind_Ok in Hrun as (st1 & Hs & Hrest).
    replace (c + S rounds)%nat with (S c + rounds)%nat by lia.
    eapply IH; [| exact Hrest]. eapply Hstep; eauto.
Qed.

(** After a step the dealer index is a seat again; a step of an empty
    table raises. *)
Lemma table_step_dealer
    (players : list Player) (cfg : Config) (st : TableState) (d : TableDraws)
    (st' : TableState) :
  (ts_dealer_index st < length players \/ length players = 0)%nat ->
  table_step players cfg st d = Ok st' ->
  (ts_dealer_index st < length players)%nat
  /\ (ts_dealer_index st' < length players)%nat.
Proof.
  intros Hd Hstep.
  destruct (table_step_spec _ _ _ _ _ Hstep)
    as (results & meta & h' & Hrun & Hnext & _).
  destruct (table_round_inv _ _ _ _ _ _ _ _ Hrun)
    as (pds & ews & _ & _ & Hcase).
  unfold next_dealer in Hnext.
  destruct (Nat.eqb_spec (length players) 0) as [Hzero | Hpos].
  - exfalso. destruct Hcase as [(_ & _ & ready & -> & Hready) | Hwon].
    + cbn in Hnext. rewrite Hready in Hnext by lia. discriminate.
    + destruct Hwon as (winner & wd & dd & ls & _ & Hw & _). lia.
  - assert (ts_dealer_index st < length players)%nat as Hlt by lia.
    split; [exact Hlt |].
    destruct (negb (dealer_continues meta)); injection Hnext as <-.
    + apply Nat.mod_upper_bound. exact Hpos.
    + exact Hlt.
Qed.

Lemma bucket_lengths {A : Type} (dealer : nat) (l : list A) :
  forall k,
    ((k <= dealer < k + length l)%nat ->
     length (omap (fun '(i, r) => if Nat.eqb i dealer then Some r else None)
               (imap (fun i x => ((k + i)%nat, x)) l)) = 1%nat)
    /\ ((dealer < k)%nat ->
        length (omap (fun '(i, r) => if Nat.eqb i dealer then Some r else None)
                  (imap (fun i x => ((k + i)%nat, x)) l)) = 0%nat)
    /\ (length (omap (fun '(i, r) => if Nat.eqb i dealer then Some r else None)
                 (imap (fun i x => ((k + i)%nat, x)) l))
        + length (omap (fun '(i, r) => if Nat.eqb i dealer then None else Some r)
                    (imap (fun i x => ((k + i)%nat, x)) l))
        = length l)%nat.
Proof.
  induction l as [| a l IH]; intros k.
  - cbn [imap omap list_omap length]. split; [lia |]. split; reflexivity.
  - assert (Hshift : imap (fun i x => ((k + i)%nat, x)) (a :: l)
                     = ((k + 0)%nat, a) :: imap (fun i x => ((S k + i)%nat, x)) l).
    { cbn [imap]. f_equal. apply imap_ext. intros i x _. cbn. f_equal. lia. }
    rewrite Hshift. destruct (IH (S k)) as (IH1 & IH0 & IH2).
    cbn [omap list_omap]. rewrite Nat.add_0_r.
    destruct (Nat.eqb_spec k dealer) as [-> | Hne]; cbn [length].
    + split; [intros _; rewrite IH0 by lia; reflexivity |].
      split; [lia |]. lia.
    + split; [intros Hr; apply IH1; lia |].
      split; [intros Hr; apply IH0; lia |]. lia.
Qed.

Lemma dealer_bucket {A : Type} (dealer : nat) (l : list A) :
  (dealer < length l)%nat ->
  length (omap (fun '(i, r) => if Nat.eqb i dealer then Some r else None)
            (imap pair l)) = 1%nat
  /\ length (omap (fun '(i, r) => if Nat.eqb i dealer then None else Some r)
               (imap pair l)) = (length l - 1)%nat.
Proof.
  intros Hlt.
  change (imap pair l) with (imap (fun i (x : A) => ((0 + i)%nat, x)) l).
  destruct (bucket_lengths dealer l 0) as (H1 & _ & H2).
  rewrite H1 in H2 by lia. rewrite H1 by lia. lia.
Qed.

Lemma length_zip_append {A : Type} (all : list (list A)) (results : list A) (c : nat) :
  length all = length results ->
  Forall (fun l => length l = c) all ->
  length (zip_with (fun l r => l ++ [r]) all results) = length all
  /\ Forall (fun l => length l = S c) (zip_with (fun l r => l ++ [r]) all results).
Proof.
  revert results. induction all as [| l all IH]; intros [| r results] Hlen Hall;
    cbn in Hlen; try discriminate.
  - split; [reflexivity | constructor].
  - apply Forall_cons_1 in Hall as [Hl Hall].
    destruct (IH results ltac:(lia) Hall) as [H1 H2].
    cbn [zip_with length]. split; [lia |].
    constructor; [| exact H2]. rewrite length_app. cbn. lia.
Qed.

Lemma np_sum_zip_append (all : list (list RoundOutcome)) (results : list RoundOutcome) :
  length all = length results ->
  np_sum (map (fun l => np_sum (map profit l))
            (zip_with (fun l r => l ++ [r]) all results))
  = np_sum (map (fun l => np_sum (map profit l)) all) + np_sum (map profit results).
Proof.
  revert results. induction all as [| l all IH]; intros [| r results] Hlen;
    cbn in Hlen; try discriminate.
  - cbn. unfold np_sum. cbn. lra.
  - cbn [zip_with map]. rewrite !np_sum_cons, (IH results) by lia.
    rewrite map_app, np_sum_app. cbn [map]. rewrite (np_sum_cons (profit r) []).
    change (np_sum []) with 0. lra.
Qed.

Lemma session_invariant_initial (players : list Player) (h : Heap) :
  session_invariant players 0 (initial_state (length players) h).
Proof.
  unfold session_invariant, initial_state.
  cbn [ts_all ts_dealer_rounds ts_non_dealer_rounds ts_dealer_index].
  split; [apply length_replicate |].
  split; [apply Forall_replicate; reflexivity |].
  split; [reflexivity |]. split; [cbn [length]; lia |].
  split; [destruct players; cbn [length]; [right; auto | left; lia] |].
  generalize (length players). intros n. induction n as [| n IH]; [reflexivity |].
  change (replicate (S n) (@nil RoundOutcome)) with ([] :: replicate n (@nil RoundOutcome)).
  cbn [map]. rewrite np_sum_cons, IH. change (np_sum []) with 0. lra.
Qed.

Lemma session_invariant_step
    (players : list Player) (cfg : Config) (c : nat) (st : TableState)
    (d : TableDraws) (st' : TableState) :
  session_invariant players c st ->
  table_step players cfg st d = Ok st' ->
  session_invariant players (S c) st'.
Proof.
  intros (Hall & Hlens & Hdealer & Hnon & Hidx & Hsum) Hstep.
  destruct (table_step_dealer players cfg st d st') as [Hlt Hlt'];
    [destruct Hidx as [? | [? _]]; auto | exact Hstep |].
  destruct (table_step_spec _ _ _ _ _ Hstep)
    as (results & meta & h' & Hrun & _ & _ & Hall' & Hd' & Hn').
  destruct (round_profits_sum _ _ _ _ _ _ _ _ Hrun) as [Hres Hzero].
  assert (Hsame : length (ts_all st) = length results) by lia.
  destruct (length_zip_append _ _ c Hsame Hlens) as [Hl1 Hl2].
  destruct (dealer_bucket (ts_dealer_index st) results) as [Hb1 Hb2]; [lia |].
  unfold session_invariant. rewrite Hall', Hd', Hn'.
  split; [lia |]. split; [exact Hl2 |].
  split; [rewrite length_app, Hb1; lia |].
  split; [rewrite length_app, Hb2; nia |].
  split; [left; exact Hlt' |].
  rewrite (np_sum_zip_append _ _ Hsame). lra.
Qed.

Lemma run_table_inv
    (players : list Player) (cfg : Config) (rounds_per_trial : Z)
    (baseline_utility : R) (draws : nat -> TableDraws) (h : Heap)
    (res : TableResult) :
  _run_table players cfg rounds_per_trial baseline_utility draws h = Ok res ->
  exists st,
    table_rounds players cfg draws (Z.to_nat rounds_per_trial) 0
      (initial_state (length players) h) = Ok st
    /\ session_invariant players (Z.to_nat rounds_per_trial) st
    /\ res = {| per_player :=
                  zip_with (fun player outcomes =>
                              (strategy_type player,
                               seat_stats baseline_utility outcomes))
                           players (ts_all st);
                defensive :=
                  label_stats "DEF"
                    (zip_with (fun player outcomes =>
                                 (strategy_type player,
                                  seat_stats baseline_utility outcomes))
                              players (ts_all st));
                aggressive :=
                  label_stats "AGG"
                    (zip_with (fun player outcomes =>
                                 (strategy_type player,
                                  seat_stats baseline_utility outcomes))
                              players (ts_all st));
                dealer := ts_dealer_rounds st;
                non_dealer := ts_non_dealer_rounds st;
                final_dealer_index := ts_dealer_index st;
                final_heap := ts_heap st |}.
Proof.
  unfold _run_table. intros H.
  apply bind_Ok in H as (st & Hrounds & H). injection H as <-.
  exists st. split; [exact Hrounds |]. split; [| reflexivity].
  apply (table_rounds_invariant (session_invariant players) players cfg draws
           (session_invariant_step players cfg)
           _ _ _ _ 0%nat (session_invariant_initial players h) Hrounds).
Qed.

Lemma per_player_seats (baseline_utility : R) (players : list Player) :
  forall all : list (list RoundOutcome),
    length all = length players ->
    map fst (zip_with (fun player outcomes =>
                         (strategy_type player, seat_stats baseline_utility outcomes))
               players all)
    = map strategy_type players
    /\ map snd (zip_with (fun player outcomes =>
                            (strategy_type player, seat_stats baseline_utility outcomes))
                  players all)
       = map (seat_stats baseline_utility) all.
Proof.
  induction players as [| p players IH]; intros [| o all] Hlen;
    cbn in Hlen; try discriminate.
  - split; reflexivity.
  - destruct (IH all ltac:(lia)) as [H1 H2].
    cbn [zip_with map fst snd]. rewrite H1, H2. split; reflexivity.
Qed.

Lemma length_label_stats (label : string) (per : list (string * Stats)) :
  length (label_stats label per)
  = length (List.filter (fun s => String.eqb s label) (map fst per)).
Proof.
  unfold label_stats. rewrite length_map.
  induction per as [| [s x] per IH]; [reflexivity |].
  cbn [List.filter map fst]. destruct (String.eqb s label); cbn [length]; lia.
Qed.

Lemma filter_map_length {A B : Type} (f : A -> B) (g : B -> bool) (l : list A) :
  length (List.filter g (map f l)) = length (List.filter (fun x => g (f x)) l).
Proof.
  induction l as [| a l IH]; [reflexivity |].
  cbn [map List.filter]. destruct (g (f a)); cbn [length]; lia.
Qed.

(** A session leaves alone every object no seat refers to, and creates or
    deletes none. *)
Lemma table_rounds_frame
    (players : list Player) (cfg : Config) (draws : nat -> TableDraws) :
  forall rounds k st st',
    table_rounds players cfg draws rounds k st = Ok st' ->
    (forall l, (forall p, In p players -> strategy p <> PolicyRef l) ->
       ts_heap st' !! l = ts_heap st !! l)
    /\ (forall l, is_Some (ts_heap st' !! l) <-> is_Some (ts_heap st !! l)).
Proof.
  induction rounds as [| rounds IH]; intros k st st' Hrun.
  - cbn in Hrun. injection Hrun as <-. split; [reflexivity | tauto].
  - cbn [table_rounds] in Hrun. apply bind_Ok in Hrun as (st1 & Hs & Hrest).
    destruct (IH _ _ _ Hrest) as [Hf Hd].
    destruct (table_step_spec _ _ _ _ _ Hs)
      as (results & meta & h' & Hround & _ & Hheap & _).
    destruct (simulate_table_round_frame _ _ _ _ _ _ _ _ Hround) as [Hf1 Hd1].
    subst h'. split.
    + intros l Hl. rewrite (Hf l Hl). apply Hf1. exact Hl.
    + intros l. rewrite Hd. apply Hd1.
Qed.

(** In normal operation every round of a four-seat session returns. *)
Lemma table_rounds_total
    (players : list Player) (cfg : Config) (draws : nat -> TableDraws) :
  length players = 4%nat ->
  (forall k, draws_in_range 4 (draws k)) ->
  forall rounds k st,
    (ts_dealer_index st < 4)%nat ->
    live_strategies (ts_heap st) players ->
    exists st', table_rounds players cfg draws rounds k st = Ok st'.
Proof.
  intros Hlen Hdraws. induction rounds as [| rounds IH]; intros k st Hd Hlive.
  - exists st. reflexivity.
  - destruct (simulate_table_round_total players cfg (ts_dealer_index st) (draws k)
                (ts_heap st) Hlen Hd Hlive (Hdraws k))
      as (results & meta & h' & Hround).
    assert (Hnext : exists dealer',
              next_dealer (ts_dealer_index st) (length players) meta = Ok dealer'
              /\ (dealer' < 4)%nat).
    { unfold next_dealer. rewrite Hlen. cbn [Nat.eqb].
      destruct (negb (dealer_continues meta)).
      - eexists. split; [reflexivity |]. apply Nat.mod_upper_bound. lia.
      - eexists. split; [reflexivity | exact Hd]. }
    destruct Hnext as (dealer' & Hnext & Hd').
    cbn [table_rounds]. unfold table_step.
    rewrite Hround. cbn [bind]. rewrite Hnext. cbn [bind].
    apply IH; cbn [ts_dealer_index ts_heap]; [exact Hd' |].
    destruct (simulate_table_round_frame _ _ _ _ _ _ _ _ Hround) as [_ Hdom].
    intros p l Hp Hs. apply Hdom. exact (Hlive p l Hp Hs).
Qed.

End SessionFacts.

Section SessionProperties.
Import Scoring Variables Players Simulation Table Invariants TableSessions.
Local Open Scope R_scope.

Lemma map_length_uniform {A : Type} (all : list (list A)) (c : nat) :
  Forall (fun l => length l = c) all ->
  map (@length A) all = replicate (length all) c.
Proof.
  intros H. induction H as [| l all Hl _ IH]; [reflexivity |].
  cbn [map length]. rewrite Hl, IH. reflexivity.
Qed.

Lemma run_table_returns {G : PRNG}
    (players : list Player) (cfg : Config) (rounds_per_trial : Z)
    (baseline_utility : R) (draws : nat -> TableDraws) (h : Heap) :
  length players = 4%nat ->
  live_strategies h players ->
  (forall k, draws_in_range 4 (draws k)) ->
  exists res,
    _run_table players cfg rounds_per_trial baseline_utility draws h = Ok res.
Proof.
  intros Hlen Hlive Hdraws. unfold _run_table.
  destruct (table_rounds_total players cfg draws Hlen Hdraws
              (Z.to_nat rounds_per_trial) 0 (initial_state (length players) h))
    as [st Hst]; [cbn; lia | exact Hlive |].
  rewrite Hst. cbn [bind]. eexists. reflexivity.
Qed.

Lemma filter_replicate {A : Type} (f : A -> bool) (n : nat) (x : A) :
  length (List.filter f (replicate n x)) = if f x then n else 0%nat.
Proof.
  induction n as [| n IH]; [destruct (f x); reflexivity |].
  cbn [replicate List.filter]. destruct (f x) eqn:E; cbn [length]; lia.
Qed.

(** X18.  The profits a table session reports for its seats add up to
    zero: what one seat wins over the session the others have lost. *)
Theorem run_table_zero_sum {G : PRNG}
    (players : list Player) (cfg : Config) (rounds_per_trial : Z)
    (baseline_utility : R) (draws : nat -> TableDraws) (h : Heap)
    (res : TableResult) :
  _run_table players cfg rounds_per_trial baseline_utility draws h = Ok res ->
  np_sum (map (fun ps => st_profit (snd ps)) (per_player res)) = 0.
Proof.
  intros Hrun.
  destruct (run_table_inv _ _ _ _ _ _ _ Hrun) as (st & _ & Hinv & ->).
  destruct Hinv as (Hall & _ & _ & _ & _ & Hsum).
  cbn [per_player].
  destruct (per_player_seats baseline_utility players (ts_all st) Hall) as [_ Hsnd].
  rewrite <- (map_map snd st_profit), Hsnd, map_map. exact Hsum.
Qed.

Lemma run_table_zero_sum_witness :
  exists res,
    _run_table (G := Examples.toy_rng) Examples.four_def Examples.cfg3 3 200
      (fun _ => Examples.deal_in_round) ∅ = Ok res
    /\ np_sum (map (fun ps => st_profit (snd ps)) (per_player res)) = 0.
Proof.
  destruct (run_table_returns (G := Examples.toy_rng) Examples.four_def
              Examples.cfg3 3 200 (fun _ => Examples.deal_in_round) ∅ eq_refl
              (proj2 deal_in_round_in_range)
              (fun _ => proj1 deal_in_round_in_range)) as [res Hres].
  exists res. split; [exact Hres |].
  exact (run_table_zero_sum _ _ _ _ _ _ _ Hres).
Defined.

(** X19.  The books of a table session that returns.  There is one entry
    for each seat, in seat order and with the seat's label; each seat has
    one fan for each round; each round adds one outcome to the dealer
    bucket and one for each other seat to the non-dealer bucket; the
    groups [defensive] and [aggressive] have one entry for each seat
    labelled [DEF] and [AGG]; and the dealer index ends on a seat. *)
Theorem run_table_bookkeeping {G : PRNG}
    (players : list Player) (cfg : Config) (rounds_per_trial : Z)
    (baseline_utility : R) (draws : nat -> TableDraws) (h : Heap)
    (res : TableResult) :
  _run_table players cfg rounds_per_trial baseline_utility draws h = Ok res ->
  map fst (per_player res) = map strategy_type players
  /\ map (fun ps => length (st_fan_distribution (snd ps))) (per_player res)
     = replicate (length players) (Z.to_nat rounds_per_trial)
  /\ length (dealer res) = Z.to_nat rounds_per_trial
  /\ length (non_dealer res)
     = ((length players - 1) * Z.to_nat rounds_per_trial)%nat
  /\ length (defensive res) = count_def players
  /\ length (aggressive res)
     = length (List.filter (fun p => String.eqb (strategy_type p) "AGG") players)
  /\ (players <> [] -> (final_dealer_index res < length players)%nat).
Proof.
  intros Hrun.
  destruct (run_table_inv _ _ _ _ _ _ _ Hrun) as (st & _ & Hinv & ->).
  destruct Hinv as (Hall & Hlens & Hdealer & Hnon & Hidx & _).
  cbn [per_player dealer non_dealer defensive aggressive final_dealer_index].
  destruct (per_player_seats baseline_utility players (ts_all st) Hall) as [Hfst Hsnd].
  split; [exact Hfst |].
  split.
  { rewrite <- (map_map snd (fun s => length (st_fan_distribution s))), Hsnd, map_map.
    rewrite (List.map_ext _ (@length RoundOutcome)).
    - rewrite (map_length_uniform _ _ Hlens), Hall. reflexivity.
    - intros l. cbn [seat_stats st_fan_distribution]. apply length_map. }
  split; [exact Hdealer |]. split; [exact Hnon |].
  split; [rewrite length_label_stats, Hfst, filter_map_length; reflexivity |].
  split; [rewrite length_label_stats, Hfst, filter_map_length; reflexivity |].
  intros Hne. destruct Hidx as [Hlt | [Hzero _]]; [exact Hlt |].
  destruct players; [contradiction | discriminate].
Qed.

Lemma run_table_bookkeeping_witness :
  exists res,
    _run_table (G := Examples.toy_rng) Examples.four_def Examples.cfg3 3 200
      (fun _ => Examples.deal_in_round) ∅ = Ok res
    /\ length (dealer res) = 3%nat
    /\ length (non_dealer res) = 9%nat.
Proof.
  destruct (run_table_returns (G := Examples.toy_rng) Examples.four_def
              Examples.cfg3 3 200 (fun _ => Examples.deal_in_round) ∅ eq_refl
              (proj2 deal_in_round_in_range)
              (fun _ => proj1 deal_in_round_in_range)) as [res Hres].
  exists res. split; [exact Hres |].
  destruct (run_table_bookkeeping _ _ _ _ _ _ _ Hres)
    as (_ & _ & Hd & Hn & _).
  split; [exact Hd | exact Hn].
Defined.

(** X20.  A table round, and a whole table session, changes no policy
    object but those the seats refer to, and neither creates nor deletes
    an object. *)
Theorem table_heap_frame :
  (forall (G : PRNG) (players : list Player) (cfg : Config) (dealer : nat)
          (d : TableDraws) (h : Heap) (results : list RoundOutcome)
          (meta : RoundMeta) (h' : Heap),
     simulate_table_round players cfg dealer d h = Ok (results, meta, h') ->
     (forall l, (forall p, In p players -> strategy p <> PolicyRef l) ->
        h' !! l = h !! l)
     /\ (forall l, is_Some (h' !! l) <-> is_Some (h !! l)))
  /\ (forall (G : PRNG) (players : list Player) (cfg : Config)
             (rounds_per_trial : Z) (baseline_utility : R)
             (draws : nat -> TableDraws) (h : Heap) (res : TableResult),
     _run_table players cfg rounds_per_trial baseline_utility draws h = Ok res ->
     (forall l, (forall p, In p players -> strategy p <> PolicyRef l) ->
        final_heap res !! l = h !! l)
     /\ (forall l, is_Some (final_heap res !! l) <-> is_Some (h !! l))).
Proof.
  split.
  - intros G players cfg dealer d h results meta h' Hrun.
    exact (simulate_table_round_frame _ _ _ _ _ _ _ _ Hrun).
  - intros G players cfg rounds b draws h res Hrun.
    destruct (run_table_inv _ _ _ _ _ _ _ Hrun) as (st & Hrounds & _ & ->).
    cbn [final_heap].
    exact (table_rounds_frame _ _ _ _ _ _ _ Hrounds).
Qed.

Lemma table_heap_frame_witness :
  (<[0%nat := NeutralPolicy_init (G := Examples.toy_rng) (Some 42%Z) 0]>
     Examples.neutral_heap) !! 1%nat
  = Examples.neutral_heap !! 1%nat.
Proof.
  apply (proj1 (proj1 table_heap_frame Examples.toy_rng Examples.neutral_table
                  Examples.cfg3 0%nat Examples.zero_fan_round Examples.neutral_heap
                  _ _ _ zero_fan_round_runs) 1%nat).
  intros p Hp. unfold Examples.neutral_table in Hp. cbn in Hp.
  destruct Hp as [<- | [<- | [<- | [<- | []]]]]; discriminate.
Defined.

(** X21.  In normal operation a four-seat session returns, whatever the
    number of rounds: with live policy references and draws in the ranges
    of their samplers, every deal-in risk positive, no round raises. *)
Theorem run_table_total {G : PRNG}
    (players : list Player) (cfg : Config) (rounds_per_trial : Z)
    (baseline_utility : R) (draws : nat -> TableDraws) (h : Heap) :
  length players = 4%nat ->
  live_strategies h players ->
  (forall k, draws_in_range 4 (draws k)) ->
  exists res,
    _run_table players cfg rounds_per_trial baseline_utility draws h = Ok res
    /\ (final_dealer_index res < 4)%nat
    /\ length (per_player res) = 4%nat.
Proof.
  intros Hlen Hlive Hdraws.
  destruct (run_table_returns players cfg rounds_per_trial baseline_utility draws h
              Hlen Hlive Hdraws) as [res Hres].
  exists res. split; [exact Hres |].
  destruct (run_table_inv _ _ _ _ _ _ _ Hres) as (st & _ & Hinv & ->).
  destruct Hinv as (Hall & _ & _ & _ & Hidx & _).
  cbn [final_dealer_index per_player]. split.
  - destruct Hidx as [Hlt | [Hzero _]]; lia.
  - rewrite length_zip_with_l_eq by lia. exact Hlen.
Qed.

Lemma run_table_total_witness :
  exists res,
    _run_table (G := Examples.toy_rng) Examples.four_def Examples.cfg3 5 200
      (fun _ => Examples.deal_in_round) ∅ = Ok res
    /\ (final_dealer_index res < 4)%nat
    /\ length (per_player res) = 4%nat.
Proof.
  exact (run_table_total (G := Examples.toy_rng) Examples.four_def
           Examples.cfg3 5 200 (fun _ => Examples.deal_in_round) ∅ eq_refl
           (proj2 deal_in_round_in_range)
           (fun _ => proj1 deal_in_round_in_range)).
Defined.

(** X22.  [simulate_table] with a composition between 0 and 4 seats that
    many defensive players followed by the aggressive ones, four in all.
    In normal operation it returns, tagged with the composition, with as
    many entries in [defensive] as the composition says and the rest in
    [aggressive], and it leaves the policy objects alone. *)
Theorem simulate_table_groups {G : PRNG}
    (composition : Z) (cfg : Config) (baseline_utility : R)
    (draws : nat -> TableDraws) (h : Heap) :
  (0 <= composition <= 4)%Z ->
  (forall k, draws_in_range 4 (draws k)) ->
  exists res,
    simulate_table composition cfg baseline_utility draws h
    = Ok (res, Some composition)
    /\ length (per_player res) = 4%nat
    /\ length (defensive res) = Z.to_nat composition
    /\ length (aggressive res) = Z.to_nat (4 - composition)
    /\ final_heap res = h.
Proof.
  intros Hc Hdraws. unfold simulate_table.
  assert (Hlen : length (table_roster composition cfg) = 4%nat).
  { unfold table_roster. rewrite length_app, !length_replicate. lia. }
  assert (Hcall : forall p, In p (table_roster composition cfg) ->
            forall l, strategy p <> PolicyRef l).
  { intros p Hp l. unfold table_roster in Hp. apply in_app_or in Hp.
    destruct Hp as [Hp | Hp];
      apply (proj2 (list_elem_of_In _ _)) in Hp;
      apply elem_of_replicate in Hp as [-> _]; discriminate. }
  assert (Hlive : live_strategies h (table_roster composition cfg)).
  { intros p l Hp Hs. exfalso. exact (Hcall p Hp l Hs). }
  destruct (run_table_returns (table_roster composition cfg) cfg
              (rounds_per_trial cfg) baseline_utility draws h Hlen Hlive Hdraws)
    as [res Hres].
  exists res. rewrite Hres. cbn [bind]. split; [reflexivity |].
  destruct (run_table_inv _ _ _ _ _ _ _ Hres) as (st & Hrounds & Hinv & ->).
  destruct Hinv as (Hall & _).
  cbn [per_player defensive aggressive final_heap].
  destruct (per_player_seats baseline_utility (table_roster composition cfg)
              (ts_all st) Hall) as [Hfst _].
  split; [rewrite length_zip_with_l_eq by lia; exact Hlen |].
  assert (Hcount : forall label,
            length (List.filter (fun p => String.eqb (strategy_type p) label)
                      (table_roster composition cfg))
            = ((if String.eqb "DEF" label then Z.to_nat composition else 0)
               + (if String.eqb "AGG" label then Z.to_nat (4 - composition) else 0))%nat).
  { intros label. unfold table_roster.
    rewrite List.filter_app, length_app, !filter_replicate. reflexivity. }
  split; [rewrite length_label_stats, Hfst, filter_map_length, Hcount; cbn; lia |].
  split; [rewrite length_label_stats, Hfst, filter_map_length, Hcount; cbn; lia |].
  destruct (table_rounds_frame _ _ _ _ _ _ _ Hrounds) as [Hframe _].
  apply map_eq. intros l. rewrite Hframe; [reflexivity |].
  intros p Hp. apply Hcall. exact Hp.
Qed.

Lemma simulate_table_groups_witness :
  exists res,
    simulate_table (G := Examples.toy_rng) 3 Examples.cfg3 200
      (fun _ => Examples.deal_in_round) ∅
    = Ok (res, Some 3%Z)
    /\ length (per_player res) = 4%nat
    /\ length (defensive res) = Z.to_nat 3
    /\ length (aggressive res) = Z.to_nat (4 - 3)
    /\ final_heap res = ∅.
Proof.
  apply (simulate_table_groups (G := Examples.toy_rng) 3 Examples.cfg3 200
           (fun _ => Examples.deal_in_round) ∅).
  - lia.
  - intros _. exact (proj1 deal_in_round_in_range).
Defined.

(** X23.  A session of an empty table raises [ZeroDivisionError] in its
    first round, when it moves the dealer on; with no round to play it
    returns the empty result. *)
Theorem run_table_empty_roster {G : PRNG}
    (cfg : Config) (rounds_per_trial : Z) (baseline_utility : R)
    (draws : nat -> TableDraws) (h : Heap) :
  ((0 < rounds_per_trial)%Z ->
   _run_table [] cfg rounds_per_trial baseline_utility draws h
   = Raise ZeroDivisionError)
  /\ ((rounds_per_trial <= 0)%Z ->
      _run_table [] cfg rounds_per_trial baseline_utility draws h
      = Ok {| per_player := []; defensive := []; aggressive := [];
              dealer := []; non_dealer := [];
              final_dealer_index := 0; final_heap := h |}).
Proof.
  unfold _run_table. split; intros Hr.
  - destruct (Z.to_nat rounds_per_trial) as [| n] eqn:E; [lia |].
    cbn [table_rounds]. unfold table_step.
    cbn [initial_state ts_dealer_index ts_heap length].
    unfold simulate_table_round. cbn [collect_seats bind].
    reflexivity.
  - replace (Z.to_nat rounds_per_trial) with 0%nat by lia.
    reflexivity.
Qed.

Lemma run_table_empty_roster_witness :
  _run_table (G := Examples.toy_rng) [] Examples.cfg3 2 200
    (fun _ => Examples.deal_in_round) ∅
  = Raise ZeroDivisionError.
Proof.
  apply (proj1 (run_table_empty_roster (G := Examples.toy_rng) Examples.cfg3 2 200
                  (fun _ => Examples.deal_in_round) ∅)).
  lia.
Defined.

(** X24.  [simulate_custom_table] plays the number of rounds it is given,
    except that given 0, like given nothing, it plays the configured
    number: every seat of the result has that many fans, and the result
    carries no composition. *)
Theorem custom_table_rounds {G : PRNG}
    (players : list Player) (cfg : Config) (rounds : option Z)
    (baseline_utility : R) (draws : nat -> TableDraws) (h : Heap)
    (res : TableResult) (composition : option Z) :
  simulate_custom_table players cfg rounds baseline_utility draws h
  = Ok (res, composition) ->
  composition = None
  /\ map (fun ps => length (st_fan_distribution (snd ps))) (per_player res)
     = replicate (length players)
         (Z.to_nat match rounds with
                   | Some 0%Z | None => Simulation.rounds_per_trial cfg
                   | Some r => r
                   end).
Proof.
  unfold simulate_custom_table. intros H.
  apply bind_Ok in H as (res0 & Hrun & H). injection H as <- <-.
  split; [reflexivity |].
  assert (Hrounds : custom_rounds rounds cfg
                    = match rounds with
                      | Some 0%Z | None => Simulation.rounds_per_trial cfg
                      | Some r => r
                      end).
  { unfold custom_rounds. destruct rounds as [[| r | r] |]; reflexivity. }
  rewrite <- Hrounds.
  destruct (run_table_inv _ _ _ _ _ _ _ Hrun) as (st & _ & Hinv & ->).
  destruct Hinv as (Hall & Hlens & _).
  cbn [per_player].
  destruct (per_player_seats baseline_utility players (ts_all st) Hall) as [_ Hsnd].
  rewrite <- (map_map snd (fun s => length (st_fan_distribution s))), Hsnd, map_map.
  rewrite (List.map_ext _ (@length RoundOutcome)).
  - rewrite (map_length_uniform _ _ Hlens), Hall. reflexivity.
  - intros l. cbn [seat_stats st_fan_distribution]. apply length_map.
Qed.

Lemma custom_table_rounds_witness :
  exists res,
    simulate_custom_table (G := Examples.toy_rng) Examples.four_def Examples.cfg3
      (Some 0%Z) 200 (fun _ => Examples.deal_in_round) ∅ = Ok (res, None)
    /\ map (fun ps => length (st_fan_distribution (snd ps))) (per_player res)
       = [1; 1; 1; 1]%nat.
Proof.
  destruct (run_table_returns (G := Examples.toy_rng) Examples.four_def
              Examples.cfg3 1 200 (fun _ => Examples.deal_in_round) ∅ eq_refl
              (proj2 deal_in_round_in_range)
              (fun _ => proj1 deal_in_round_in_range)) as [res Hres].
  assert (Hrun : simulate_custom_table (G := Examples.toy_rng) Examples.four_def
                   Examples.cfg3 (Some 0%Z) 200
                   (fun _ => Examples.deal_in_round) ∅ = Ok (res, None)).
  { unfold simulate_custom_table, custom_rounds. cbn [Z.eqb].
    change (Simulation.rounds_per_trial Examples.cfg3) with 1%Z.
    rewrite Hres. reflexivity. }
  exists res. split; [exact Hrun |].
  exact (proj2 (custom_table_rounds _ _ _ _ _ _ _ _ Hrun)).
Defined.

End SessionProperties.

(** ** Samplers and the weighted winner *)

Section Samplers.
Import Scoring Variables Simulation Table Sampling.
Local Open Scope R_scope.

(** The inverse-CDF search from a draw at or above the running total lands
    on an entry of positive weight. *)
Lemma searchsorted_positive (l : list R) :
  forall (acc u x : R),
    acc <= u ->
    l !! searchsorted_right (cumsum_from acc l) u = Some x ->
    0 < x.
Proof.
  induction l as [| a l IH]; intros acc u x Hacc Hk; [discriminate |].
  cbn [cumsum_from searchsorted_right] in Hk.
  destruct (Rltb (u) (acc + a)) eqn:E.
  - injection Hk as <-. apply Rltb_spec in E. lra.
  - cbn in Hk. apply (IH (acc + a) u x); [| exact Hk].
    destruct (Rlt_dec u (acc + a)) as [Hlt | Hge]; [| lra].
    rewrite Rltb_true in E by exact Hlt. discriminate.
Qed.

(** X25.  Among two or more eligible seats whose fans do not all vanish,
    the weighted draw never picks a seat with fan 0: for a uniform draw
    [u >= 0] the winner has a positive fan. *)
Theorem weighted_winner_has_positive_fan :
  forall (eligible_winners : list Eligible) (u : R) (winner : Eligible),
    (2 <= length eligible_winners)%nat ->
    0 < np_sum (map IZR (map ew_fan eligible_winners)) ->
    0 <= u ->
    select_winner eligible_winners u = Ok winner ->
    (0 < ew_fan winner)%Z.
Proof.
  intros ews u winner Hlen Hsum Hu Hsel.
  assert (Hgen :
    (try winner_idx <-
       np_random_choice (length ews)
         (if Rleb (np_sum (map IZR (map ew_fan ews))) 0
          then np_divide (replicate (length ews) 1) (INR (length ews))
          else np_divide (map IZR (map ew_fan ews))
                 (np_sum (map IZR (map ew_fan ews)))) u
     in lookup_or_raise ews winner_idx) = Ok winner).
  { unfold select_winner in Hsel.
    destruct ews as [| e [| e' rest]]; [cbn in Hlen; lia | cbn in Hlen; lia |].
    exact Hsel. }
  rewrite Rleb_false in Hgen by exact Hsum.
  unfold np_divide in Hgen. rewrite Reqb_false in Hgen by lra.
  apply bind_Ok in Hgen as (k & Hk & Hwin).
  apply lookup_or_raise_Ok in Hwin.
  unfold np_random_choice in Hk.
  destruct (valid_probabilities _ _); [| discriminate].
  injection Hk as Hk.
  assert (Hp : map (fun x => x / np_sum (map IZR (map ew_fan ews)))
                 (map IZR (map ew_fan ews)) !! k
               = Some (IZR (ew_fan winner) / np_sum (map IZR (map ew_fan ews)))).
  { rewrite !lookup_map, Hwin. reflexivity. }
  rewrite <- Hk in Hp. unfold np_cumsum in Hp.
  apply searchsorted_positive in Hp; [| exact Hu].
  apply lt_IZR.
  assert (0 < / np_sum (map IZR (map ew_fan ews))) by (apply Rinv_0_lt_compat; exact Hsum).
  unfold Rdiv in Hp. nra.
Qed.

Lemma weighted_winner_has_positive_fan_witness :
  (0 < ew_fan {| ew_player_idx := 2; ew_fan := 4;
                 ew_player := Examples.def_player; ew_is_dealer := false |})%Z.
Proof.
  apply (weighted_winner_has_positive_fan Inputs.two_eligible 0.5).
  - cbn. lia.
  - cbn. lra.
  - lra.
  - unfold select_winner, Inputs.two_eligible.
    cbn [map ew_fan length]. rewrite !np_sum_cons. change (np_sum []) with 0.
    rtests. unfold np_divide. rtests. cbn [map].
    unfold np_random_choice, valid_probabilities.
    cbn [Nat.ltb Nat.leb Nat.eqb length forallb andb].
    rewrite !np_sum_cons. change (np_sum []) with 0.
    rtests. cbn [andb bind].
    unfold np_cumsum. cbn [cumsum_from searchsorted_right].
    rtests. reflexivity.
Defined.

(** X26.  [sample_base_fan] never raises on a uniform draw below 1, and
    returns the fan value whose probability band the draw falls in: 0
    below 0.4, 1 below 0.7, 2 below 0.9, 4 below 0.97, 8 below 0.99,
    13 from there on. *)
Theorem sample_base_fan_bands :
  forall u : R,
    u < 1 ->
    sample_base_fan u
    = Ok (if Rltb u 0.4 then 0
          else if Rltb u 0.7 then 1
          else if Rltb u 0.9 then 2
          else if Rltb u 0.97 then 4
          else if Rltb u 0.99 then 8
          else 13)%Z.
Proof.
  intros u Hu. unfold sample_base_fan, np_random_choice.
  assert (Hvalid : valid_probabilities (length fan_values) probabilities = true).
  { unfold valid_probabilities, probabilities, fan_values.
    cbn [length Nat.ltb Nat.leb Nat.eqb forallb andb].
    rtests. cbn [andb].
    apply Reqb_true. unfold np_sum. cbn [fold_right]. lra. }
  rewrite Hvalid. cbn [bind].
  unfold np_cumsum, probabilities. cbn [cumsum_from searchsorted_right].
  destruct (Rlt_dec u 0.4), (Rlt_dec u 0.7), (Rlt_dec u 0.9),
           (Rlt_dec u 0.97), (Rlt_dec u 0.99);
    rtests; try reflexivity; exfalso; lra.
Qed.

Lemma sample_base_fan_bands_witness :
  sample_base_fan 0.95
  = Ok (if Rltb 0.95 0.4 then 0
        else if Rltb 0.95 0.7 then 1
        else if Rltb 0.95 0.9 then 2
        else if Rltb 0.95 0.97 then 4
        else if Rltb 0.95 0.99 then 8
        else 13)%Z.
Proof.
  apply sample_base_fan_bands. lra.
Defined.

Lemma Int_part_mono (x y : R) : x <= y -> (Int_part x <= Int_part y)%Z.
Proof.
  intros Hxy.
  destruct (base_Int_part x) as [Hx1 Hx2], (base_Int_part y) as [Hy1 Hy2].
  destruct (Z_le_gt_dec (Int_part x) (Int_part y)) as [Hle | Hgt]; [exact Hle |].
  exfalso.
  assert (IZR (Int_part y) + 1 <= IZR (Int_part x)).
  { rewrite <- plus_IZR. apply IZR_le. lia. }
  lra.
Qed.

Lemma py_int_mono (x y : R) : 0 <= x -> x <= y -> (py_int x <= py_int y)%Z.
Proof.
  intros Hx Hxy. unfold py_int.
  destruct (Rle_dec 0 x); [| lra]. destruct (Rle_dec 0 y); [| lra].
  apply Int_part_mono. exact Hxy.
Qed.

Lemma py_int_le (x : R) : 0 <= x -> IZR (py_int x) <= x.
Proof.
  intros Hx. unfold py_int. destruct (Rle_dec 0 x); [| lra].
  apply base_Int_part.
Qed.

(** X27.  The fan growth of a table with between 0 and 4 defensive seats:
    a non-negative base fan is never lowered except by the cap 16, never
    raised by more than a fifth, grows (weakly) as defensive seats are
    replaced by aggressive ones, and is unchanged at an all-defensive
    table. *)
Theorem fan_growth_bounds :
  forall bf nd nd' : Z,
    (0 <= bf)%Z -> (0 <= nd <= nd')%Z -> (nd' <= 4)%Z ->
    (Z.min bf 16 <= adjust_fan_growth_for_composition bf nd')%Z
    /\ (adjust_fan_growth_for_composition bf nd'
        <= adjust_fan_growth_for_composition bf nd)%Z
    /\ (adjust_fan_growth_for_composition bf nd <= 16)%Z
    /\ IZR (adjust_fan_growth_for_composition bf nd) <= 1.2 * IZR bf
    /\ adjust_fan_growth_for_composition bf 4 = Z.min bf 16.
Proof.
  intros bf nd nd' Hbf Hnd Hnd'.
  assert (0 <= IZR bf) as Hb by (apply IZR_le; lia).
  assert (IZR nd <= IZR nd') as Hle by (apply IZR_le; lia).
  assert (0 <= IZR nd) as Hnd0 by (apply IZR_le; lia).
  assert (IZR nd' <= 4) as Hnd4 by (apply IZR_le; lia).
  unfold adjust_fan_growth_for_composition.
  rewrite !minus_IZR.
  assert (Hbase : py_int (IZR bf) = bf).
  { apply py_int_eval; [exact Hbf | lra]. }
  assert (H1 : (bf <= py_int (IZR bf * (1 + (4 - IZR nd') / 4 * 0.2)))%Z).
  { rewrite <- Hbase at 1. apply py_int_mono; [exact Hb | nra]. }
  assert (H2 : (py_int (IZR bf * (1 + (4 - IZR nd') / 4 * 0.2))
                <= py_int (IZR bf * (1 + (4 - IZR nd) / 4 * 0.2)))%Z).
  { apply py_int_mono; nra. }
  assert (H3 : IZR (py_int (IZR bf * (1 + (4 - IZR nd) / 4 * 0.2))) <= 1.2 * IZR bf).
  { pose proof (py_int_le (IZR bf * (1 + (4 - IZR nd) / 4 * 0.2)) ltac:(nra)). nra. }
  split; [lia |]. split; [lia |]. split; [lia |].
  split.
  - destruct (Z.min_spec (py_int (IZR bf * (1 + (4 - IZR nd) / 4 * 0.2))) 16)
      as [[_ ->] | [Hge ->]]; [exact H3 |].
    apply IZR_le in Hge. lra.
  - replace (IZR bf * (1 + (4 - 4) / 4 * 0.2)) with (IZR bf) by lra.
    rewrite Hbase. reflexivity.
Qed.

Lemma fan_growth_bounds_witness :
  (Z.min 10 16 <= adjust_fan_growth_for_composition 10 3)%Z
  /\ (adjust_fan_growth_for_composition 10 3
      <= adjust_fan_growth_for_composition 10 0)%Z.
Proof.
  destruct (fan_growth_bounds 10 0 3 ltac:(lia) ltac:(lia) ltac:(lia))
    as (H1 & H2 & _).
  split; [exact H1 | exact H2].
Defined.

End Samplers.

(** ** Summaries of utils.py *)

Section UtilsFacts.
Import Utils.
Local Open Scope R_scope.

Lemma insert_count_keys (x : Z) (uc : list (Z * nat)) (k : Z) :
  In k (map fst (insert_count x uc)) <-> k = x \/ In k (map fst uc).
Proof.
  induction uc as [| [y c] rest IH]; cbn [insert_count].
  - cbn. intuition.
  - destruct (Z.ltb_spec x y).
    + cbn. intuition.
    + destruct (Z.eqb_spec x y) as [-> | Hne].
      * cbn. intuition.
      * cbn [map fst In]. rewrite IH. intuition.
Qed.

Lemma insert_count_sorted (x : Z) (uc : list (Z * nat)) :
  StronglySorted Z.lt (map fst uc) ->
  StronglySorted Z.lt (map fst (insert_count x uc)).
Proof.
  induction uc as [| [y c] rest IH]; intros Hs; cbn [insert_count].
  - cbn. constructor; constructor.
  - cbn [map fst] in Hs. apply StronglySorted_inv in Hs as [Hrest Hall].
    rewrite List.Forall_forall in Hall.
    destruct (Z.ltb_spec x y) as [Hlt | Hge].
    + cbn [map fst]. constructor; [constructor; [exact Hrest |] |].
      * apply List.Forall_forall. exact Hall.
      * constructor; [exact Hlt |].
        apply List.Forall_forall. intros k Hk. specialize (Hall k Hk). lia.
    + destruct (Z.eqb_spec x y) as [-> | Hne].
      * cbn [map fst]. constructor; [exact Hrest |].
        apply List.Forall_forall. exact Hall.
      * cbn [map fst]. constructor; [apply IH; exact Hrest |].
        apply List.Forall_forall. intros k Hk.
        apply insert_count_keys in Hk as [-> | Hk]; [lia | exact (Hall k Hk)].
Qed.

Lemma insert_count_counts (x : Z) (a : list Z) (uc : list (Z * nat)) :
  StronglySorted Z.lt (map fst uc) ->
  Forall (fun e => snd e = count_occ Z.eq_dec a (fst e)) uc ->
  (~ In x (map fst uc) -> count_occ Z.eq_dec a x = 0%nat) ->
  Forall (fun e => snd e = count_occ Z.eq_dec (x :: a) (fst e)) (insert_count x uc).
Proof.
  induction uc as [| [y c] rest IH]; intros Hs Hall Hx; cbn [insert_count].
  - constructor; [| constructor]. cbn [fst snd].
    rewrite count_occ_cons_eq by reflexivity. rewrite Hx; [reflexivity | intros []].
  - cbn [map fst] in Hs. apply StronglySorted_inv in Hs as [Hrest Hkeys].
    rewrite List.Forall_forall in Hkeys.
    apply Forall_cons_1 in Hall as [Hy Hall]. cbn [fst snd] in Hy.
    assert (Hother :
              Forall (fun e => snd e = count_occ Z.eq_dec a (fst e)) rest ->
              Forall (fun e => fst e <> x) rest ->
              Forall (fun e => snd e = count_occ Z.eq_dec (x :: a) (fst e)) rest).
    { intros H1 H2. rewrite List.Forall_forall in *. intros e He.
      rewrite count_occ_cons_neq; [apply H1; exact He |].
      intros Heq. apply (H2 e He). symmetry. exact Heq. }
    assert (Hrest_ne : (x <= y)%Z -> Forall (fun e => fst e <> x) rest).
    { intros Hle. apply List.Forall_forall. intros e He.
      assert (y < fst e)%Z by (apply Hkeys; apply in_map; exact He). lia. }
    destruct (Z.ltb_spec x y) as [Hlt | Hge].
    + constructor; [| constructor].
      * cbn [fst snd]. rewrite count_occ_cons_eq by reflexivity.
        rewrite Hx; [reflexivity |].
        cbn [map fst In]. intros [Heq | Hin]; [lia |].
        specialize (Hkeys x Hin). lia.
      * cbn [fst snd]. rewrite count_occ_cons_neq by lia. exact Hy.
      * apply Hother; [exact Hall | apply Hrest_ne; lia].
    + destruct (Z.eqb_spec x y) as [-> | Hne].
      * constructor.
        -- cbn [fst snd]. rewrite count_occ_cons_eq by reflexivity.
           rewrite Hy. reflexivity.
        -- apply Hother; [exact Hall | apply Hrest_ne; lia].
      * constructor.
        -- cbn [fst snd]. rewrite count_occ_cons_neq by lia. exact Hy.
        -- apply IH; [exact Hrest | exact Hall |].
           intros Hnot. apply Hx. cbn [map fst In].
           intros [Heq | Hin]; [lia | exact (Hnot Hin)].
Qed.

Lemma insert_count_sum (x : Z) (uc : list (Z * nat)) :
  list_sum (map snd (insert_count x uc)) = S (list_sum (map snd uc)).
Proof.
  induction uc as [| [y c] rest IH]; cbn [insert_count]; [reflexivity |].
  destruct (Z.ltb x y); [reflexivity |].
  destruct (Z.eqb x y); [reflexivity |].
  cbn [map snd list_sum fold_right] in *.
  change (fold_right Nat.add 0%nat (map snd (insert_count x rest)))
    with (list_sum (map snd (insert_count x rest))).
  rewrite IH. unfold list_sum. lia.
Qed.

Lemma np_unique_counts_spec (a : list Z) :
  StronglySorted Z.lt (map fst (np_unique_counts a))
  /\ (forall x, In x (map fst (np_unique_counts a)) <-> In x a)
  /\ Forall (fun e => snd e = count_occ Z.eq_dec a (fst e)) (np_unique_counts a)
  /\ list_sum (map snd (np_unique_counts a)) = length a.
Proof.
  induction a as [| x a (Hs & Hk & Hc & Hl)].
  - cbn. split; [constructor |]. split; [tauto |]. split; [constructor | reflexivity].
  - change (np_unique_counts (x :: a)) with (insert_count x (np_unique_counts a)).
    split; [apply insert_count_sorted; exact Hs |].
    split; [intros k; rewrite insert_count_keys, Hk; cbn; intuition |].
    split.
    + apply insert_count_counts; [exact Hs | exact Hc |].
      intros Hnot. apply count_occ_not_In. rewrite <- Hk. exact Hnot.
    + rewrite insert_count_sum, Hl. reflexivity.
Qed.

Lemma np_sum_frequencies (counts : list nat) (n : nat) :
  np_sum (map (fun c => INR c / INR n) counts) = INR (list_sum counts) / INR n.
Proof.
  induction counts as [| c counts IH].
  - cbn [map list_sum fold_right]. change (np_sum []) with 0.
    change (INR 0) with 0. unfold Rdiv. lra.
  - cbn [map]. rewrite np_sum_cons, IH.
    change (list_sum (c :: counts)) with (c + list_sum counts)%nat.
    rewrite plus_INR. unfold Rdiv. lra.
Qed.

Lemma map_snd_of_fst {A B : Type} (f : A -> B) (l : list (A * B)) :
  Forall (fun e => snd e = f (fst e)) l -> map snd l = map f (map fst l).
Proof.
  intros H. induction H as [| e l He _ IH]; [reflexivity |].
  cbn [map]. rewrite He, IH. reflexivity.
Qed.

(** X28.  [compute_fan_distribution] lists the distinct fans of the array
    in increasing order, each with the number of times it occurs; the
    counts add up to the length of the array and, when the array is not
    empty, the frequencies add up to 1. *)
Theorem fan_distribution_spec :
  forall fan_array : list Z,
    let fd := compute_fan_distribution fan_array in
    StronglySorted Z.lt (fd_fan_values fd)
    /\ (forall x, In x (fd_fan_values fd) <-> In x fan_array)
    /\ fd_counts fd = map (count_occ Z.eq_dec fan_array) (fd_fan_values fd)
    /\ list_sum (fd_counts fd) = length fan_array
    /\ length (fd_frequencies fd) = length (fd_fan_values fd)
    /\ (fan_array <> [] -> np_sum (fd_frequencies fd) = 1).
Proof.
  intros fan_array fd. subst fd. unfold compute_fan_distribution.
  cbn [fd_fan_values fd_counts fd_frequencies].
  destruct (np_unique_counts_spec fan_array) as (Hs & Hk & Hc & Hl).
  split; [exact Hs |]. split; [exact Hk |].
  split.
  { apply map_snd_of_fst. exact Hc. }
  split; [exact Hl |].
  split; [rewrite !length_map; reflexivity |].
  intros Hne. rewrite np_sum_frequencies, Hl.
  assert (0 < INR (length fan_array)).
  { apply lt_0_INR. destruct fan_array; [contradiction | cbn; lia]. }
  field. lra.
Qed.

Lemma fan_distribution_spec_witness :
  np_sum (fd_frequencies (compute_fan_distribution [2; 0; 2]%Z)) = 1.
Proof.
  apply (fan_distribution_spec [2; 0; 2]%Z). discriminate.
Defined.

Lemma np_max_ge (l : list R) :
  forall x, x <= np_max x l /\ forall y, In y l -> y <= np_max x l.
Proof.
  unfold np_max. induction l as [| a l IH]; intros x; cbn [fold_left].
  - split; [lra | intros y []].
  - destruct (IH (Rmax x a)) as [H1 H2].
    pose proof (Rmax_l x a). pose proof (Rmax_r x a).
    split; [lra |]. intros y [<- | Hy]; [lra | exact (H2 y Hy)].
Qed.

Lemma np_max_zero (l : list R) :
  Forall (fun d => d = 0) l -> np_max 0 l = 0.
Proof.
  unfold np_max. intros H. induction H as [| d l -> _ IH]; [reflexivity |].
  cbn [fold_left]. rewrite Rmax_left by lra. exact IH.
Qed.

(** The drawdown after a change [x] of the cumulative profit is at least
    [- x]. *)
Lemma drawdown_after (ps : list R) :
  forall (m c : R) (i : nat) (x : R),
    c <= m ->
    ps !! i = Some x ->
    exists d,
      In d (zip_with Rminus (accumulate_max_from m (cumsum_from c ps))
              (cumsum_from c ps))
      /\ - x <= d.
Proof.
  induction ps as [| p ps IH]; intros m c i x Hcm Hi; [discriminate |].
  cbn [cumsum_from accumulate_max_from zip_with].
  pose proof (Rmax_l m (c + p)). pose proof (Rmax_r m (c + p)).
  destruct i as [| i].
  - injection Hi as ->. exists (Rmax m (c + x) - (c + x)).
    split; [left; reflexivity | lra].
  - destruct (IH (Rmax m (c + p)) (c + p) i x ltac:(lra) Hi) as (d & Hd & Hx).
    exists d. split; [right; exact Hd | exact Hx].
Qed.

Lemma drawdown_zero (ps : list R) :
  forall c : R,
    Forall (fun p => 0 <= p) ps ->
    Forall (fun d => d = 0)
      (zip_with Rminus (accumulate_max_from c (cumsum_from c ps)) (cumsum_from c ps)).
Proof.
  induction ps as [| p ps IH]; intros c Hall; [constructor |].
  apply Forall_cons_1 in Hall as [Hp Hall].
  cbn [cumsum_from accumulate_max_from zip_with].
  rewrite Rmax_right by lra.
  constructor; [lra | apply IH; exact Hall].
Qed.

Lemma np_sum_flags_le_length (flags : list bool) :
  np_sum (map bool_to_R flags) <= INR (length flags).
Proof.
  induction flags as [| b flags IH].
  - cbn [map length]. change (np_sum []) with 0. change (INR 0) with 0. lra.
  - cbn [map]. rewrite np_sum_cons.
    change (length (b :: flags)) with (S (length flags)). rewrite S_INR.
    destruct b; cbn [bool_to_R]; lra.
Qed.

(** X29.  The risk metrics of an array of trial profits.  The maximum
    drawdown is never negative, it is at least the size of any loss after
    the first trial, and it is 0 when no trial after the first loses; the
    first trial itself never counts, the drawdown being measured from the
    first cumulative profit.  The ruin probability of a non-empty array is a
    number between 0 and 1; an empty array gives drawdown 0 and the three
    other metrics undefined ([nan]). *)
Theorem risk_metrics_bounds :
  forall (profits : list R) (initial_bankroll : R),
    let m := compute_risk_metrics profits initial_bankroll in
    0 <= max_drawdown m
    /\ (forall i x, profits !! S i = Some x -> - x <= max_drawdown m)
    /\ (forall x rest, profits = x :: rest -> Forall (fun p => 0 <= p) rest ->
          max_drawdown m = 0)
    /\ (profits <> [] ->
        exists p, ruin_probability m = Some p /\ 0 <= p <= 1)
    /\ (profits = [] ->
        m = {| max_drawdown := 0; ruin_probability := None;
               final_bankroll_mean := None; final_bankroll_std := None |}).
Proof.
  intros profits b m. subst m. unfold compute_risk_metrics.
  cbn [max_drawdown ruin_probability].
  destruct profits as [| p0 ps].
  - cbn. split; [lra |]. split; [intros i x Hi; discriminate |].
    split; [intros x rest Hx; discriminate |].
    split; [intros Hne; contradiction | reflexivity].
  - unfold np_cumsum. cbn [cumsum_from np_maximum_accumulate zip_with].
    set (D := zip_with Rminus (accumulate_max_from (0 + p0) (cumsum_from (0 + p0) ps))
                (cumsum_from (0 + p0) ps)).
    destruct (np_max_ge D (0 + p0 - (0 + p0))) as [Hhead Hall].
    split; [lra |].
    split.
    { intros i x Hi. cbn in Hi.
      destruct (drawdown_after ps (0 + p0) (0 + p0) i x ltac:(lra) Hi)
        as (d & Hd & Hx).
      specialize (Hall d Hd). lra. }
    split.
    { intros x rest Heq Hrest. injection Heq as -> ->.
      replace (0 + x - (0 + x)) with 0 by lra.
      apply np_max_zero. apply drawdown_zero. exact Hrest. }
    split; [| intros Heq; discriminate].
    intros _.
    set (flags := map (fun c => Rleb (b + c) 0) ((0 + p0) :: cumsum_from (0 + p0) ps)).
    assert (Hmap : map (fun b0 => bool_to_R (Rleb b0 0))
                     (map (fun c => b + c) ((0 + p0) :: cumsum_from (0 + p0) ps))
                   = map bool_to_R flags).
    { unfold flags. rewrite !map_map. reflexivity. }
    rewrite Hmap.
    assert (Hne : flags <> []) by (unfold flags; cbn [map]; discriminate).
    unfold np_mean. destruct (map bool_to_R flags) as [| f fs] eqn:E.
    { destruct flags; [contradiction | discriminate]. }
    rewrite <- E. eexists. split; [reflexivity |].
    pose proof (np_sum_flags_nonneg flags) as H0.
    pose proof (np_sum_flags_le_length flags) as H1.
    rewrite length_map.
    assert (0 < INR (length flags)) as Hpos.
    { apply lt_0_INR. destruct flags; [contradiction | cbn; lia]. }
    split.
    + apply Rmult_le_pos; [exact H0 |]. left. apply Rinv_0_lt_compat. exact Hpos.
    + apply (Rmult_le_reg_r (INR (length flags))); [exact Hpos |].
      unfold Rdiv. rewrite Rmult_assoc, Rinv_l by lra. lra.
Qed.

Lemma risk_metrics_bounds_witness :
  - (-7) <= max_drawdown (compute_risk_metrics [5; -7; 3] 1000).
Proof.
  apply (proj1 (proj2 (risk_metrics_bounds [5; -7; 3] 1000)) 0%nat (-7)).
  reflexivity.
Defined.

End UtilsFacts.

(** ** The trial reducer of experiment 3 *)

Section CompositionRuns.
Import Scoring Variables Simulation Strategies Experiment3.
Local Open Scope R_scope.

Lemma composition_round_at_zero
    (player_strategy : Z -> bool) (cfg : Config) (d : RoundDraws) :
  simulate_round_with_composition 0 player_strategy cfg d
  = simulate_round player_strategy cfg d.
Proof.
  unfold simulate_round_with_composition, simulate_round.
  replace (deal_in_risk d * (1 - 0 * 0.3)) with (deal_in_risk d) by lra.
  reflexivity.
Qed.

Lemma composition_round_same_hand
    (theta : R) (player_strategy : Z -> bool) (cfg : Config) (d : RoundDraws) :
  won (simulate_round_with_composition theta player_strategy cfg d)
  = won (simulate_round player_strategy cfg d)
  /\ missed_hu (simulate_round_with_composition theta player_strategy cfg d)
     = missed_hu (simulate_round player_strategy cfg d)
  /\ fan (simulate_round_with_composition theta player_strategy cfg d)
     = fan (simulate_round player_strategy cfg d).
Proof.
  unfold simulate_round_with_composition, simulate_round.
  destruct (negb (can_complete_hand (rand_complete d) (hand_quality d)));
    [repeat split |].
  destruct (negb (player_strategy _)); [repeat split |].
  destruct (Rltb (rand_deal_in d) (deal_in_risk d * (1 - theta * 0.3))),
           (Rltb (rand_deal_in d) (deal_in_risk d)); repeat split.
Qed.

(** X30.  The trial reducer of experiment 3 against [run_simulation] on the
    same draws.  Whatever [theta] is, it reports the same win rate, missed
    rate, mean fan and fan list: the composition moves deal-ins only.  At
    [theta = 0] it reports the same profit and deal-in rates too, and a
    utility without baseline and floor: [run_simulation] reports the
    baseline plus the positive part of it. *)
Theorem composition_run_against_plain_run :
  forall (theta : R) (strategy_fn : Z -> bool) (cfg : Config)
         (baseline_utility : R) (draws : nat -> RoundDraws),
    let s := run_simulation strategy_fn cfg baseline_utility draws in
    let c := run_simulation_with_composition theta strategy_fn cfg draws in
    let c0 := run_simulation_with_composition 0 strategy_fn cfg draws in
    st_win_rate c = st_win_rate s
    /\ st_missed_win_rate c = st_missed_win_rate s
    /\ st_mean_fan c = st_mean_fan s
    /\ st_fan_distribution c = st_fan_distribution s
    /\ st_profit c0 = st_profit s
    /\ st_deal_in_rate c0 = st_deal_in_rate s
    /\ st_deal_in_loss_rate c0 = st_deal_in_loss_rate s
    /\ st_utility s = baseline_utility + Rmax 0 (st_utility c0).
Proof.
  intros theta strategy_fn cfg baseline_utility draws s c c0.
  subst s c c0. unfold run_simulation, run_simulation_with_composition.
  cbn [st_win_rate st_missed_win_rate st_mean_fan st_fan_distribution
       st_profit st_deal_in_rate st_deal_in_loss_rate st_utility].
  rewrite (List.map_ext
             (fun k => simulate_round_with_composition 0 strategy_fn cfg (draws k))
             (fun k => simulate_round strategy_fn cfg (draws k))
             (fun k => composition_round_at_zero strategy_fn cfg (draws k))).
  set (idx := seq 0 (Z.to_nat (rounds_per_trial cfg))).
  assert (Hwon : map won (map (fun k => simulate_round_with_composition theta
                                          strategy_fn cfg (draws k)) idx)
                 = map won (map (fun k => simulate_round strategy_fn cfg (draws k)) idx)).
  { rewrite !map_map. apply List.map_ext. intros k.
    apply (composition_round_same_hand theta strategy_fn cfg (draws k)). }
  assert (Hmissed : map missed_hu (map (fun k => simulate_round_with_composition theta
                                          strategy_fn cfg (draws k)) idx)
                    = map missed_hu
                        (map (fun k => simulate_round strategy_fn cfg (draws k)) idx)).
  { rewrite !map_map. apply List.map_ext. intros k.
    apply (composition_round_same_hand theta strategy_fn cfg (draws k)). }
  assert (Hfan : map fan (map (fun k => simulate_round_with_composition theta
                                          strategy_fn cfg (draws k)) idx)
                 = map fan (map (fun k => simulate_round strategy_fn cfg (draws k)) idx)).
  { rewrite !map_map. apply List.map_ext. intros k.
    apply (composition_round_same_hand theta strategy_fn cfg (draws k)). }
  rewrite Hwon, Hmissed, Hfan. repeat split; reflexivity.
Qed.

End CompositionRuns.
